(** * create-vue: the scaffolding script [index.js]

    A shallow embedding of the pure and the file-system parts of
    [index.js], followed by the properties established about them.

    Strings.  A JavaScript string is a sequence of UTF-16 code units.  The
    development works with the code units 0..255 (Basic Latin and the
    Latin-1 Supplement), one [ascii] per code unit, so that a Rocq [string]
    is a JavaScript string over that range.  White space, line terminators
    and the case mapping of [String.prototype.toLowerCase] are taken from
    ECMAScript for exactly that range. *)

From Stdlib Require Import Ascii String NArith Bool List Lia.
From stdpp Require Import base option list strings gmap fin_maps.

Local Open Scope string_scope.
Local Open Scope list_scope.

(* ===================================================================== *)
(** * Part I: the model *)
(* ===================================================================== *)

(** ** Characters and character classes *)

Module Chars.

Definition code (c : ascii) : N := N_of_ascii c.

(** [lo-hi] inside a character class. *)
Definition range (lo hi c : ascii) : bool :=
  ((code lo <=? code c)%N && (code c <=? code hi)%N)%bool.

(** a literal list of characters inside a character class. *)
Fixpoint oneOf (cs : string) (c : ascii) : bool :=
  match cs with
  | EmptyString => false
  | String d cs' => (Ascii.eqb c d || oneOf cs' c)%bool
  end.

(** [\s], which is also what [trim] strips: TAB, LF, VT, FF, CR, SP and
    NBSP are the white space and line terminator code units below 256. *)
Definition isSpace (c : ascii) : bool :=
  (range "009" "013" c || Ascii.eqb c " " || Ascii.eqb c "160")%bool.

(** The code units below 256 that [toLowerCase] changes: A-Z, and the
    Latin-1 capitals U+00C0..U+00DE except the multiplication sign. *)
Definition isUpper (c : ascii) : bool :=
  (range "A" "Z" c || range "192" "214" c || range "216" "222" c)%bool.

Definition toLower (c : ascii) : ascii :=
  if isUpper c then ascii_of_N (code c + 32) else c.

(** [[a-z0-9-*~]] *)
Definition scopeHead (c : ascii) : bool :=
  (range "a" "z" c || range "0" "9" c || oneOf "-*~" c)%bool.
(** [[a-z0-9-*._~]] *)
Definition scopeTail (c : ascii) : bool :=
  (range "a" "z" c || range "0" "9" c || oneOf "-*._~" c)%bool.
(** [[a-z0-9-~]] *)
Definition nameHead (c : ascii) : bool :=
  (range "a" "z" c || range "0" "9" c || oneOf "-~" c)%bool.
(** [[a-z0-9-._~]] *)
Definition nameTail (c : ascii) : bool :=
  (range "a" "z" c || range "0" "9" c || oneOf "-._~" c)%bool.
(** [[._]] *)
Definition dotOrUnderscore (c : ascii) : bool := oneOf "._" c.
(** [[^a-z0-9-~]] *)
Definition notNameHead (c : ascii) : bool := negb (nameHead c).

(** every character of [s] belongs to the class [C]. *)
Fixpoint allChars (C : ascii -> bool) (s : string) : bool :=
  match s with
  | EmptyString => true
  | String c s' => (C c && allChars C s')%bool
  end.

End Chars.

(** ** Regular expressions, as far as [index.js] uses them *)

Module Regex.

Inductive regex : Type :=
| Void : regex                          (* matches nothing *)
| Eps : regex                           (* the empty pattern *)
| Set_ : (ascii -> bool) -> regex       (* a character class *)
| Cat : regex -> regex -> regex
| Alt : regex -> regex -> regex
| Star : regex -> regex.

Definition Chr (c : ascii) : regex := Set_ (Ascii.eqb c).
(** [(?:r)?] *)
Definition Opt (r : regex) : regex := Alt r Eps.
Fixpoint nullable (r : regex) : bool :=
  match r with
  | Void => false
  | Eps => true
  | Set_ _ => false
  | Cat a b => nullable a && nullable b
  | Alt a b => nullable a || nullable b
  | Star _ => true
  end.

Fixpoint deriv (c : ascii) (r : regex) : regex :=
  match r with
  | Void => Void
  | Eps => Void
  | Set_ f => if f c then Eps else Void
  | Cat a b =>
      if nullable a then Alt (Cat (deriv c a) b) (deriv c b)
      else Cat (deriv c a) b
  | Alt a b => Alt (deriv c a) (deriv c b)
  | Star a => Cat (deriv c a) (Star a)
  end.

(** [/^r$/.test(s)]: the pattern has to cover the whole of [s]. *)
Fixpoint test (r : regex) (s : string) : bool :=
  match s with
  | EmptyString => nullable r
  | String c s' => test (deriv c r) s'
  end.

(** The strings a pattern denotes. *)
Inductive lang : regex -> string -> Prop :=
| lang_eps : lang Eps ""
| lang_set f c : f c = true -> lang (Set_ f) (String c "")
| lang_cat a b s t : lang a s -> lang b t -> lang (Cat a b) (s +:+ t)
| lang_alt_l a b s : lang a s -> lang (Alt a b) s
| lang_alt_r a b s : lang b s -> lang (Alt a b) s
| lang_star_nil a : lang (Star a) ""
| lang_star_cons a s t :
    lang a s -> lang (Star a) t -> lang (Star a) (s +:+ t).

(** [s.replace(/C+/g, by)] for a character class [C]: scanning from the
    left, every maximal run of characters of [C] is replaced by [by_].
    [inRun] records that the previous character belonged to a run which
    has been replaced already. *)
Fixpoint replaceRuns (C : ascii -> bool) (by_ : string) (inRun : bool)
    (s : string) : string :=
  match s with
  | EmptyString => EmptyString
  | String c s' =>
      if C c then
        if inRun then replaceRuns C by_ true s'
        else by_ +:+ replaceRuns C by_ true s'
      else String c (replaceRuns C by_ false s')
  end.

(** [s.replace(/^C/, by)] for a character class [C]. *)
Definition replaceFirstAtStart (C : ascii -> bool) (by_ : string)
    (s : string) : string :=
  match s with
  | EmptyString => EmptyString
  | String c s' => if C c then by_ +:+ s' else s
  end.

End Regex.

(** ** Package names (index.js, lines 18-29) *)

Module PackageName.
Import Chars Regex.

(** [/^(?:@[a-z0-9-*~][a-z0-9-*._~]*\/)?[a-z0-9-~][a-z0-9-._~]*$/] *)
Definition packageNamePattern : regex :=
  Cat (Opt (Cat (Chr "@")
           (Cat (Set_ scopeHead)
           (Cat (Star (Set_ scopeTail))
                (Chr "/")))))
      (Cat (Set_ nameHead) (Star (Set_ nameTail))).

Definition isValidPackageName (projectName : string) : bool :=
  test packageNamePattern projectName.

Fixpoint trimStart (s : string) : string :=
  match s with
  | EmptyString => EmptyString
  | String c s' => if isSpace c then trimStart s' else s
  end.

Fixpoint trimEnd (s : string) : string :=
  match s with
  | EmptyString => EmptyString
  | String c s' =>
      match trimEnd s' with
      | EmptyString => if isSpace c then EmptyString else String c EmptyString
      | t => String c t
      end
  end.

Definition trim (s : string) : string := trimEnd (trimStart s).

Fixpoint toLowerCase (s : string) : string :=
  match s with
  | EmptyString => EmptyString
  | String c s' => String (toLower c) (toLowerCase s')
  end.

Definition toValidPackageName (projectName : string) : string :=
  replaceRuns notNameHead "-" false
    (replaceFirstAtStart dotOrUnderscore ""
      (replaceRuns isSpace "-" false
        (toLowerCase
          (trim projectName)))).

End PackageName.

(** ** JavaScript values and completions *)

Module Js.

(** The values that flow through the options and the answers. *)
Inductive value : Type :=
| VUndefined : value
| VBool : bool -> value
| VString : string -> value.

#[global] Instance value_eq_dec : EqDecision value.
Proof. solve_decision. Defined.

(** ToBoolean *)
Definition truthy (v : value) : bool :=
  match v with
  | VUndefined => false
  | VBool b => b
  | VString s => negb (String.eqb s "")
  end.

(** [a || b] *)
Definition or_ (a b : value) : value := if truthy a then a else b.

(** [typeof v] *)
Definition typeof (v : value) : string :=
  match v with
  | VUndefined => "undefined"
  | VBool _ => "boolean"
  | VString _ => "string"
  end.

(** [String(v)] *)
Definition toString (v : value) : string :=
  match v with
  | VUndefined => "undefined"
  | VBool true => "true"
  | VBool false => "false"
  | VString s => s
  end.

(** A thrown [Error], by its message. *)
Record error : Type := Error { message : string }.

(** How a computation completes: with a value, with a thrown error, or not
    within the recursion depth it was given. *)
Inductive completion (A : Type) : Type :=
| Ret : A -> completion A
| Throw : error -> completion A
| OutOfFuel : completion A.
Arguments Ret {A} _.
Arguments Throw {A} _.
Arguments OutOfFuel {A}.

Definition bind {A B : Type} (m : completion A) (k : A -> completion B)
  : completion B :=
  match m with
  | Ret a => k a
  | Throw e => Throw e
  | OutOfFuel => OutOfFuel
  end.

(** [for (const x of xs) body(x)] over a state. *)
Fixpoint forEach {X S : Type} (xs : list X) (body : X -> S -> completion S)
    (st : S) : completion S :=
  match xs with
  | [] => Ret st
  | x :: xs' => bind (body x st) (forEach xs' body)
  end.

End Js.

Notation "x <- m ;; k" := (Js.bind m (fun x => k))
  (at level 100, m at next level, right associativity).

(** ** The command line (index.js, lines 57-65) *)

Module Cli.
Import Js.

(** What [minimist] returns: the positional words [argv._] and the options. *)
Record argv : Type := Argv { positional : list string; options : gmap string value }.

(** Reading a property; a missing one is [undefined]. *)
Definition get (a : argv) (key : string) : value :=
  default VUndefined (options a !! key).

(** [alias: { typescript: ['ts'], 'with-tests': ['tests', 'cypress'],
              router: ['vue-router'] }] *)
Definition aliasTable : list (string * list string) :=
  [ ("typescript", ["ts"]);
    ("with-tests", ["tests"; "cypress"]);
    ("router", ["vue-router"]) ].

(** An option and its aliases are set together, whichever is written. *)
Definition aliasGroup (key : string) : list string :=
  match
    List.find (fun g => bool_decide (key ∈ fst g :: snd g)) aliasTable
  with
  | Some g => fst g :: snd g
  | None => [key]
  end.

Definition setArg (key : string) (v : value) (a : argv) : argv :=
  Argv (positional a)
       (foldr (fun k o => <[k := v]> o) (options a) (aliasGroup key)).

Definition startsWith (pre s : string) : bool := String.prefix pre s.

(** The names that every object has from [Object.prototype], and the name
    [_] of the positional words: [minimist] does not set an option of such
    a name to [true] (it throws on the former and appends to the latter). *)
Definition reservedKeys : list string :=
  [ "_"; "__proto__"; "constructor"; "prototype"; "hasOwnProperty";
    "isPrototypeOf"; "propertyIsEnumerable"; "toLocaleString"; "toString";
    "valueOf"; "__defineGetter__"; "__defineSetter__"; "__lookupGetter__";
    "__lookupSetter__" ].

(** The words of the usage comment: [--name] sets a boolean option, a word
    that does not start with a dash is positional.  Negated options
    ([--no-name]), [--name=value], dotted names, names with a line
    terminator, the reserved names, short options, [--], the words [true]
    and [false] and the words that may be read as numbers are left out: for
    them [minimist] is [None]. *)
Definition plainOption (w : string) : option string :=
  if startsWith "--" w then
    let key := String.substring 2 (String.length w - 2) w in
    if (String.eqb key "" || startsWith "no-" key
        || existsb (fun c => Ascii.eqb "=" c || Ascii.eqb "." c
                             || Ascii.eqb "010" c || Ascii.eqb "013" c)
             (list_ascii_of_string key)
        || bool_decide (key ∈ reservedKeys))%bool
    then None else Some key
  else None.

(** A positional word that is kept as the string it is. *)
Definition plainWord (w : string) : bool :=
  negb (String.eqb w "true" || String.eqb w "false"
        || match w with
           | String c (String c' _) =>
               Chars.range "0" "9" c || Ascii.eqb c "+"
               || Ascii.eqb c "." && Chars.range "0" "9" c'
           | String c EmptyString => Chars.range "0" "9" c
           | EmptyString => false
           end)%bool.

Fixpoint minimist (args : list string) : option argv :=
  match args with
  | [] => Some (Argv [] ∅)
  | w :: rest =>
      a ← minimist rest;
      if startsWith "-" w then
        key ← plainOption w; Some (setArg key (VBool true) a)
      else if plainWord w then Some (Argv (w :: positional a) (options a))
      else None
  end.

(** lines 69-78 *)
Definition isFeatureFlagsUsed (a : argv) : bool :=
  String.eqb
    (typeof
      (or_ (get a "default")
      (or_ (get a "ts")
      (or_ (get a "jsx")
      (or_ (get a "router")
      (or_ (get a "pinia")
      (or_ (get a "tests")
           (get a "eslint"))))))))
    "boolean".

(** The feature flags of the usage comment (lines 47-55). *)
Definition featureFlags : list string :=
  [ "default"; "typescript"; "ts"; "jsx"; "router"; "vue-router"; "pinia";
    "with-tests"; "tests"; "cypress"; "eslint"; "eslint-with-prettier" ].

End Cli.

(** ** The Composition Engine (index.js, lines 243-283) *)

Module Composition.
Import Js.

(** The answers after destructuring with defaults (lines 209-219). *)
Record configuration : Type := Configuration {
  packageName : string;
  shouldOverwrite : value;
  needsJsx : value;
  needsTypeScript : value;
  needsRouter : value;
  needsPinia : value;
  needsTests : value;
  needsEslint : value;
  needsPrettier : value
}.

(** One rendering step: [render(templateName)] or [renderEslint(root, result)]. *)
Inductive step : Type :=
| Render : string -> step
| RenderEslint : step.

#[global] Instance step_eq_dec : EqDecision step.
Proof. solve_decision. Defined.

(** lines 269-271 *)
Definition codeTemplate (c : configuration) : string :=
  (if truthy (needsTypeScript c) then "typescript-" else "") +:+
  (if truthy (needsRouter c) then "router" else "default").

(** lines 275-283, the name handed to [render] without its [entry/]. *)
Definition entryTemplate (c : configuration) : string :=
  if (truthy (needsPinia c) && truthy (needsRouter c))%bool then "router-and-pinia"
  else if truthy (needsPinia c) then "pinia"
  else if truthy (needsRouter c) then "router"
  else "default".

Definition when (v : value) (s : step) : list step :=
  if truthy v then [s] else [].

(** The rendering steps of [init] in program order. *)
Definition renderPlan (c : configuration) : list step :=
  [Render "base"] ++
  when (needsJsx c) (Render "config/jsx") ++
  when (needsRouter c) (Render "config/router") ++
  when (needsPinia c) (Render "config/pinia") ++
  when (needsTests c) (Render "config/cypress") ++
  when (needsTypeScript c) (Render "config/typescript") ++
  when (needsEslint c) RenderEslint ++
  [Render ("code/" +:+ codeTemplate c)] ++
  [Render ("entry/" +:+ entryTemplate c)].

(** The configuration with the given feature flags, for the project
    [vue-project]. *)
Definition withFlags (typescript jsx router pinia tests eslint prettier : bool)
  : configuration :=
  {| packageName := "vue-project";
     shouldOverwrite := VUndefined;
     needsJsx := VBool jsx;
     needsTypeScript := VBool typescript;
     needsRouter := VBool router;
     needsPinia := VBool pinia;
     needsTests := VBool tests;
     needsEslint := VBool eslint;
     needsPrettier := VBool prettier |}.

(** The steps that render a template under the directory [kind]. *)
Definition rendersUnder (kind : string) (s : step) : bool :=
  match s with
  | Render name => String.prefix (kind +:+ "/") name
  | RenderEslint => false
  end.

End Composition.

(** ** The file system *)

Module Fs.
Import Js.

(** A path is the list of its components, the innermost first: the file
    [/work/demo/a.js] is [["a.js"; "demo"; "work"]], the root directory is
    [[]].  So [path.resolve(dir, name)] is [name :: dir] and
    [path.basename (name :: dir)] is [name]. *)
Abbreviation path := (list string).

Inductive entry : Type :=
| File : string -> entry      (* a regular file and its content *)
| Dir : entry.

#[global] Instance entry_eq_dec : EqDecision entry.
Proof. solve_decision. Defined.

(** The state of the file system: what is stored at which path. *)
Abbreviation fs := (gmap (list string) entry).

(** Every entry lies in a directory. *)
Definition wellFormed (st : fs) : Prop :=
  forall (n : string) (d : path), is_Some (st !! (n :: d)) -> st !! d = Some Dir.

Definition wellFormedb (st : fs) : bool :=
  forallb (fun kv : path * entry =>
             match fst kv with
             | [] => true
             | _ :: d => bool_decide (st !! d = Some Dir)
             end)
          (map_to_list st).

(** [relTo dir q] is [Some r] when [q] is [r ++ dir]: the path of [q]
    relative to [dir]. *)
Fixpoint relTo (dir q : path) : option path :=
  if decide (q = dir) then Some []
  else match q with
       | [] => None
       | n :: q' => r ← relTo dir q'; Some (n :: r)
       end.

(** [q] is the directory [dir] or lies below it, at any depth. *)
Definition within (dir q : path) : Prop :=
  exists r : path, q = r ++ dir.

(** [q] lies below the directory [dir], at any depth. *)
Definition below (dir q : path) : Prop :=
  exists (n : string) (r : path), q = r ++ n :: dir.

(** A recursion of depth [fuel] reaches every entry within [dir]. *)
Definition fitsDepth (dir : path) (fuel : nat) (st : fs) : Prop :=
  forall q : path,
    within dir q -> is_Some (st !! q) -> length q < length dir + fuel.

Definition fitsDepthb (dir : path) (fuel : nat) (st : fs) : bool :=
  forallb (fun kv : path * entry =>
             Nat.ltb (length (fst kv)) (length dir + fuel))
          (map_to_list st).

Definition enoent : error := Error "ENOENT: no such file or directory".
Definition enotdir : error := Error "ENOTDIR: not a directory".
Definition eisdir : error := Error "EISDIR: illegal operation on a directory".
Definition enotempty : error := Error "ENOTEMPTY: directory not empty".
Definition eexist : error := Error "EEXIST: file already exists".
Definition einval : error := Error "EINVAL: invalid argument".

Definition existsSync (st : fs) (p : path) : bool :=
  bool_decide (is_Some (st !! p)).

(** [fs.lstatSync(p).isDirectory()] *)
Definition isDirectory (st : fs) (p : path) : completion bool :=
  match st !! p with
  | Some Dir => Ret true
  | Some (File _) => Ret false
  | None => Throw enoent
  end.

(** The names of the entries of the directory [p], in the order in which
    the map enumerates them.  (The order of [readdirSync] is that of the
    host; the properties below use only that each entry is listed once.) *)
Definition entries (st : fs) (p : path) : list string :=
  omap (fun kv : path * entry =>
          match fst kv with
          | n :: d => if decide (d = p) then Some n else None
          | [] => None
          end)
       (map_to_list st).

Definition readdirSync (st : fs) (p : path) : completion (list string) :=
  match st !! p with
  | Some Dir => Ret (entries st p)
  | Some (File _) => Throw enotdir
  | None => Throw enoent
  end.

Definition readFileSync (st : fs) (p : path) : completion string :=
  match st !! p with
  | Some (File c) => Ret c
  | Some Dir => Throw eisdir
  | None => Throw enoent
  end.

Definition parentIsDir (st : fs) (p : path) : bool :=
  match p with
  | [] => false
  | _ :: d => bool_decide (st !! d = Some Dir)
  end.

Definition unlinkSync (p : path) (st : fs) : completion fs :=
  match st !! p with
  | Some (File _) => Ret (delete p st)
  | Some Dir => Throw eisdir
  | None => Throw enoent
  end.

Definition rmdirSync (p : path) (st : fs) : completion fs :=
  match st !! p with
  | Some Dir =>
      match entries st p with
      | [] => Ret (delete p st)
      | _ :: _ => Throw enotempty
      end
  | Some (File _) => Throw enotdir
  | None => Throw enoent
  end.

(** The error for a path that is to lie in [d] when [d] is no directory:
    [d], or the first of the directories above it that is stored, is a
    regular file, or such a directory is missing. *)
Fixpoint noDirectory (st : fs) (d : path) : error :=
  match st !! d, d with
  | Some (File _), _ => enotdir
  | None, _ :: d' => noDirectory st d'
  | _, _ => enoent
  end.

Definition mkdirSync (p : path) (st : fs) : completion fs :=
  if existsSync st p then Throw eexist
  else if parentIsDir st p then Ret (<[p := Dir]> st)
  else Throw (noDirectory st (tail p)).

Definition writeFileSync (p : path) (content : string) (st : fs)
  : completion fs :=
  match st !! p with
  | Some Dir => Throw eisdir
  | _ => if parentIsDir st p then Ret (<[p := File content]> st)
         else Throw (noDirectory st (tail p))
  end.

(** Moving the directory [p] and all below it to [q]. *)
Definition moveTree (p q : path) (st : fs) : fs :=
  list_to_map
    (List.map (fun kv : path * entry =>
                 match relTo p (fst kv) with
                 | Some r => (r ++ q, snd kv)
                 | None => kv
                 end)
              (map_to_list st)).

Definition renameSync (p q : path) (st : fs) : completion fs :=
  match st !! p with
  | None => Throw enoent
  | Some (File c) =>
      match st !! q with
      | Some Dir => Throw eisdir
      | _ => if parentIsDir st q then Ret (<[q := File c]> (delete p st))
             else Throw (noDirectory st (tail q))
      end
  | Some Dir =>
      if bool_decide (p = q) then Ret st
      else if bool_decide (is_Some (relTo p q)) then Throw einval
      else match st !! q with
           | Some (File _) => Throw enotdir
           | Some Dir =>
               match entries st q with
               | [] => Ret (moveTree p q (delete q st))
               | _ :: _ => Throw enotempty
               end
           | None => if parentIsDir st q then Ret (moveTree p q st)
                     else Throw (noDirectory st (tail q))
           end
  end.

(** *** Paths written as strings *)

(** The components of a path string, split at [/]. *)
Fixpoint segments (s : string) : list string :=
  match s with
  | EmptyString => [EmptyString]
  | String c s' =>
      if Ascii.eqb c "/" then EmptyString :: segments s'
      else match segments s' with
           | seg :: segs => String c seg :: segs
           | [] => [String c EmptyString]
           end
  end.

(** Walking the components from a directory: [.] and the empty component
    stay, [..] goes up. *)
Definition walk (from : path) (segs : list string) : path :=
  foldl (fun (d : path) (seg : string) =>
           if (String.eqb seg "" || String.eqb seg ".")%bool then d
           else if String.eqb seg ".." then tail d
           else seg :: d)
        from segs.

(** The path that [path.join(dir, s)] names: [s] is read from [dir], also
    when it starts with a separator, and is normalised without a look at
    the file system. *)
Definition pathJoin (dir : path) (s : string) : path := walk dir (segments s).

(** The path as the string that is printed. *)
Definition pathString (p : path) : string :=
  match p with
  | [] => "/"
  | _ => foldl (fun (acc n : string) => acc +:+ "/" +:+ n) "" (reverse p)
  end.

(** [s] ends with a separator. *)
Fixpoint trailingSeparator (s : string) : bool :=
  match s with
  | EmptyString => false
  | String c EmptyString => Ascii.eqb c "/"
  | String _ s' => trailingSeparator s'
  end.

(** The string [path.join(dir, s)]: normalising keeps a trailing separator,
    except after the root directory. *)
Definition pathJoinString (dir : path) (s : string) : string :=
  match pathJoin dir s with
  | [] => "/"
  | p => pathString p +:+ (if trailingSeparator s then "/" else "")
  end.

(** *** Path strings as the file system reads them *)

(** One component further from [d], which has to be a directory. *)
Definition descend (st : fs) (d : path) (seg : string) : completion path :=
  match st !! d with
  | Some Dir =>
      Ret (if (String.eqb seg "" || String.eqb seg ".")%bool then d
           else if String.eqb seg ".." then tail d
           else seg :: d)
  | Some (File _) => Throw enotdir
  | None => Throw enoent
  end.

(** What the path string [s] names for a process in the directory [cwd].
    The file system follows the components one by one, [.] and [..] among
    them, through directories that exist; what the last component names
    need not exist.  The empty string names nothing. *)
Definition locate (cwd : path) (st : fs) (s : string) : completion path :=
  if String.eqb s "" then Throw enoent
  else foldl (fun (m : completion path) (seg : string) =>
                d <- m ;; descend st d seg)
             (Ret (if String.prefix "/" s then [] else cwd))
             (segments s).

(** [fs.existsSync(s)], which is [false] also when [s] cannot be followed. *)
Definition existsSyncAt (cwd : path) (st : fs) (s : string) : bool :=
  match locate cwd st s with
  | Ret p => existsSync st p
  | _ => false
  end.

(** [fs.readdirSync(s)] *)
Definition readdirSyncAt (cwd : path) (st : fs) (s : string)
  : completion (list string) :=
  p <- locate cwd st s ;; readdirSync st p.

(** [fs.existsSync] of a normalised absolute path.  Written with a trailing
    separator, the path names a directory only. *)
Definition existsSyncDir (asDirectory : bool) (st : fs) (p : path) : bool :=
  match st !! p with
  | Some Dir => true
  | Some (File _) => negb asDirectory
  | None => false
  end.

(** *** Directory traversal *)

(** Modelled from the spec: the traversals of [utils/directoryTraverse.js],
    which [index.js] imports.  Section 4.2 gives the two orders: pre-order
    invokes the
    directory callback on a directory and then recurses into it, post-order
    recurses first and invokes the directory callback afterwards; files go to
    the file callback.  Section 4.5 adds that pre-order does not descend into
    a directory that its callback has removed.  The callbacks are invoked on
    what lies in the root, not on the root itself: [init] goes on writing
    into the root after [emptyDir(root)], and removes a test directory
    itself after [emptyDir(dirpath)].  The entries of a directory are read
    once, before the first of them is visited.  [fuel] bounds the depth of
    the recursion. *)
Fixpoint preOrderDirectoryTraverse (fuel : nat) (dir : path)
    (dirCallback fileCallback : path -> fs -> completion fs) (st : fs)
  : completion fs :=
  match fuel with
  | O => OutOfFuel
  | S fuel' =>
      names <- readdirSync st dir ;;
      forEach names
        (fun (filename : string) (st : fs) =>
           let fullpath := filename :: dir in
           isDir <- isDirectory st fullpath ;;
           if (isDir : bool) then
             st <- dirCallback fullpath st ;;
             if existsSync st fullpath then
               preOrderDirectoryTraverse fuel' fullpath
                 dirCallback fileCallback st
             else Ret st
           else fileCallback fullpath st)
        st
  end.

(** Modelled from the spec: see [preOrderDirectoryTraverse]. *)
Fixpoint postOrderDirectoryTraverse (fuel : nat) (dir : path)
    (dirCallback fileCallback : path -> fs -> completion fs) (st : fs)
  : completion fs :=
  match fuel with
  | O => OutOfFuel
  | S fuel' =>
      names <- readdirSync st dir ;;
      forEach names
        (fun (filename : string) (st : fs) =>
           let fullpath := filename :: dir in
           isDir <- isDirectory st fullpath ;;
           if (isDir : bool) then
             st <- postOrderDirectoryTraverse fuel' fullpath
                     dirCallback fileCallback st ;;
             dirCallback fullpath st
           else fileCallback fullpath st)
        st
  end.

(** *** index.js, lines 31-41 *)

Definition canSafelyOverwrite (cwd : path) (st : fs) (dir : string)
  : completion bool :=
  if negb (existsSyncAt cwd st dir) then Ret true
  else names <- readdirSyncAt cwd st dir ;;
       Ret (Nat.eqb (length names) 0).

Definition emptyDir (fuel : nat) (dir : path) (st : fs) : completion fs :=
  postOrderDirectoryTraverse fuel dir
    (fun dir => rmdirSync dir)
    (fun file => unlinkSync file)
    st.

End Fs.

(** ** The Post-Processor (index.js, lines 285-334) *)

Module Cleanup.
Import Js Fs Composition.

(** [s.endsWith(suffix)] *)
Fixpoint endsWith (s suffix : string) : bool :=
  if String.eqb s suffix then true
  else match s with
       | EmptyString => false
       | String _ s' => endsWith s' suffix
       end.

(** [s.replace(/suffix$/, by)], for a literal [suffix]. *)
Fixpoint replaceEnd (s suffix by_ : string) : string :=
  if String.eqb s suffix then by_
  else match s with
       | EmptyString => EmptyString
       | String c s' => String c (replaceEnd s' suffix by_)
       end.

(** [s.replace(pattern, by)] for a string [pattern]: the first occurrence. *)
Fixpoint replaceFirst (s pattern by_ : string) : string :=
  if String.prefix pattern s then
    by_ +:+ String.substring (String.length pattern)
              (String.length s - String.length pattern) s
  else match s with
       | EmptyString => EmptyString
       | String c s' => String c (replaceFirst s' pattern by_)
       end.

(** [path.basename(p)] *)
Definition basename (p : path) : string :=
  match p with
  | n :: _ => n
  | [] => EmptyString
  end.

(** A path with another last component. *)
Definition withBasename (p : path) (n : string) : path := n :: tail p.

(** The file callback of lines 298-309.  The path ends with the name of the
    file, after a separator, so the tests and replacements at the end of the
    path are tests and replacements at the end of the name. *)
Definition convertFile (filepath : path) (st : fs) : completion fs :=
  if endsWith (basename filepath) ".js" then
    let tsFilePath :=
      withBasename filepath (replaceEnd (basename filepath) ".js" ".ts") in
    if existsSync st tsFilePath then unlinkSync filepath st
    else renameSync filepath tsFilePath st
  else if String.eqb (basename filepath) "jsconfig.json" then
    renameSync filepath
      (withBasename filepath
         (replaceEnd (basename filepath) "jsconfig.json" "tsconfig.json"))
      st
  else Ret st.

(** lines 295-310 *)
Definition convertJsToTs (fuel : nat) (root : path) (st : fs) : completion fs :=
  preOrderDirectoryTraverse fuel root (fun _ st => Ret st) convertFile st.

(** lines 312-315 *)
Definition renameEntryInIndexHtml (root : path) (st : fs) : completion fs :=
  let indexHtmlPath := "index.html" :: root in
  indexHtmlContent <- readFileSync st indexHtmlPath ;;
  writeFileSync indexHtmlPath
    (replaceFirst indexHtmlContent "src/main.js" "src/main.ts") st.

(** lines 287-316, the body of [if (needsTypeScript)]. *)
Definition typescriptCleanup (fuel : nat) (root : path) (st : fs)
  : completion fs :=
  st <- convertJsToTs fuel root st ;;
  renameEntryInIndexHtml root st.

Definition isTestDirName (dirname : string) : bool :=
  (String.eqb dirname "cypress" || String.eqb dirname "__tests__")%bool.

(** The directory callback of lines 324-331. *)
Definition removeTestDir (fuel : nat) (dirpath : path) (st : fs)
  : completion fs :=
  let dirname := basename dirpath in
  if isTestDirName dirname then
    st <- emptyDir fuel dirpath st ;;
    rmdirSync dirpath st
  else Ret st.

(** lines 318-334, the body of [if (!needsTests)]. *)
Definition removeTests (fuel : nat) (root : path) (st : fs) : completion fs :=
  preOrderDirectoryTraverse fuel root (removeTestDir fuel) (fun _ st => Ret st)
    st.

(** lines 285-334 *)
Definition cleanup (c : configuration) (fuel : nat) (root : path) (st : fs)
  : completion fs :=
  st <- (if truthy (needsTypeScript c) then typescriptCleanup fuel root st
         else Ret st) ;;
  if negb (truthy (needsTests c)) then removeTests fuel root st else Ret st.

(** *** What the passes do, entry by entry *)

(** The conversion stops at a file [jsconfig.json] next to a directory
    [tsconfig.json]: the former cannot be renamed to the latter. *)
Definition noConfigClash (root : path) (st : fs) : Prop :=
  forall (d : path) (c : string),
    within root d ->
    st !! ("jsconfig.json" :: d) = Some (File c) ->
    st !! ("tsconfig.json" :: d) <> Some Dir.

Definition noConfigClashb (st : fs) : bool :=
  forallb (fun kv : path * entry =>
             match kv with
             | (n :: d, File _) =>
                 negb (String.eqb n "jsconfig.json"
                       && bool_decide (st !! ("tsconfig.json" :: d) = Some Dir))
             | _ => true
             end)
          (map_to_list st).

(** The names of the files that the conversion acts on. *)
Definition isSource (n : string) : bool :=
  (endsWith n ".js" || String.eqb n "jsconfig.json")%bool.

(** The file that a name can come from: its own if it is a source, and for
    [x.ts] and [tsconfig.json] the source that is renamed to it. *)
Definition sourceName (n : string) : string :=
  if isSource n then n
  else if endsWith n ".ts" then replaceEnd n ".ts" ".js"
  else if String.eqb n "tsconfig.json" then "jsconfig.json"
  else n.

(** What the conversion leaves at the path [q] of the tree [st]. *)
Definition convertedEntry (st : fs) (q : path) : option entry :=
  match q with
  | [] => st !! q
  | n :: d =>
      if isSource n then
        match st !! q with
        | Some (File _) => None
        | o => o
        end
      else if endsWith n ".ts" then
        match st !! q with
        | None =>
            match st !! (sourceName n :: d) with
            | Some (File c) => Some (File c)
            | _ => None
            end
        | o => o
        end
      else if String.eqb n "tsconfig.json" then
        match st !! (sourceName n :: d) with
        | Some (File c) => Some (File c)
        | _ => st !! q
        end
      else st !! q
  end.

(** The entry of [dir] through which the traversal of [dir] comes to act on
    [q]: the entry that [q] lies in, and for an entry of [dir] itself its
    source. *)
Definition convertGroup (dir q : path) : option string :=
  match relTo dir q with
  | Some [n] => Some (sourceName n)
  | Some r => last r
  | None => None
  end.

(** The entry of [dir] that [q] is or lies in. *)
Definition topName (dir q : path) : option string :=
  r ← relTo dir q; last r.

(** On the way from [dir] down the relative path [r] lies a directory named
    after the test tool or the tests folder. *)
Fixpoint testAt (st : fs) (dir r : path) : bool :=
  match r with
  | [] => false
  | n :: r' =>
      (isTestDirName n && bool_decide (st !! (n :: r' ++ dir) = Some Dir)
       || testAt st dir r')%bool
  end.

Definition inTestDirb (st : fs) (dir q : path) : bool :=
  match relTo dir q with
  | Some r => testAt st dir r
  | None => false
  end.

(** What the test-removal pass leaves at the path [q] of the tree [st]. *)
Definition keptEntry (dir : path) (st : fs) (q : path) : option entry :=
  if inTestDirb st dir q then None else st !! q.

(** What holds of the tree all along the conversion of the tree below
    [root], run with the recursion depth [fuel]. *)
Definition converting (root : path) (fuel : nat) (cur : fs) : Prop :=
  wellFormed cur /\ noConfigClash root cur /\ fitsDepth root fuel cur /\
  cur !! root = Some Dir.

(** The classes of names the conversion tells apart. *)
Inductive nameClass (n : string) : Prop :=
| IsJs stem : n = stem +:+ ".js" -> nameClass n
| IsJsconfig : n = "jsconfig.json" -> nameClass n
| IsTs stem : n = stem +:+ ".ts" -> nameClass n
| IsTsconfig : n = "tsconfig.json" -> nameClass n
| IsOther :
    isSource n = false -> endsWith n ".ts" = false ->
    String.eqb n "tsconfig.json" = false -> nameClass n.

(** What the test-removal pass is to remove: [q] lies in, or is, a directory
    within [root], other than [root], that is named after the test tool or
    the tests folder. *)
Definition inTestDir (st : fs) (root q : path) : Prop :=
  exists (r : path) (n : string) (d : path),
    q = r ++ n :: d /\ within root d /\
    isTestDirName n = true /\ st !! (n :: d) = Some Dir.

End Cleanup.

(** ** The interactive questions *)

Module Prompts.
Import Js.

Inductive ptype : Type := Text | Confirm | Toggle.

(** How the user closes a prompt: with a value, or by interrupting. *)
Inductive response : Type :=
| Submit : value -> response
| Abort : response.

#[global] Instance response_eq_dec : EqDecision response.
Proof. solve_decision. Defined.

(** A question over the variables [S] its callbacks close over.  [type]
    gives the kind of prompt, or [None] for [null]: the question is skipped.
    [validate] is applied by the prompt before it accepts a value, so a
    submitted value has passed it. *)
Record question (S : Type) : Type := Question {
  name : string;
  type : S -> gmap string value -> completion (option ptype);
  onState : value -> S -> S;
  validate : value -> bool
}.
Arguments Question {S} _ _ _ _.
Arguments name {S} _.
Arguments type {S} _ _ _.
Arguments onState {S} _ _ _.
Arguments validate {S} _ _.

(** What happened in a session: the prompts shown and how each was closed. *)
Abbreviation transcript := (list (string * response)).

(** The session was interrupted at some prompt. *)
Definition interrupted (t : transcript) : Prop :=
  exists q : string, (q, Abort) ∈ t.

(** The confirmation [q] was declined. *)
Definition declined (q : string) (t : transcript) : Prop :=
  (q, Submit (VBool false)) ∈ t.

(** [user'] closes every prompt with a value, with the value of [user]
    where [user] gives one: [user] with the interruptions taken out. *)
Definition answering (user user' : string -> response) : Prop :=
  forall q : string, user' q <> Abort /\ (user q <> Abort -> user' q = user q).

(** [prompts(questions, { onCancel })] for an [onCancel] that throws, as
    the one of index.js does: [cancelled] is what it throws.  [user] says how
    the user closes the prompt of each question.  The result is the
    transcript together with the variables and the answers. *)
Fixpoint prompts {S : Type} (questions : list (question S)) (cancelled : error)
    (user : string -> response) (s : S) (answers : gmap string value)
  : transcript * completion (S * gmap string value) :=
  match questions with
  | [] => ([], Ret (s, answers))
  | q :: rest =>
      match type q s answers with
      | Throw e => ([], Throw e)
      | OutOfFuel => ([], OutOfFuel)
      | Ret None => prompts rest cancelled user s answers
      | Ret (Some _) =>
          match user (name q) with
          | Abort => ([(name q, Abort)], Throw cancelled)
          | Submit v =>
              let '(t, r) :=
                prompts rest cancelled user (onState q v s)
                  (<[name q := v]> answers) in
              ((name q, Submit v) :: t, r)
          end
      end
  end.

End Prompts.

(** ** [init] up to the first rendering step (index.js, lines 43-231) *)

Module Init.
Import Js Fs Cli Composition Prompts PackageName.

Inductive output : Type :=
| Log : string -> output           (* console.log of a text *)
| LogError : error -> output.      (* console.error of an error, with its stack *)

(** How the process goes on: it has exited with a status, an error has
    reached the handler of line 367, which has logged it, or [init]
    continues. *)
Inductive stage (A : Type) : Type :=
| Exit : Z -> stage A
| Uncaught : error -> stage A
| Unfinished : stage A             (* the recursion depth did not suffice *)
| Continue : A -> stage A.
Arguments Exit {A} _.
Arguments Uncaught {A} _.
Arguments Unfinished {A}.
Arguments Continue {A} _.

Section Host.

(** [utils/banner.js] and the [red] of kolorist. *)
Variable banner : string.
Variable red : string -> string.

(** The error of lines 122 and 198.  (A text that is only printed is kept
    as it is written in the source.) *)
Definition operationCancelled : error :=
  Error (red "✖" +:+ " Operation cancelled").

(** [!targetDir ? 'vue-project' : targetDir] *)
Definition defaultProjectName (targetDir : value) : string :=
  if negb (truthy targetDir) then "vue-project" else toString targetDir.

(** [canSafelyOverwrite(targetDir)]: what is not a path does not exist. *)
Definition canSafelyOverwriteValue (cwd : path) (st : fs) (targetDir : value)
  : completion bool :=
  match targetDir with
  | VString dir => canSafelyOverwrite cwd st dir
  | _ => Ret true
  end.

Definition featureToggle (a : argv) (name : string) : question value :=
  Question name
    (fun _ _ => Ret (if isFeatureFlagsUsed a then None else Some Toggle))
    (fun _ s => s) (fun _ => true).

(** The questions of lines 100-195; the variable they close over and
    assign is [targetDir].  What only shapes the prompt on the screen
    ([message], [initial], [active], [inactive]) is left out. *)
Definition questions (a : argv) (cwd : path) (st : fs) : list (question value) :=
  let targetDir0 := match positional a with w :: _ => VString w | [] => VUndefined end in
  let forceOverwrite := get a "force" in
  [ Question "projectName"
      (fun _ _ => Ret (if truthy targetDir0 then None else Some Text))
      (fun v _ =>
         or_ (VString (trim (toString v)))
             (VString (defaultProjectName targetDir0)))
      (fun _ => true);
    Question "shouldOverwrite"
      (fun targetDir _ =>
         safe <- canSafelyOverwriteValue cwd st targetDir ;;
         Ret (if truthy (or_ (VBool safe) forceOverwrite) then None
              else Some Confirm))
      (fun _ s => s) (fun _ => true);
    Question "overwriteChecker"
      (fun _ values =>
         if decide (default VUndefined (values !! "shouldOverwrite") = VBool false)
         then Throw operationCancelled
         else Ret None)
      (fun _ s => s) (fun _ => true);
    Question "packageName"
      (fun targetDir _ =>
         Ret (if isValidPackageName (toString targetDir) then None
              else Some Text))
      (fun _ s => s)
      (fun dir => isValidPackageName (toString dir));
    featureToggle a "needsTypeScript";
    featureToggle a "needsJsx";
    featureToggle a "needsRouter";
    featureToggle a "needsPinia";
    featureToggle a "needsTests";
    featureToggle a "needsEslint";
    Question "needsPrettier"
      (fun _ values =>
         Ret (if (isFeatureFlagsUsed a
                  || negb (truthy (default VUndefined (values !! "needsEslint"))))%bool
              then None else Some Toggle))
      (fun _ s => s) (fun _ => true) ].

(** The questions about features. *)
Definition featureQuestions : list string :=
  [ "needsTypeScript"; "needsJsx"; "needsRouter"; "needsPinia"; "needsTests";
    "needsEslint"; "needsPrettier" ].

(** [const { x = d } = result]: the default stands in for [undefined]. *)
Definition orDefault (result : gmap string value) (key : string) (d : value)
  : value :=
  match default VUndefined (result !! key) with
  | VUndefined => d
  | v => v
  end.

(** lines 209-219 *)
Definition destructure (a : argv) (result : gmap string value)
  : configuration :=
  let targetDir0 := match positional a with w :: _ => VString w | [] => VUndefined end in
  {| packageName :=
       toString (orDefault result "packageName"
                   (VString (toValidPackageName (defaultProjectName targetDir0))));
     shouldOverwrite := default VUndefined (result !! "shouldOverwrite");
     needsJsx := orDefault result "needsJsx" (get a "jsx");
     needsTypeScript := orDefault result "needsTypeScript" (get a "typescript");
     needsRouter := orDefault result "needsRouter" (get a "router");
     needsPinia := orDefault result "needsPinia" (get a "pinia");
     needsTests := orDefault result "needsTests" (get a "tests");
     needsEslint :=
       orDefault result "needsEslint"
         (or_ (get a "eslint") (get a "eslint-with-prettier"));
     needsPrettier :=
       orDefault result "needsPrettier" (get a "eslint-with-prettier") |}.

(** What the questions leave behind. *)
Record resolved : Type := Resolved {
  targetDir : value;
  result : gmap string value;
  config : configuration
}.

(** lines 44-219: the banner, the questions, and the handler of lines
    202-205, which logs the message of what was thrown and exits with 1. *)
Definition resolveInput (a : argv) (cwd : path) (st : fs)
    (user : string -> response)
  : transcript * list output * stage resolved :=
  let targetDir0 := match positional a with w :: _ => VString w | [] => VUndefined end in
  let '(t, r) := prompts (questions a cwd st) operationCancelled user targetDir0 ∅ in
  let bannerLine := Log (String "010" banner +:+ String "010" "") in
  match r with
  | Ret (targetDir, result) =>
      (t, [bannerLine],
       Continue (Resolved targetDir result (destructure a result)))
  | Throw cancelled => (t, [bannerLine; Log (message cancelled)], Exit 1)
  | OutOfFuel => (t, [bannerLine], Unfinished)
  end.

(** lines 220-226: the root, emptied or created.  ([targetDir] is a string
    by then; [root] is written with the trailing separator of [targetDir],
    if it has one.) *)
Definition prepareRoot (fuel : nat) (cwd : path) (r : resolved) (st : fs)
  : completion (path * fs) :=
  let root := pathJoin cwd (toString (targetDir r)) in
  let asDirectory := trailingSeparator (toString (targetDir r)) in
  st <- (if truthy (shouldOverwrite (config r)) then emptyDir fuel root st
         else if negb (existsSyncDir asDirectory st root) then mkdirSync root st
         else Ret st) ;;
  Ret (root, st).

(** [JSON.stringify({ name: packageName, version: '0.0.0' }, null, 2)]; a
    package name holds no character that JSON escapes. *)
Definition packageJson (packageName : string) : string :=
  let quote := String "034" "" in
  let nl := String "010" "" in
  "{" +:+ nl +:+
  "  " +:+ quote +:+ "name" +:+ quote +:+ ": "
       +:+ quote +:+ packageName +:+ quote +:+ "," +:+ nl +:+
  "  " +:+ quote +:+ "version" +:+ quote +:+ ": "
       +:+ quote +:+ "0.0.0" +:+ quote +:+ nl +:+
  "}".

(** How far [init] has come when the first template is about to be rendered. *)
Record scaffold : Type := Scaffold {
  answers : resolved;
  root : path;
  files : fs
}.

(** lines 43-231: [init] from its start to the point where the file
    [package.json] has been written and the first template is about to be
    rendered. *)
Definition initUntilRender (fuel : nat) (a : argv) (cwd : path) (st : fs)
    (user : string -> response)
  : transcript * list output * stage scaffold :=
  let '(t, out, s) := resolveInput a cwd st user in
  match s with
  | Exit code => (t, out, Exit code)
  | Uncaught e => (t, out, Uncaught e)
  | Unfinished => (t, out, Unfinished)
  | Continue r =>
      match prepareRoot fuel cwd r st with
      | Throw e => (t, out ++ [LogError e], Uncaught e)
      | OutOfFuel => (t, out, Unfinished)
      | Ret (root, st) =>
          let out :=
            out ++ [Log (String "010" "Scaffolding project in "
                         +:+ pathJoinString cwd (toString (targetDir r))
                         +:+ "...")] in
          match
            writeFileSync ("package.json" :: root)
              (packageJson (packageName (config r))) st
          with
          | Ret st => (t, out, Continue (Scaffold r root st))
          | Throw e => (t, out ++ [LogError e], Uncaught e)
          | OutOfFuel => (t, out, Unfinished)
          end
      end
  end.

End Host.

End Init.

(** ** The shape of a package name *)

Module NameShape.
Import Chars.

(** A name without scope: a character of [[a-z0-9-~]], then characters of
    [[a-z0-9-._~]]. *)
Definition unscoped (s : string) : bool :=
  match s with
  | EmptyString => false
  | String c t => (nameHead c && allChars nameTail t)%bool
  end.

(** What stands between [@] and [/] in a scoped name: a character of
    [[a-z0-9-*~]], then characters of [[a-z0-9-*._~]]. *)
Definition scope (s : string) : bool :=
  match s with
  | EmptyString => false
  | String c t => (scopeHead c && allChars scopeTail t)%bool
  end.

End NameShape.

(** ** The package manager (index.js, lines 336-344) *)

Module Report.
Import Js.

(** [/pattern/.test(s)] for a pattern without special characters: [pattern]
    occurs somewhere in [s]. *)
Fixpoint includes (s pattern : string) : bool :=
  if String.prefix pattern s then true
  else match s with
       | EmptyString => false
       | String _ s' => includes s' pattern
       end.

(** [pattern] occurs in [s]. *)
Definition occurs (pattern s : string) : Prop :=
  exists pre post : string, s = pre +:+ pattern +:+ post.

(** lines 340-344; [npm_execpath] is [process.env.npm_execpath], which
    [test] turns into a string. *)
Definition packageManager (npm_execpath : value) : string :=
  if includes (toString npm_execpath) "pnpm" then "pnpm"
  else if includes (toString npm_execpath) "yarn" then "yarn"
  else "npm".

End Report.

(** ** The options that [isFeatureFlagsUsed] reads *)

Module Flags.
Import Js Cli.

(** The operands of lines 71-77, in their order. *)
Definition checkedFlags : list string :=
  [ "default"; "ts"; "jsx"; "router"; "pinia"; "tests"; "eslint" ].

(** Each of them is a boolean or is missing, as [minimist] leaves them
    with [boolean: true] when no option is given a value. *)
Definition booleanFlags (a : argv) : bool :=
  forallb (fun k => match get a k with VString _ => false | _ => true end)
    checkedFlags.

End Flags.

(** ** Names of directory entries *)

Module EntryNames.

(** A name that a directory entry can have: not empty, not [.] or [..],
    and without a separator. *)
Definition plainName (n : string) : bool :=
  negb (String.eqb n "" || String.eqb n "." || String.eqb n ".."
        || existsb (Ascii.eqb "/") (list_ascii_of_string n))%bool.

End EntryNames.

(* ===================================================================== *)
(** * Part II: properties *)
(* ===================================================================== *)

Import Chars Regex PackageName.

(** Membership in a list that is written out. *)
Ltac in_list := apply list_elem_of_In; vm_compute; tauto.

(** A name that is none of a list that is written out. *)
Ltac not_in_list :=
  let H := fresh in
  intros H; apply list_elem_of_In in H; simpl in H; intuition discriminate.

(** An equivalence between two statements that are settled by evaluation:
    memberships in lists that are written out, equations between booleans
    that are written out. *)
Ltac plan_iff :=
  let H := fresh in
  split; intros H;
  first [ reflexivity
        | in_list
        | exfalso;
          first [ apply list_elem_of_In in H; vm_compute in H;
                  intuition discriminate
                | vm_compute in H; discriminate H ] ].

(** ** The pattern matcher agrees with the language of a pattern *)

Section RegexFacts.

Lemma append_nil_inv (s t : string) : s +:+ t = "" -> s = "" /\ t = "".
Proof. destruct s; [auto | discriminate]. Qed.

Lemma nullable_lang (r : regex) : nullable r = true <-> lang r "".
Proof.
  split.
  - induction r; simpl; intros H; try discriminate.
    + constructor.
    + apply andb_true_iff in H as [Ha Hb].
      apply (lang_cat r1 r2 "" ""); auto.
    + apply orb_true_iff in H as [Ha | Hb];
        [apply lang_alt_l | apply lang_alt_r]; auto.
    + constructor.
  - intros H. remember "" as w eqn:Hw.
    induction H; simpl; subst; auto; try discriminate.
    + apply append_nil_inv in Hw as [-> ->].
      rewrite IHlang1, IHlang2; auto.
    + rewrite IHlang; auto.
    + rewrite IHlang, orb_true_r; auto.
Qed.

Lemma deriv_sound (r : regex) (c : ascii) :
  forall s, lang (deriv c r) s -> lang r (String c s).
Proof.
  induction r; simpl; intros s H.
  - inversion H.
  - inversion H.
  - destruct (b c) eqn:E; inversion H; subst. now constructor.
  - destruct (nullable r1) eqn:N.
    + inversion H as [| | | ? ? ? Hl | ? ? ? Hr | |]; subst.
      * inversion Hl as [| | ? ? u v Hu Hv | | | |]; subst.
        apply (lang_cat r1 r2 (String c u) v); auto.
      * apply (lang_cat r1 r2 "" (String c s)); auto.
        now apply nullable_lang.
    + inversion H as [| | ? ? u v Hu Hv | | | |]; subst.
      apply (lang_cat r1 r2 (String c u) v); auto.
  - inversion H; subst; [apply lang_alt_l | apply lang_alt_r]; auto.
  - inversion H as [| | ? ? u v Hu Hv | | | |]; subst.
    apply (lang_star_cons r (String c u) v); auto.
Qed.

Lemma deriv_complete (r : regex) (w : string) :
  lang r w -> forall c s, w = String c s -> lang (deriv c r) s.
Proof.
  induction 1 as [| f d Hf | a b u v Hu IHu Hv IHv | a b u Hu IHu
                 | a b u Hu IHu | | a u v Hu IHu Hv IHv];
    intros c s E; simpl.
  - discriminate.
  - injection E as -> <-. rewrite Hf. constructor.
  - destruct u as [| d u'].
    + change (v = String c s) in E. subst v.
      assert (nullable a = true) as -> by now apply nullable_lang.
      apply lang_alt_r. now apply IHv.
    + change (String d (u' +:+ v) = String c s) in E.
      injection E as -> <-.
      assert (lang (Cat (deriv c a) b) (u' +:+ v))
        by (constructor; auto).
      destruct (nullable a); [now apply lang_alt_l | assumption].
  - apply lang_alt_l. now apply IHu.
  - apply lang_alt_r. now apply IHu.
  - discriminate.
  - destruct u as [| d u'].
    + now apply IHv.
    + change (String d (u' +:+ v) = String c s) in E.
      injection E as -> <-.
      constructor; auto.
Qed.

(** [test] decides membership in the language of the pattern. *)
Lemma test_lang (r : regex) (s : string) : test r s = true <-> lang r s.
Proof.
  revert r. induction s as [| c s IH]; intros r; simpl.
  - apply nullable_lang.
  - rewrite IH. split.
    + apply deriv_sound.
    + intros H. now apply (deriv_complete r (String c s)).
Qed.

End RegexFacts.



(** ** Package names *)

Section PackageNameFacts.

(** What membership in [[a-z0-9-~]] says about the other classes. *)
Lemma nameHead_char (c : ascii) :
  nameHead c = true ->
  isSpace c = false /\ toLower c = c /\ dotOrUnderscore c = false /\
  nameTail c = true /\ notNameHead c = false.
Proof.
  destruct c as [[] [] [] [] [] [] [] []]; vm_compute; intros H;
    solve [discriminate H | repeat split].
Qed.

Lemma replaceRuns_outside (C : ascii -> bool) (by_ : string) :
  forall (b : bool) (t : string),
    allChars (fun c => negb (C c)) t = true -> replaceRuns C by_ b t = t.
Proof.
  intros b t; revert b; induction t as [| c t IH]; intros b H; simpl in *.
  - reflexivity.
  - apply andb_true_iff in H as [Hc Ht].
    apply negb_true_iff in Hc. rewrite Hc, IH; auto.
Qed.

Lemma allChars_impl (C D : ascii -> bool) (t : string) :
  (forall c, C c = true -> D c = true) ->
  allChars C t = true -> allChars D t = true.
Proof.
  intros HCD. induction t as [| c t IH]; simpl; auto.
  intros H. apply andb_true_iff in H as [Hc Ht].
  rewrite (HCD c Hc), IH; auto.
Qed.

(** The last replacement leaves only characters of [[a-z0-9-~]]. *)
Lemma replaceRuns_notNameHead (b : bool) (s : string) :
  allChars nameHead (replaceRuns notNameHead "-" b s) = true.
Proof.
  revert b. induction s as [| c s IH]; intros b; simpl; auto.
  unfold notNameHead at 1. destruct (nameHead c) eqn:E; simpl.
  - rewrite E. apply IH.
  - destruct b; [apply IH |].
    change ("-" +:+ replaceRuns notNameHead "-" true s)
      with (String "-" (replaceRuns notNameHead "-" true s)).
    simpl. apply IH.
Qed.

Lemma toValidPackageName_chars (s : string) :
  allChars nameHead (toValidPackageName s) = true.
Proof. apply replaceRuns_notNameHead. Qed.

Lemma trimStart_clean (t : string) :
  allChars nameHead t = true -> trimStart t = t.
Proof.
  destruct t as [| c t]; simpl; auto. intros H.
  apply andb_true_iff in H as [Hc _].
  apply nameHead_char in Hc as (-> & _). reflexivity.
Qed.

Lemma trimEnd_clean (t : string) :
  allChars nameHead t = true -> trimEnd t = t.
Proof.
  induction t as [| c t IH]; simpl; auto. intros H.
  apply andb_true_iff in H as [Hc Ht].
  rewrite (IH Ht). apply nameHead_char in Hc as (-> & _).
  destruct t; reflexivity.
Qed.

Lemma toLowerCase_clean (t : string) :
  allChars nameHead t = true -> toLowerCase t = t.
Proof.
  induction t as [| c t IH]; simpl; auto. intros H.
  apply andb_true_iff in H as [Hc Ht].
  rewrite (IH Ht). apply nameHead_char in Hc as (_ & -> & _). reflexivity.
Qed.

Lemma replaceFirstAtStart_clean (t : string) :
  allChars nameHead t = true -> replaceFirstAtStart dotOrUnderscore "" t = t.
Proof.
  destruct t as [| c t]; simpl; auto. intros H.
  apply andb_true_iff in H as [Hc _].
  apply nameHead_char in Hc as (_ & _ & -> & _). reflexivity.
Qed.

(** A name that is already normal is left as it is. *)
Lemma toValidPackageName_clean (t : string) :
  allChars nameHead t = true -> toValidPackageName t = t.
Proof.
  intros H. unfold toValidPackageName, trim.
  rewrite (trimStart_clean t H), (trimEnd_clean t H), (toLowerCase_clean t H).
  rewrite (replaceRuns_outside isSpace "-" false t).
  2:{ apply (allChars_impl nameHead); auto.
      intros c Hc. apply nameHead_char in Hc as (-> & _). reflexivity. }
  rewrite (replaceFirstAtStart_clean t H).
  apply replaceRuns_outside.
  apply (allChars_impl nameHead); auto.
  intros c Hc. apply nameHead_char in Hc as (_ & _ & _ & _ & ->). reflexivity.
Qed.

Lemma lang_star_class (C : ascii -> bool) (t : string) :
  allChars C t = true -> lang (Star (Set_ C)) t.
Proof.
  induction t as [| c t IH]; simpl; intros H.
  - constructor.
  - apply andb_true_iff in H as [Hc Ht].
    apply (lang_star_cons (Set_ C) (String c "") t); auto.
    now constructor.
Qed.

(** A non-empty string over [[a-z0-9-~]] is an unscoped package name. *)
Lemma isValidPackageName_clean (t : string) :
  t <> "" -> allChars nameHead t = true -> isValidPackageName t = true.
Proof.
  intros Hne H. apply test_lang. unfold packageNamePattern.
  destruct t as [| c t]; [congruence |]. simpl in H.
  apply andb_true_iff in H as [Hc Ht].
  apply (lang_cat _ _ "" (String c t)).
  - apply lang_alt_r. constructor.
  - apply (lang_cat _ _ (String c "") t).
    + now constructor.
    + apply lang_star_class. apply (allChars_impl nameHead); auto.
      intros d Hd. now apply nameHead_char in Hd as (_ & _ & _ & -> & _).
Qed.

End PackageNameFacts.

(** C3, as the code has it: [isValidPackageName("my-app")] is true,
    [isValidPackageName("My App")] is false, and
    [toValidPackageName("My App!!")] is ["my-app-"]: the run ["!!"] of
    disallowed characters is replaced by one hyphen.  The steps of the
    transform (trim, lower case, white space to a hyphen, a leading dot or
    underscore stripped, runs of disallowed characters to a hyphen) show on
    ["  .Foo  Bar_baz "]. *)
Theorem C3_package_name_examples :
  isValidPackageName "my-app" = true /\
  isValidPackageName "My App" = false /\
  toValidPackageName "My App!!" = "my-app-" /\
  toValidPackageName "  .Foo  Bar_baz " = "foo-bar-baz".
Proof. repeat split; reflexivity. Qed.

(** C3 as stated fails: [toValidPackageName("My App!!")] is not
    ["my-app--"]. *)
Lemma C3_two_hyphens_refuted :
  toValidPackageName "My App!!" = "my-app-" /\
  toValidPackageName "My App!!" <> "my-app--".
Proof. split; [reflexivity | discriminate]. Qed.

(** C4, as the code has it: whenever [toValidPackageName(s)] is not the
    empty string, it satisfies [isValidPackageName]. *)
Theorem C4_normalised_name_is_valid (s : string) :
  toValidPackageName s <> "" ->
  isValidPackageName (toValidPackageName s) = true.
Proof.
  intros Hne. apply isValidPackageName_clean; auto.
  apply toValidPackageName_chars.
Qed.

Lemma C4_normalised_name_is_valid_witness :
  toValidPackageName "  .Foo  Bar_baz " = "foo-bar-baz" /\
  isValidPackageName (toValidPackageName "  .Foo  Bar_baz ") = true.
Proof.
  split; [reflexivity |].
  apply (C4_normalised_name_is_valid "  .Foo  Bar_baz "). discriminate.
Defined.

(** C4 as stated fails: the empty string, a blank string and a lone dot
    are normalised to the empty string, which is not a package name. *)
Lemma C4_empty_name_refuted :
  toValidPackageName "" = "" /\
  toValidPackageName " " = "" /\
  toValidPackageName "." = "" /\
  isValidPackageName (toValidPackageName "") = false.
Proof. repeat split; reflexivity. Qed.

(** C5: [toValidPackageName] is idempotent, for every string [s]
    [toValidPackageName(toValidPackageName(s)) = toValidPackageName(s)]. *)
Theorem C5_toValidPackageName_idempotent (s : string) :
  toValidPackageName (toValidPackageName s) = toValidPackageName s.
Proof. apply toValidPackageName_clean, toValidPackageName_chars. Qed.

(** ** The Composition Engine *)

Import Js Cli Composition.

Section CompositionFacts.

Lemma renderPlan_code (c : configuration) :
  List.filter (rendersUnder "code") (renderPlan c)
  = [Render ("code/" +:+ codeTemplate c)].
Proof.
  unfold renderPlan, codeTemplate, entryTemplate, when.
  destruct (truthy (needsJsx c)), (truthy (needsRouter c)),
    (truthy (needsPinia c)), (truthy (needsTests c)),
    (truthy (needsTypeScript c)), (truthy (needsEslint c)); reflexivity.
Qed.

Lemma renderPlan_entry (c : configuration) :
  List.filter (rendersUnder "entry") (renderPlan c)
  = [Render ("entry/" +:+ entryTemplate c)].
Proof.
  unfold renderPlan, codeTemplate, entryTemplate, when.
  destruct (truthy (needsJsx c)), (truthy (needsRouter c)),
    (truthy (needsPinia c)), (truthy (needsTests c)),
    (truthy (needsTypeScript c)), (truthy (needsEslint c)); reflexivity.
Qed.

End CompositionFacts.

(** C6: in every configuration exactly one step of the plan renders a code
    variant; its name is [typescript-] (iff TypeScript is set) followed by
    [router] if the router is set and by [default] otherwise; the names are
    the four of the table; with TypeScript and the router set the variant is
    [typescript-router]. *)
Theorem C6_code_variant (c : configuration) :
  List.filter (rendersUnder "code") (renderPlan c)
    = [Render ("code/" +:+ codeTemplate c)] /\
  codeTemplate c
    = match truthy (needsTypeScript c), truthy (needsRouter c) with
      | false, false => "default"
      | false, true => "router"
      | true, false => "typescript-default"
      | true, true => "typescript-router"
      end /\
  codeTemplate c ∈ ["default"; "router"; "typescript-default"; "typescript-router"] /\
  (forall jsx pinia tests eslint prettier : bool,
     List.map
       (fun f : bool * bool =>
          codeTemplate (withFlags (fst f) jsx (snd f) pinia tests eslint prettier))
       [(false, false); (false, true); (true, false); (true, true)]
     = ["default"; "router"; "typescript-default"; "typescript-router"]) /\
  (forall (name : string) (overwrite jsx pinia tests eslint prettier : value),
     codeTemplate
       (Configuration name overwrite jsx (VBool true) (VBool true) pinia tests
          eslint prettier)
     = "typescript-router").
Proof.
  split; [apply renderPlan_code |].
  split; [| split; [| split; reflexivity]]; unfold codeTemplate;
    destruct (truthy (needsTypeScript c)), (truthy (needsRouter c));
    try reflexivity; in_list.
Qed.

(** C7: in every configuration exactly one step of the plan renders an entry
    variant, chosen in this order of priority: state management and router,
    then state management, then router, then the default; with state
    management alone the entry variant is [pinia] and the code variant is
    [default]. *)
Theorem C7_entry_variant (c : configuration) :
  List.filter (rendersUnder "entry") (renderPlan c)
    = [Render ("entry/" +:+ entryTemplate c)] /\
  entryTemplate c
    = match truthy (needsPinia c), truthy (needsRouter c) with
      | true, true => "router-and-pinia"
      | true, false => "pinia"
      | false, true => "router"
      | false, false => "default"
      end /\
  (forall (name : string) (overwrite jsx tests eslint prettier : value),
     let c' := Configuration name overwrite jsx (VBool false) (VBool false)
                 (VBool true) tests eslint prettier in
     entryTemplate c' = "pinia" /\ codeTemplate c' = "default").
Proof.
  split; [apply renderPlan_entry |].
  split; [| intros; split; reflexivity].
  unfold entryTemplate.
  destruct (truthy (needsPinia c)), (truthy (needsRouter c)); reflexivity.
Qed.

(** ** The interactive questions *)

Import Fs Prompts Init.

Section PromptFacts.

Context {S : Type}.
Implicit Types (qs : list (question S)) (user : string -> response).

(** An interrupted session ends with what [onCancel] throws. *)
Lemma prompts_interrupted qs cancelled user s answers :
  interrupted (fst (prompts qs cancelled user s answers)) ->
  snd (prompts qs cancelled user s answers) = Throw cancelled.
Proof.
  revert s answers. induction qs as [| q qs IH]; intros s answers; simpl.
  - intros [n Hn]. inversion Hn.
  - destruct (type q s answers) as [[k |] | e |]; simpl.
    + destruct (user (name q)) as [v |] eqn:Hu; simpl; [| reflexivity].
      specialize (IH (onState q v s) (<[name q := v]> answers)).
      destruct (prompts qs cancelled user (onState q v s)
                  (<[name q := v]> answers)) as [t r]; simpl in *.
      intros [n Hn]. apply IH. exists n.
      apply elem_of_cons in Hn as [Hn | Hn]; [congruence | assumption].
    + apply IH.
    + intros [n Hn]. inversion Hn.
    + intros [n Hn]. inversion Hn.
Qed.

(** One question of the list. *)
Lemma prompts_cons (q : question S) qs cancelled user s answers :
  prompts (q :: qs) cancelled user s answers
  = match type q s answers with
    | Throw e => ([], Throw e)
    | OutOfFuel => ([], OutOfFuel)
    | Ret None => prompts qs cancelled user s answers
    | Ret (Some _) =>
        match user (name q) with
        | Abort => ([(name q, Abort)], Throw cancelled)
        | Submit v =>
            let '(t, r) :=
              prompts qs cancelled user (onState q v s)
                (<[name q := v]> answers) in
            ((name q, Submit v) :: t, r)
        end
    end.
Proof. reflexivity. Qed.

(** The transcript records the user's responses, to questions of the list. *)
Lemma prompts_transcript qs cancelled user s answers n r :
  (n, r) ∈ fst (prompts qs cancelled user s answers) ->
  r = user n /\ n ∈ List.map name qs.
Proof.
  revert s answers. induction qs as [| q qs IH]; intros s answers; simpl.
  - intros Hn. inversion Hn.
  - destruct (type q s answers) as [[k |] | e |]; simpl.
    + destruct (user (name q)) as [v |] eqn:Hu; simpl.
      * specialize (IH (onState q v s) (<[name q := v]> answers)).
        destruct (prompts qs cancelled user (onState q v s)
                    (<[name q := v]> answers)) as [t r']; simpl in *.
        intros Hn. apply elem_of_cons in Hn as [Hn | Hn].
        -- injection Hn as -> ->. split; [congruence | left].
        -- destruct (IH Hn). split; [assumption | now right].
      * intros Hn. apply elem_of_cons in Hn as [Hn | Hn]; [| inversion Hn].
        injection Hn as -> ->. split; [congruence | left].
    + intros Hn. destruct (IH _ _ Hn). split; [assumption | now right].
    + intros Hn. inversion Hn.
    + intros Hn. inversion Hn.
Qed.

(** A user who interrupts at a prompt ends the session, [onCancel] throws:
    at the prompt [n], or at one before it, when [n] is a prompt that is
    shown once the prompts before it are closed with a value. *)
Lemma prompts_abort qs cancelled user user' s answers n r :
  answering user user' ->
  (n, r) ∈ fst (prompts qs cancelled user' s answers) ->
  user n = Abort ->
  snd (prompts qs cancelled user s answers) = Throw cancelled.
Proof.
  intros Ha. revert s answers.
  induction qs as [| q qs IH]; intros s answers Hin Hn.
  - cbn in Hin. inversion Hin.
  - rewrite prompts_cons in Hin. rewrite prompts_cons.
    destruct (type q s answers) as [[k |] | e |].
    + destruct (Ha (name q)) as [_ Hsame].
      destruct (user (name q)) as [v |] eqn:Hu; [| reflexivity].
      rewrite Hsame in Hin by discriminate.
      specialize (IH (onState q v s) (<[name q := v]> answers)).
      destruct (prompts qs cancelled user' (onState q v s)
                  (<[name q := v]> answers)) as [t' r'].
      destruct (prompts qs cancelled user (onState q v s)
                  (<[name q := v]> answers)) as [t0 r0].
      cbn [fst snd] in *.
      apply elem_of_cons in Hin as [Hin | Hin].
      * injection Hin as -> ->. congruence.
      * exact (IH Hin Hn).
    + exact (IH s answers Hin Hn).
    + cbn in Hin. inversion Hin.
    + cbn in Hin. inversion Hin.
Qed.

End PromptFacts.

Section InitFacts.

Variable banner : string.
Variable red : string -> string.

(** A declined overwrite is turned into the cancellation by the question
    [overwriteChecker]. *)
Lemma questions_declined (a : argv) (cwd : path) (st : fs)
    (user : string -> response) :
  let run := prompts (questions red a cwd st) (operationCancelled red) user
               (match positional a with w :: _ => VString w | [] => VUndefined end) ∅ in
  declined "shouldOverwrite" (fst run) ->
  snd run = Throw (operationCancelled red).
Proof.
  intros run Hd. subst run.
  pose proof (prompts_transcript _ _ _ _ _ _ _ Hd) as [Hu _].
  revert Hd. unfold questions.
  set (targetDir0 := match positional a with w :: _ => VString w | [] => VUndefined end).
  set (rest := Question "packageName" _ _ _ :: _).
  assert (Hrest : forall s ans,
             ~ declined "shouldOverwrite"
                 (fst (prompts rest (operationCancelled red) user s ans))).
  { intros s ans H. apply prompts_transcript in H as [_ H].
    subst rest. simpl in H.
    repeat (apply elem_of_cons in H as [H | H]; [discriminate H |]).
    inversion H. }
  clearbody rest.
  assert (Hskip : forall s ans,
             ans !! "shouldOverwrite" = None ->
             declined "shouldOverwrite"
               (fst (prompts (Question "overwriteChecker"
                        (fun _ values =>
                           if decide (default VUndefined (values !! "shouldOverwrite")
                                      = VBool false)
                           then Throw (operationCancelled red) else Ret None)
                        (fun _ s => s) (fun _ => true) :: rest)
                      (operationCancelled red) user s ans)) -> False).
  { intros s ans Hans. cbn [prompts type name onState]. rewrite Hans.
    cbn [default]. destruct (decide (VUndefined = VBool false)); [discriminate |].
    apply Hrest. }
  assert (Hq2 : forall s ans,
             ans !! "shouldOverwrite" = None ->
             let run := prompts (Question "shouldOverwrite"
                          (fun targetDir _ =>
                             safe <- canSafelyOverwriteValue cwd st targetDir ;;
                             Ret (if truthy (or_ (VBool safe) (get a "force"))
                                  then None else Some Confirm))
                          (fun _ s => s) (fun _ => true)
                        :: Question "overwriteChecker"
                          (fun _ values =>
                             if decide (default VUndefined (values !! "shouldOverwrite")
                                        = VBool false)
                             then Throw (operationCancelled red) else Ret None)
                          (fun _ s => s) (fun _ => true) :: rest)
                        (operationCancelled red) user s ans in
             declined "shouldOverwrite" (fst run) ->
             snd run = Throw (operationCancelled red)).
  { intros s ans Hans.
    cbn [prompts type name onState].
    destruct (canSafelyOverwriteValue cwd st s) as [safe | e |];
      cbn [bind fst snd];
      [| intros H; inversion H | intros H; inversion H].
    destruct (truthy (or_ (VBool safe) (get a "force"))).
    - intros H. exfalso. exact (Hskip s ans Hans H).
    - rewrite <- Hu. cbn [prompts type name onState].
      rewrite lookup_insert_eq. cbn [default].
      destruct (decide (VBool false = VBool false)); [| congruence].
      reflexivity. }
  rewrite prompts_cons. cbn [type name onState].
  destruct (truthy targetDir0).
  - apply Hq2. apply lookup_empty.
  - destruct (user "projectName") as [v |].
    + specialize (Hq2 (or_ (VString (trim (toString v)))
                          (VString (defaultProjectName targetDir0)))
                      (<["projectName" := v]> ∅)).
      cbv zeta in Hq2.
      match type of Hq2 with
      | _ -> declined _ (fst ?r) -> _ => destruct r as [t r'] eqn:E
      end.
      cbn [fst snd] in *. intros H. apply Hq2.
      * now rewrite lookup_insert_ne, lookup_empty.
      * apply elem_of_cons in H as [H | H]; [discriminate H | assumption].
    + intros H. apply elem_of_cons in H as [H | H]; [discriminate H |].
      inversion H.
Qed.


(** A thrown error ends [resolveInput] in the handler of lines 202-205. *)
Lemma resolveInput_thrown (a : argv) (cwd : path) (st : fs)
    (user : string -> response) (e : error) :
  snd (prompts (questions red a cwd st) (operationCancelled red) user
         (match positional a with w :: _ => VString w | [] => VUndefined end) ∅)
    = Throw e ->
  snd (fst (resolveInput banner red a cwd st user))
    = [Log (String "010" banner +:+ String "010" ""); Log (message e)] /\
  snd (resolveInput banner red a cwd st user) = Exit 1 /\
  fst (fst (resolveInput banner red a cwd st user))
    = fst (prompts (questions red a cwd st) (operationCancelled red) user
             (match positional a with w :: _ => VString w | [] => VUndefined end) ∅).
Proof.
  unfold resolveInput.
  destruct (prompts _ _ _ _ _) as [t r]. simpl. intros ->. auto.
Qed.

Lemma resolveInput_transcript (a : argv) (cwd : path) (st : fs)
    (user : string -> response) :
  fst (fst (resolveInput banner red a cwd st user))
    = fst (prompts (questions red a cwd st) (operationCancelled red) user
             (match positional a with w :: _ => VString w | [] => VUndefined end) ∅).
Proof.
  unfold resolveInput.
  destruct (prompts _ _ _ _ _) as [t [[d r] | e |]]; reflexivity.
Qed.

Lemma resolveInput_cancelled (a : argv) (cwd : path) (st : fs)
    (user : string -> response) :
  let t := fst (fst (resolveInput banner red a cwd st user)) in
  declined "shouldOverwrite" t \/ interrupted t ->
  resolveInput banner red a cwd st user
    = (t, [Log (String "010" banner +:+ String "010" "");
           Log (red "✖" +:+ " Operation cancelled")], Exit 1).
Proof.
  intros t H. subst t. rewrite resolveInput_transcript in H.
  assert (Hthrow : snd (prompts (questions red a cwd st) (operationCancelled red)
                          user
                          (match positional a with
                           | w :: _ => VString w | [] => VUndefined end) ∅)
                   = Throw (operationCancelled red)).
  { destruct H as [H | H].
    - now apply questions_declined.
    - now apply prompts_interrupted. }
  destruct (resolveInput_thrown a cwd st user _ Hthrow) as (Ho & Hs & Ht).
  destruct (resolveInput banner red a cwd st user) as [[t' o'] s'].
  simpl in *. subst. reflexivity.
Qed.

End InitFacts.

(** The transcript of [init] is the one of its questions. *)
Lemma initUntilRender_transcript (banner : string) (red : string -> string)
    (fuel : nat) (a : argv) (cwd : path) (st : fs) (user : string -> response) :
  fst (fst (initUntilRender banner red fuel a cwd st user))
  = fst (prompts (questions red a cwd st) (operationCancelled red) user
           (match positional a with w :: _ => VString w | [] => VUndefined end) ∅).
Proof.
  rewrite <- (resolveInput_transcript banner). unfold initUntilRender.
  destruct (resolveInput banner red a cwd st user) as [[t o] [| | | r]];
    try reflexivity.
  destruct (prepareRoot fuel cwd r st) as [[root st'] | |]; try reflexivity.
  destruct (writeFileSync _ _ st'); reflexivity.
Qed.

(** C10: whenever the overwrite confirmation is declined or the session is
    interrupted at a prompt, the program logs the banner and the one-line
    notice [✖ Operation cancelled], logs no error with its stack, and exits
    with status 1.  The session is interrupted when the transcript records
    it, and also, said from the side of the user, when the user interrupts
    at a prompt [q] that is shown once the prompts before it are closed
    with a value: shown, that is, to the user [user'] who answers as [user]
    does and answers too where [user] interrupts. *)
Theorem C10_cancellation_exits_1 (banner : string) (red : string -> string)
    (fuel : nat) (a : argv) (cwd : path) (st : fs) (user : string -> response)
    (t : transcript) (out : list output) (s : stage scaffold) :
  initUntilRender banner red fuel a cwd st user = (t, out, s) ->
  declined "shouldOverwrite" t \/ interrupted t \/
  (exists (user' : string -> response) (q : string) (r : response),
      answering user user' /\
      (q, r) ∈ fst (fst (initUntilRender banner red fuel a cwd st user')) /\
      user q = Abort) ->
  out = [Log (String "010" banner +:+ String "010" "");
         Log (red "✖" +:+ " Operation cancelled")] /\
  s = Exit 1.
Proof.
  intros E H.
  pose proof (initUntilRender_transcript banner red fuel a cwd st user) as Ht.
  rewrite E in Ht. cbn [fst] in Ht.
  assert (Hthrow : snd (prompts (questions red a cwd st) (operationCancelled red)
                          user
                          (match positional a with
                           | w :: _ => VString w | [] => VUndefined end) ∅)
                   = Throw (operationCancelled red)).
  { destruct H as [H | [H | (user' & q & r & Ha & Hin & Hq)]].
    - rewrite Ht in H. now apply questions_declined.
    - rewrite Ht in H. now apply prompts_interrupted.
    - rewrite initUntilRender_transcript in Hin.
      exact (prompts_abort _ _ _ _ _ _ _ _ Ha Hin Hq). }
  destruct (resolveInput_thrown banner red a cwd st user _ Hthrow)
    as (Ho & Hs & _).
  unfold initUntilRender in E.
  destruct (resolveInput banner red a cwd st user) as [[t' o'] s'].
  cbn [fst snd] in Ho, Hs. subst o' s'. injection E as _ <- <-. auto.
Qed.

(** Two sessions.  In the non-empty directory [demo] the user declines the
    confirmation.  For the new directory [fresh] the user answers the
    questions about TypeScript and JSX and interrupts at the question
    about the router. *)
Lemma C10_cancellation_exits_1_witness :
  let st : fs :=
    list_to_map [([], Dir); (["work"], Dir); (["demo"; "work"], Dir);
                 (["old.txt"; "demo"; "work"], File "x")] in
  let notice :=
    [Log (String "010" "create-vue" +:+ String "010" "");
     Log ("✖" +:+ " Operation cancelled")] in
  let declines := fun _ : string => Submit (VBool false) in
  let interrupts :=
    fun q : string =>
      if String.eqb q "needsRouter" then Abort else Submit (VBool false) in
  let declinedRun :=
    initUntilRender "create-vue" (fun s => s) 4 (Argv ["demo"] ∅) ["work"] st
      declines in
  let interruptedRun :=
    initUntilRender "create-vue" (fun s => s) 4 (Argv ["fresh"] ∅) ["work"] st
      interrupts in
  (declined "shouldOverwrite" (fst (fst declinedRun)) /\
   snd (fst declinedRun) = notice /\ snd declinedRun = Exit 1) /\
  (interrupts "needsRouter" = Abort /\
   ("needsRouter", Submit (VBool false))
     ∈ fst (fst (initUntilRender "create-vue" (fun s => s) 4
                   (Argv ["fresh"] ∅) ["work"] st declines)) /\
   snd (fst interruptedRun) = notice /\ snd interruptedRun = Exit 1).
Proof.
  intros st notice declines interrupts declinedRun interruptedRun. split.
  - assert (D : declined "shouldOverwrite" (fst (fst declinedRun))).
    { vm_compute. left. }
    split; [exact D |].
    apply (C10_cancellation_exits_1 "create-vue" (fun s => s) 4
             (Argv ["demo"] ∅) ["work"] st declines
             (fst (fst declinedRun)) (snd (fst declinedRun)) (snd declinedRun)).
    + vm_compute. reflexivity.
    + left. exact D.
  - split; [reflexivity |].
    assert (Hshown :
              ("needsRouter", Submit (VBool false))
                ∈ fst (fst (initUntilRender "create-vue" (fun s => s) 4
                              (Argv ["fresh"] ∅) ["work"] st declines)))
      by in_list.
    split; [exact Hshown |].
    apply (C10_cancellation_exits_1 "create-vue" (fun s => s) 4
             (Argv ["fresh"] ∅) ["work"] st interrupts
             (fst (fst interruptedRun)) (snd (fst interruptedRun))
             (snd interruptedRun)).
    + vm_compute. reflexivity.
    + right. right.
      exists declines, "needsRouter", (Submit (VBool false)).
      split; [| split; [exact Hshown | reflexivity]].
      intros q. unfold interrupts, declines.
      destruct (String.eqb q "needsRouter");
        (split; [discriminate | intros H; first [reflexivity | congruence]]).
Defined.

(** C2 at the command line [--eslint-with-prettier]: the flag is a feature
    flag of the usage comment, yet [isFeatureFlagsUsed] is false and the
    feature questions are asked; a user who answers No to each of them gets
    a project without ESLint. *)
Theorem C2_eslint_with_prettier_alone_is_prompted (banner : string)
    (red : string -> string) :
  let a := Argv [] {[ "eslint-with-prettier" := VBool true ]} in
  let user := fun q : string =>
                if String.eqb q "projectName" then Submit (VString "demo")
                else Submit (VBool false) in
  let run := resolveInput banner red a ["work"]
               (list_to_map [([], Dir); (["work"], Dir)]) user in
  "eslint-with-prettier" ∈ featureFlags /\
  minimist ["--eslint-with-prettier"] = Some a /\
  isFeatureFlagsUsed a = false /\
  List.map fst (fst (fst run))
    = ["projectName"; "needsTypeScript"; "needsJsx"; "needsRouter";
       "needsPinia"; "needsTests"; "needsEslint"] /\
  (exists r : resolved,
      snd run = Continue r /\ needsEslint (config r) = VBool false).
Proof.
  intros a user run.
  split; [in_list |].
  split; [vm_compute; reflexivity |].
  split; [vm_compute; reflexivity |].
  split; [vm_compute; reflexivity |].
  eexists. split; vm_compute; reflexivity.
Qed.

(** C1 at the command line [demo --force --default], with a file in the
    directory [demo]: no confirmation is asked, [shouldOverwrite] stays
    undefined, the directory is not emptied, and the file is still there
    when the first template is about to be rendered.  Without [--force] and
    with the confirmation given, the file is removed. *)
Theorem C1_force_leaves_entries (banner : string) (red : string -> string) :
  let st : fs :=
    list_to_map [([], Dir); (["work"], Dir); (["demo"; "work"], Dir);
                 (["old.txt"; "demo"; "work"], File "x")] in
  let user := fun _ : string => Submit (VBool true) in
  let forced :=
    initUntilRender banner red 4
      (Argv ["demo"] {[ "force" := VBool true; "default" := VBool true ]})
      ["work"] st user in
  let confirmed :=
    initUntilRender banner red 4
      (Argv ["demo"] {[ "default" := VBool true ]}) ["work"] st user in
  minimist ["demo"; "--force"; "--default"]
    = Some (Argv ["demo"] {[ "force" := VBool true; "default" := VBool true ]}) /\
  fst (fst forced) = [] /\
  (exists sc : scaffold,
      snd forced = Continue sc /\
      shouldOverwrite (config (answers sc)) = VUndefined /\
      root sc = ["demo"; "work"] /\
      files sc !! ["old.txt"; "demo"; "work"] = Some (File "x")) /\
  fst (fst confirmed) = [("shouldOverwrite", Submit (VBool true))] /\
  (exists sc : scaffold,
      snd confirmed = Continue sc /\
      files sc !! ["old.txt"; "demo"; "work"] = None).
Proof.
  intros st user forced confirmed.
  split; [vm_compute; reflexivity |].
  split; [vm_compute; reflexivity |].
  split; [eexists; repeat split; vm_compute; reflexivity |].
  split; [vm_compute; reflexivity |].
  eexists; repeat split; vm_compute; reflexivity.
Qed.

(** ** Paths and directories *)

Import Cleanup.

Section PathFacts.

Implicit Types (dir q r : path) (st : fs).

Lemma relTo_self dir : relTo dir dir = Some [].
Proof. destruct dir; cbn [relTo]; case_decide; congruence. Qed.

Lemma app_ne_self {A : Type} (r l : list A) : r <> [] -> r ++ l <> l.
Proof.
  intros Hr E. apply (f_equal length) in E. rewrite length_app in E.
  destruct r; [congruence | simpl in E; lia].
Qed.

Lemma relTo_app dir r : relTo dir (r ++ dir) = Some r.
Proof.
  induction r as [| n r IH]; [apply relTo_self |].
  change ((n :: r) ++ dir) with (n :: (r ++ dir)). cbn [relTo].
  case_decide as E.
  - exfalso. revert E. apply (app_ne_self (n :: r) dir). discriminate.
  - rewrite IH. reflexivity.
Qed.

Lemma relTo_spec dir q r : relTo dir q = Some r <-> q = r ++ dir.
Proof.
  split; [| intros ->; apply relTo_app].
  revert r. induction q as [| n q IH]; intros r; cbn [relTo].
  - case_decide as E; [| discriminate].
    intros [= <-]. now rewrite <- E.
  - case_decide as E.
    + intros [= <-]. now rewrite <- E.
    + destruct (relTo dir q) as [r' |] eqn:E'; cbn; [| discriminate].
      intros [= <-]. cbn. f_equal. now apply IH.
Qed.

Lemma relTo_child dir n : relTo dir (n :: dir) = Some [n].
Proof. apply relTo_spec. reflexivity. Qed.

Lemma relTo_cons dir n q r :
  relTo (n :: dir) q = Some r <-> relTo dir q = Some (r ++ [n]).
Proof.
  rewrite !relTo_spec. rewrite <- app_assoc. reflexivity.
Qed.

(** Below [n :: dir] is where the relative path from [dir] ends with [n]
    and goes on. *)
Lemma relTo_cons_case dir n q :
  relTo (n :: dir) q
  = match relTo dir q with
    | Some r =>
        match reverse r with
        | m :: r' => if decide (m = n) then Some (reverse r') else None
        | [] => None
        end
    | None => None
    end.
Proof.
  destruct (relTo (n :: dir) q) as [r |] eqn:E.
  - apply relTo_cons in E. rewrite E. rewrite reverse_app. simpl.
    rewrite decide_True by reflexivity. now rewrite reverse_involutive.
  - destruct (relTo dir q) as [r |] eqn:E'; [| reflexivity].
    destruct (reverse r) as [| m r'] eqn:R; [reflexivity |].
    destruct (decide (m = n)) as [-> |]; [| reflexivity].
    assert (r = reverse r' ++ [n]) as ->.
    { rewrite <- (reverse_involutive r), R. now rewrite reverse_cons. }
    apply relTo_cons in E'. congruence.
Qed.

Lemma within_relTo dir q : within dir q <-> is_Some (relTo dir q).
Proof.
  split.
  - intros [r ->]. rewrite relTo_app. eauto.
  - intros [r Hr]. exists r. now apply relTo_spec.
Qed.

Lemma below_relTo dir q :
  below dir q <-> exists n r, relTo dir q = Some (r ++ [n]).
Proof.
  split; intros (n & r & H); exists n, r.
  - apply relTo_spec. rewrite <- app_assoc. exact H.
  - apply relTo_spec in H. rewrite <- app_assoc in H. exact H.
Qed.

Lemma within_refl dir : within dir dir.
Proof. now exists []. Qed.

Lemma within_cons dir n q : within dir q -> within dir (n :: q).
Proof. intros [r ->]. now exists (n :: r). Qed.

Lemma within_trans dir d q : within dir d -> within d q -> within dir q.
Proof. intros [r ->] [r' ->]. exists (r' ++ r). now rewrite app_assoc. Qed.

Lemma last_snoc {A : Type} (l : list A) (x : A) : last (l ++ [x]) = Some x.
Proof. induction l as [| y [| z l] IH]; auto. Qed.

(** *** The entries of a directory *)

Lemma elem_of_entries st dir n :
  n ∈ entries st dir <-> is_Some (st !! (n :: dir)).
Proof.
  unfold entries. rewrite list_elem_of_omap. split.
  - intros ([k e] & Hin & Hf). apply elem_of_map_to_list in Hin.
    simpl in Hf. destruct k as [| m d]; [discriminate |].
    destruct (decide (d = dir)) as [-> |]; [| discriminate].
    injection Hf as ->. eauto.
  - intros [e He]. exists (n :: dir, e). split.
    + now apply elem_of_map_to_list.
    + simpl. now rewrite decide_True.
Qed.

Lemma NoDup_omap_keys {A B C : Type} (f : A -> option B) (g : A -> C)
    (l : list A) :
  (forall x y b, f x = Some b -> f y = Some b -> g x = g y) ->
  NoDup (g <$> l) -> NoDup (omap f l).
Proof.
  intros Hfg. induction l as [| x l IH]; simpl; intros Hnd.
  - constructor.
  - apply NoDup_cons in Hnd as [Hx Hl].
    destruct (f x) as [b |] eqn:E; [| auto].
    apply NoDup_cons. split; [| auto].
    intros Hb. apply list_elem_of_omap in Hb as (y & Hy & Hfy).
    apply Hx. rewrite (Hfg x y b E Hfy). now apply list_elem_of_fmap_2.
Qed.

Lemma NoDup_entries st dir : NoDup (entries st dir).
Proof.
  unfold entries. apply (NoDup_omap_keys _ fst).
  - intros [k e] [k' e'] n. simpl.
    destruct k as [| m d]; [discriminate |].
    destruct k' as [| m' d']; [discriminate |].
    destruct (decide (d = dir)); [| discriminate].
    destruct (decide (d' = dir)); [| discriminate].
    congruence.
  - apply NoDup_fst_map_to_list.
Qed.

Lemma entries_nil st dir :
  (forall n, st !! (n :: dir) = None) -> entries st dir = [].
Proof.
  intros H. destruct (entries st dir) as [| n l] eqn:E; [reflexivity |].
  assert (Hn : n ∈ entries st dir) by (rewrite E; left).
  apply elem_of_entries in Hn as [e He]. rewrite H in He. discriminate.
Qed.

Lemma existsSync_true st q : existsSync st q = true <-> is_Some (st !! q).
Proof. unfold existsSync. apply bool_decide_eq_true. Qed.

Lemma existsSync_false st q : existsSync st q = false <-> st !! q = None.
Proof.
  unfold existsSync. rewrite bool_decide_eq_false.
  rewrite <- eq_None_not_Some. reflexivity.
Qed.

(** *** Well-formed trees *)

(** In a well-formed tree nothing lies below what does not exist or is a
    file. *)
Lemma wellFormed_below st dir q :
  wellFormed st -> below dir q -> is_Some (st !! q) -> st !! dir = Some Dir.
Proof.
  intros Hwf (n & r & ->). induction r as [| m r IH]; simpl; intros Hq.
  - now apply (Hwf n).
  - apply IH. rewrite (Hwf m (r ++ n :: dir) Hq). eauto.
Qed.

Lemma wellFormed_delete_file st q c :
  wellFormed st -> st !! q = Some (File c) -> wellFormed (delete q st).
Proof.
  intros Hwf Hq n d [e He].
  apply lookup_delete_Some in He as [Hne He].
  rewrite lookup_delete_ne.
  - apply (Hwf n). eauto.
  - intros <-. rewrite (Hwf n q) in Hq; [discriminate | eauto].
Qed.

Lemma wellFormed_delete_empty st q :
  wellFormed st -> (forall n, st !! (n :: q) = None) ->
  wellFormed (delete q st).
Proof.
  intros Hwf Hq n d [e He].
  apply lookup_delete_Some in He as [Hne He].
  rewrite lookup_delete_ne.
  - apply (Hwf n). eauto.
  - intros <-. rewrite Hq in He. discriminate.
Qed.

Lemma wellFormed_insert_file st n d c :
  wellFormed st -> st !! d = Some Dir -> st !! (n :: d) <> Some Dir ->
  wellFormed (<[n :: d := File c]> st).
Proof.
  intros Hwf Hd Hnd m p [e He].
  assert (Hp : p <> n :: d).
  { intros ->. apply lookup_insert_Some in He as [[He _] | [_ He]].
    - apply (f_equal length) in He. simpl in He. lia.
    - apply Hnd. apply (Hwf m). eauto. }
  rewrite lookup_insert_ne by congruence.
  apply lookup_insert_Some in He as [[He _] | [_ He]].
  - injection He as _ ->. exact Hd.
  - apply (Hwf m). eauto.
Qed.

Lemma wellFormedb_sound st : wellFormedb st = true -> wellFormed st.
Proof.
  unfold wellFormedb. rewrite forallb_forall. intros H n d [e He].
  specialize (H (n :: d, e)). simpl in H.
  apply bool_decide_eq_true in H; [exact H |].
  apply list_elem_of_In. now apply elem_of_map_to_list.
Qed.

Lemma fitsDepthb_sound dir fuel st :
  fitsDepthb dir fuel st = true -> fitsDepth dir fuel st.
Proof.
  unfold fitsDepthb. rewrite forallb_forall. intros H q _ [e He].
  specialize (H (q, e)). simpl in H.
  apply Nat.ltb_lt. apply H.
  apply list_elem_of_In. now apply elem_of_map_to_list.
Qed.

End PathFacts.

(** ** Visiting the entries of a directory one after the other

    The entries of a directory fall into groups of paths, one group for each
    name [n] that is visited; visiting [n] rewrites the paths of its group by
    a rule that reads that group only, and leaves the others alone.  Then the
    loop over the names rewrites the groups of all of them by that rule. *)

Section Groups.

Variable dir : path.
Variable grp : path -> option string.
Variable rule : fs -> path -> option entry.
Variable step : string -> fs -> completion fs.
Variable Inv : fs -> Prop.

Hypothesis rule_local :
  forall (g : string) (cur cur' : fs),
    (forall q, grp q = Some g -> cur !! q = cur' !! q) ->
    forall q, grp q = Some g -> rule cur q = rule cur' q.

Hypothesis rule_keeps :
  forall (cur : fs) (n n' : string),
    n <> n' -> grp (n' :: dir) = Some n ->
    is_Some (cur !! (n' :: dir)) -> is_Some (rule cur (n' :: dir)).

Hypothesis step_ok :
  forall (n : string) (cur : fs),
    Inv cur -> is_Some (cur !! (n :: dir)) ->
    exists cur1 : fs,
      step n cur = Ret cur1 /\ Inv cur1 /\
      forall q, cur1 !! q
                = if decide (grp q = Some n) then rule cur q else cur !! q.

Lemma forEach_groups (ns : list string) :
  forall cur : fs,
    NoDup ns -> Inv cur ->
    (forall n, n ∈ ns -> is_Some (cur !! (n :: dir))) ->
    exists st' : fs,
      forEach ns step cur = Ret st' /\ Inv st' /\
      forall q, st' !! q
                = match grp q with
                  | Some g => if decide (g ∈ ns) then rule cur q else cur !! q
                  | None => cur !! q
                  end.
Proof.
  induction ns as [| n ns IH]; intros cur Hnd HI Hin; cbn [forEach].
  - exists cur. repeat split; auto.
    intros q. destruct (grp q) as [g |]; [| reflexivity].
    rewrite decide_False; [reflexivity | apply not_elem_of_nil].
  - apply NoDup_cons in Hnd as [Hn Hnd].
    destruct (step_ok n cur HI) as (cur1 & Hstep & HI1 & Hcur1).
    { apply Hin. left. }
    rewrite Hstep. cbn [bind].
    destruct (IH cur1 Hnd HI1) as (st' & Hrun & HI' & Hst').
    { intros n' Hn'. rewrite Hcur1.
      destruct (decide (grp (n' :: dir) = Some n)) as [E |].
      - apply (rule_keeps cur n n'); auto.
        + intros ->. contradiction.
        + apply Hin. now right.
      - apply Hin. now right. }
    exists st'. repeat split; auto.
    intros q. rewrite Hst'.
    destruct (grp q) as [g |] eqn:G.
    + destruct (decide (g = n)) as [-> | Hgn].
      * rewrite (decide_False (P := n ∈ ns)) by assumption.
        rewrite (decide_True (P := n ∈ n :: ns)) by left.
        rewrite Hcur1, G. now rewrite decide_True.
      * assert (Hagree : forall q', grp q' = Some g -> cur1 !! q' = cur !! q').
        { intros q' G'. rewrite Hcur1, G'.
          rewrite decide_False; [reflexivity | congruence]. }
        destruct (decide (g ∈ ns)) as [Hg | Hg].
        -- rewrite (decide_True (P := g ∈ n :: ns)) by now right.
           now apply (rule_local g).
        -- rewrite (decide_False (P := g ∈ n :: ns)).
           ++ now apply Hagree.
           ++ intros H. apply elem_of_cons in H as [H | H]; contradiction.
    + rewrite Hcur1, G. rewrite decide_False; [reflexivity | discriminate].
Qed.

End Groups.

(** ** Where a path lies, seen from a directory and one of its entries *)

Section PathCases.

Implicit Types (dir q r : path) (n m x : string).

Lemma path_cases dir q :
  relTo dir q = None \/ q = dir \/ (exists m, q = m :: dir) \/
  (exists x r m, q = x :: r ++ m :: dir).
Proof.
  destruct (relTo dir q) as [r |] eqn:E; [right | now left].
  apply relTo_spec in E. subst q.
  destruct r as [| x r] using rev_ind; [now left | right].
  destruct r as [| y r]; [left; now exists x |].
  right. exists y, r, x. now rewrite <- app_assoc.
Qed.

Lemma relTo_deep dir x r m :
  relTo dir (x :: r ++ m :: dir) = Some (x :: r ++ [m]).
Proof. apply relTo_spec. simpl. now rewrite <- app_assoc. Qed.

Lemma relTo_none_cons dir n q : relTo dir q = None -> relTo (n :: dir) q = None.
Proof.
  intros H. destruct (relTo (n :: dir) q) as [r |] eqn:E; [| reflexivity].
  apply relTo_cons in E. congruence.
Qed.

Lemma relTo_cons_dir dir n : relTo (n :: dir) dir = None.
Proof.
  destruct (relTo (n :: dir) dir) as [r |] eqn:E; [| reflexivity].
  apply relTo_spec in E. apply (f_equal length) in E.
  rewrite length_app in E. simpl in E. lia.
Qed.

Lemma relTo_cons_child dir n m :
  relTo (n :: dir) (m :: dir) = if decide (m = n) then Some [] else None.
Proof.
  case_decide as E; [subst; apply relTo_self |].
  destruct (relTo (n :: dir) (m :: dir)) as [r |] eqn:R; [| reflexivity].
  apply relTo_spec in R. destruct r as [| y r].
  - simpl in R. congruence.
  - apply (f_equal length) in R. simpl in R. rewrite length_app in R.
    simpl in R. lia.
Qed.

Lemma relTo_cons_deep dir n x r m :
  relTo (n :: dir) (x :: r ++ m :: dir)
  = if decide (m = n) then Some (x :: r) else None.
Proof.
  case_decide as E; [subst; now apply relTo_spec |].
  destruct (relTo (n :: dir) (x :: r ++ m :: dir)) as [r' |] eqn:R;
    [| reflexivity].
  apply relTo_spec in R.
  change (x :: r ++ m :: dir) with ((x :: r) ++ m :: dir) in R.
  apply app_inj_2 in R as [_ R]; [congruence | reflexivity].
Qed.

Lemma topName_dir dir : topName dir dir = None.
Proof. unfold topName. now rewrite relTo_self. Qed.

Lemma topName_child dir m : topName dir (m :: dir) = Some m.
Proof. unfold topName. now rewrite relTo_child. Qed.

Lemma topName_deep dir x r m : topName dir (x :: r ++ m :: dir) = Some m.
Proof.
  unfold topName. rewrite relTo_deep. simpl.
  change (x :: r ++ [m]) with ((x :: r) ++ [m]). apply last_snoc.
Qed.

Lemma topName_none dir q : relTo dir q = None -> topName dir q = None.
Proof. unfold topName. now intros ->. Qed.

Lemma below_deep dir x r m : below (m :: dir) (x :: r ++ m :: dir).
Proof.
  destruct r as [| y r] using rev_ind.
  - now exists x, [].
  - exists y, (x :: r). simpl. now rewrite <- app_assoc.
Qed.

End PathCases.

(** ** Emptying a directory *)

Section EmptyDir.

(** In a well-formed tree an entry of [dir] that does not exist has nothing
    below it. *)
Lemma absent_top (st : fs) (dir q : path) (g : string) :
  wellFormed st -> topName dir q = Some g -> st !! (g :: dir) = None ->
  st !! q = None.
Proof.
  intros Hwf Hg Habs.
  destruct (path_cases dir q) as [E | [-> | [[m ->] | (x & r & m & ->)]]].
  - rewrite topName_none in Hg by assumption. discriminate.
  - rewrite topName_dir in Hg. discriminate.
  - rewrite topName_child in Hg. congruence.
  - rewrite topName_deep in Hg. injection Hg as ->.
    destruct (st !! (x :: r ++ g :: dir)) as [e |] eqn:E; [| reflexivity].
    rewrite (wellFormed_below st (g :: dir) (x :: r ++ g :: dir)) in Habs;
      [discriminate | assumption | apply below_deep | eauto].
Qed.

(** [emptyDir] removes what lies below the directory, and nothing else. *)
Lemma emptyDir_spec (fuel : nat) :
  forall (dir : path) (st : fs),
    wellFormed st -> st !! dir = Some Dir -> fitsDepth dir fuel st ->
    exists st' : fs,
      emptyDir fuel dir st = Ret st' /\ wellFormed st' /\
      forall q, st' !! q
                = match relTo dir q with
                  | Some (_ :: _) => None
                  | _ => st !! q
                  end.
Proof.
  induction fuel as [| k IH]; intros dir st Hwf Hdir Hfit.
  - exfalso. specialize (Hfit dir (within_refl dir)).
    rewrite Hdir in Hfit. specialize (Hfit (mk_is_Some _ _ eq_refl)). lia.
  - unfold emptyDir. cbn [postOrderDirectoryTraverse].
    unfold readdirSync. rewrite Hdir. cbn [bind].
    match goal with |- context [forEach _ ?f _] => set (step := f) end.
    set (Inv := fun cur : fs =>
                  wellFormed cur /\ cur !! dir = Some Dir /\
                  forall q, is_Some (cur !! q) -> is_Some (st !! q)).
    destruct (forEach_groups dir (topName dir) (fun _ _ => None) step Inv)
      with (ns := entries st dir) (cur := st)
      as (st' & Hrun & (Hwf' & _) & Hpt).
    + reflexivity.
    + intros cur n n' Hne Htop. rewrite topName_child in Htop. congruence.
    + (* one entry *)
      intros n cur (Hwfc & Hdirc & Hsub) [e He]. subst step. cbn beta.
      unfold isDirectory. rewrite He. destruct e as [c |]; cbn [bind].
      * (* a file *)
        unfold unlinkSync. rewrite He. eexists. split; [reflexivity |].
        split.
        -- split; [eapply wellFormed_delete_file; eauto |].
           split.
           ++ rewrite lookup_delete_ne; [assumption |].
              intros E. apply (f_equal length) in E. simpl in E. lia.
           ++ intros q [e Hq]. apply lookup_delete_Some in Hq as [_ Hq].
              apply Hsub. eauto.
        -- intros q. destruct (decide (q = n :: dir)) as [-> | Hq].
           ++ rewrite lookup_delete_eq, topName_child.
              now rewrite decide_True.
           ++ rewrite lookup_delete_ne by congruence.
              case_decide as Htop; [| reflexivity].
              destruct (path_cases dir q)
                as [E | [-> | [[m ->] | (x & r & m & ->)]]].
              ** rewrite topName_none in Htop by assumption. discriminate.
              ** rewrite topName_dir in Htop. discriminate.
              ** rewrite topName_child in Htop. congruence.
              ** rewrite topName_deep in Htop. injection Htop as ->.
                 destruct (cur !! (x :: r ++ n :: dir)) as [e |] eqn:E;
                   [| reflexivity].
                 rewrite (wellFormed_below cur (n :: dir) (x :: r ++ n :: dir))
                   in He; [discriminate | assumption | apply below_deep | eauto].
      * (* a directory *)
        change (postOrderDirectoryTraverse k (n :: dir)
                  (fun dir => rmdirSync dir) (fun file => unlinkSync file) cur)
          with (emptyDir k (n :: dir) cur).
        destruct (IH (n :: dir) cur Hwfc He) as (st1 & Hrun1 & Hwf1 & Hpt1).
        { intros q Hq Hsome. apply Hsub in Hsome.
          assert (Hlen : length q < length dir + S k).
          { apply Hfit; [| assumption].
            apply (within_trans dir (n :: dir)); [| assumption].
            apply within_cons, within_refl. }
          simpl. lia. }
        rewrite Hrun1. cbn [bind].
        unfold rmdirSync. rewrite Hpt1, relTo_self, He.
        rewrite entries_nil.
        2:{ intros m. rewrite Hpt1, relTo_child. reflexivity. }
        eexists. split; [reflexivity |].
        assert (Hsub1 : forall q, is_Some (st1 !! q) -> is_Some (cur !! q)).
        { intros q. rewrite Hpt1.
          destruct (relTo (n :: dir) q) as [[| ? ?] |]; auto.
          intros [? ?]; discriminate. }
        split.
        -- split.
           ++ apply wellFormed_delete_empty; [assumption |].
              intros m. rewrite Hpt1, relTo_child. reflexivity.
           ++ split.
              ** rewrite lookup_delete_ne.
                 --- rewrite Hpt1, relTo_cons_dir. assumption.
                 --- intros E. apply (f_equal length) in E. simpl in E. lia.
              ** intros q [e Hq]. apply lookup_delete_Some in Hq as [_ Hq].
                 apply Hsub, Hsub1. eauto.
        -- intros q. destruct (decide (q = n :: dir)) as [-> | Hq].
           ++ rewrite lookup_delete_eq, topName_child.
              now rewrite decide_True.
           ++ rewrite lookup_delete_ne by congruence. rewrite Hpt1.
              destruct (path_cases dir q)
                as [E | [-> | [[m ->] | (x & r & m & ->)]]].
              ** rewrite relTo_none_cons, topName_none by assumption.
                 now rewrite decide_False.
              ** rewrite relTo_cons_dir, topName_dir. now rewrite decide_False.
              ** rewrite relTo_cons_child, topName_child.
                 rewrite (decide_False (P := m = n)) by congruence.
                 rewrite decide_False; [reflexivity | congruence].
              ** rewrite relTo_cons_deep, topName_deep.
                 destruct (decide (m = n)) as [-> | Hm].
                 --- now rewrite decide_True.
                 --- rewrite decide_False; [reflexivity | congruence].
    + apply NoDup_entries.
    + repeat split; auto.
    + intros n. apply elem_of_entries.
    + exists st'. split; [assumption |]. split; [assumption |].
      intros q. rewrite Hpt.
      destruct (path_cases dir q)
        as [E | [-> | [[m ->] | (x & r & m & ->)]]].
      * rewrite E, topName_none by assumption. reflexivity.
      * rewrite relTo_self, topName_dir. reflexivity.
      * rewrite relTo_child, topName_child.
        case_decide as Hm; [reflexivity |].
        rewrite elem_of_entries in Hm.
        now apply eq_None_not_Some in Hm.
      * rewrite relTo_deep, topName_deep.
        case_decide as Hm; [reflexivity |].
        rewrite elem_of_entries in Hm. apply eq_None_not_Some in Hm.
        apply (absent_top st dir _ m); auto. apply topName_deep.
Qed.

End EmptyDir.

(** ** The test-removal pass *)

Section RemoveTests.

Implicit Types (st cur : fs) (dir q r : path) (n : string).

Lemma testAt_snoc st dir r n :
  testAt st dir (r ++ [n])
  = (testAt st (n :: dir) r
     || isTestDirName n && bool_decide (st !! (n :: dir) = Some Dir))%bool.
Proof.
  induction r as [| m r IH]; cbn [testAt app].
  - now rewrite orb_false_r.
  - rewrite IH, <- app_assoc. cbn [app]. now rewrite orb_assoc.
Qed.

Lemma testAt_app st dir r r' :
  testAt st dir r' = true -> testAt st dir (r ++ r') = true.
Proof.
  intros H. induction r as [| m r IH]; cbn [testAt app]; [assumption |].
  rewrite IH. apply orb_true_r.
Qed.

Lemma testAt_last st dir r n :
  last r = Some n -> isTestDirName n = true -> st !! (n :: dir) = Some Dir ->
  testAt st dir r = true.
Proof.
  intros Hl Hn Hd.
  destruct r as [| m r] using rev_ind; [discriminate |].
  rewrite last_snoc in Hl. injection Hl as ->.
  rewrite testAt_snoc, Hn, bool_decide_eq_true_2 by assumption.
  apply orb_true_r.
Qed.

Lemma testAt_agree st st' dir g :
  (forall q, topName dir q = Some g -> st !! q = st' !! q) ->
  forall r, last r = Some g -> testAt st dir r = testAt st' dir r.
Proof.
  intros Hag. induction r as [| m r IH]; [reflexivity |].
  intros Hl. cbn [testAt].
  rewrite (Hag (m :: r ++ dir)).
  2:{ unfold topName. change (m :: r ++ dir) with ((m :: r) ++ dir).
      rewrite relTo_app. exact Hl. }
  destruct r as [| m' r]; [reflexivity |].
  rewrite IH; [reflexivity | exact Hl].
Qed.

Lemma inTestDirb_spec st root q :
  inTestDirb st root q = true <-> inTestDir st root q.
Proof.
  unfold inTestDirb, inTestDir. split.
  - destruct (relTo root q) as [rr |] eqn:E; [| discriminate].
    apply relTo_spec in E. subst q.
    induction rr as [| m rr IH]; cbn [testAt]; [discriminate |].
    intros H. apply orb_true_iff in H as [H | H].
    + apply andb_true_iff in H as [Hm Hd].
      apply bool_decide_eq_true in Hd.
      exists [], m, (rr ++ root). repeat split; auto. now exists rr.
    + destruct (IH H) as (r & n & d & Eq & Hw & Hn & Hd).
      exists (m :: r), n, d. repeat split; auto.
      cbn [app]. now rewrite Eq.
  - intros (r & n & d & -> & [r' ->] & Hn & Hd).
    replace (r ++ n :: r' ++ root) with ((r ++ n :: r') ++ root)
      by now rewrite <- app_assoc.
    rewrite relTo_app. apply testAt_app. cbn [testAt].
    rewrite Hn, bool_decide_eq_true_2 by assumption. reflexivity.
Qed.

Lemma fitsDepth_cons dir n fuel st :
  fitsDepth dir fuel st -> fitsDepth (n :: dir) fuel st.
Proof.
  intros H q Hq Hs. cbn [length].
  assert (length q < length dir + fuel); [| lia].
  apply H; [| assumption].
  apply (within_trans dir (n :: dir)); [| assumption].
  apply within_cons, within_refl.
Qed.

Lemma fitsDepth_step dir n fuel st :
  fitsDepth dir (S fuel) st -> fitsDepth (n :: dir) fuel st.
Proof.
  intros H q Hq Hs. cbn [length].
  assert (length q < length dir + S fuel); [| lia].
  apply H; [| assumption].
  apply (within_trans dir (n :: dir)); [| assumption].
  apply within_cons, within_refl.
Qed.

Lemma fitsDepth_sub dir fuel st cur :
  (forall q, is_Some (cur !! q) -> is_Some (st !! q)) ->
  fitsDepth dir fuel st -> fitsDepth dir fuel cur.
Proof. intros Hsub H q Hq Hs. apply H; auto. Qed.

End RemoveTests.

Section RemoveTestsPass.

(** The pre-order traversal with the callback of lines 324-331 removes the
    test directories within [dir], with all that lies in them, and leaves
    the rest.  [fuel0] is the depth given to [emptyDir]. *)
Lemma removeTests_spec (fuel0 fuel : nat) :
  forall (dir : path) (st : fs),
    wellFormed st -> st !! dir = Some Dir ->
    fitsDepth dir fuel st -> fitsDepth dir fuel0 st ->
    exists st' : fs,
      preOrderDirectoryTraverse fuel dir (removeTestDir fuel0)
        (fun _ st => Ret st) st = Ret st' /\
      wellFormed st' /\
      forall q, st' !! q = keptEntry dir st q.
Proof.
  induction fuel as [| k IH]; intros dir st Hwf Hdir Hfit Hfit0.
  - exfalso. specialize (Hfit dir (within_refl dir)).
    rewrite Hdir in Hfit. specialize (Hfit (mk_is_Some _ _ eq_refl)). lia.
  - cbn [preOrderDirectoryTraverse].
    unfold readdirSync. rewrite Hdir. cbn [bind].
    match goal with |- context [forEach _ ?f _] => set (step := f) end.
    set (Inv := fun cur : fs =>
                  wellFormed cur /\ cur !! dir = Some Dir /\
                  forall q, is_Some (cur !! q) -> is_Some (st !! q)).
    destruct (forEach_groups dir (topName dir) (keptEntry dir) step Inv)
      with (ns := entries st dir) (cur := st)
      as (st' & Hrun & (Hwf' & _) & Hpt).
    + (* the rule reads the group only *)
      intros g cur cur' Hag q Hq. unfold keptEntry, inTestDirb.
      rewrite (Hag q Hq).
      unfold topName in Hq. destruct (relTo dir q) as [r |]; [| reflexivity].
      cbn in Hq. now rewrite (testAt_agree cur cur' dir g Hag r Hq).
    + intros cur n n' Hne Htop. rewrite topName_child in Htop. congruence.
    + (* one entry *)
      intros n cur (Hwfc & Hdirc & Hsub) [e He]. subst step. cbn beta.
      unfold isDirectory. rewrite He. destruct e as [c |]; cbn [bind].
      * (* a file stays, and nothing lies below it *)
        exists cur. split; [reflexivity |]. split; [repeat split; auto |].
        intros q. case_decide as Htop; [| reflexivity].
        unfold keptEntry, inTestDirb.
        destruct (path_cases dir q)
          as [E | [-> | [[m ->] | (x & r & m & ->)]]].
        -- rewrite topName_none in Htop by assumption. discriminate.
        -- rewrite topName_dir in Htop. discriminate.
        -- rewrite topName_child in Htop. injection Htop as ->.
           rewrite relTo_child. cbn [testAt app]. rewrite He.
           rewrite bool_decide_eq_false_2 by discriminate.
           now rewrite andb_false_r.
        -- rewrite topName_deep in Htop. injection Htop as ->.
           assert (cur !! (x :: r ++ n :: dir) = None) as ->.
           { destruct (cur !! (x :: r ++ n :: dir)) as [e |] eqn:E;
               [| reflexivity].
             rewrite (wellFormed_below cur (n :: dir) (x :: r ++ n :: dir))
               in He; [discriminate | assumption | apply below_deep | eauto]. }
           now destruct (match relTo dir _ with Some r0 => _ | None => _ end).
      * (* a directory *)
        unfold removeTestDir. cbn [basename].
        destruct (isTestDirName n) eqn:Hn.
        -- (* a test directory is emptied and removed *)
           destruct (emptyDir_spec fuel0 (n :: dir) cur Hwfc He)
             as (st1 & Hrun1 & Hwf1 & Hpt1).
           { apply fitsDepth_cons. now apply (fitsDepth_sub dir fuel0 st). }
           rewrite Hrun1. cbn [bind].
           unfold rmdirSync. rewrite Hpt1, relTo_self, He.
           rewrite entries_nil.
           2:{ intros m. rewrite Hpt1, relTo_child. reflexivity. }
           cbn [bind].
           assert (existsSync (delete (n :: dir) st1) (n :: dir) = false) as ->.
           { apply existsSync_false. apply lookup_delete_eq. }
           eexists. split; [reflexivity |].
           assert (Hsub1 : forall q, is_Some (st1 !! q) -> is_Some (cur !! q)).
           { intros q. rewrite Hpt1.
             destruct (relTo (n :: dir) q) as [[| ? ?] |]; auto.
             intros [? ?]; discriminate. }
           split.
           ++ split.
              ** apply wellFormed_delete_empty; [assumption |].
                 intros m. rewrite Hpt1, relTo_child. reflexivity.
              ** split.
                 --- rewrite lookup_delete_ne.
                     +++ rewrite Hpt1, relTo_cons_dir. assumption.
                     +++ intros E. apply (f_equal length) in E.
                         simpl in E. lia.
                 --- intros q [e Hq].
                     apply lookup_delete_Some in Hq as [_ Hq].
                     apply Hsub, Hsub1. eauto.
           ++ intros q.
              assert (Htest : forall r, last r = Some n ->
                                        testAt cur dir r = true).
              { intros r Hr. now apply (testAt_last cur dir r n). }
              destruct (decide (q = n :: dir)) as [-> | Hq].
              ** rewrite lookup_delete_eq, topName_child.
                 rewrite decide_True by reflexivity.
                 unfold keptEntry, inTestDirb. rewrite relTo_child.
                 now rewrite Htest.
              ** rewrite lookup_delete_ne by congruence. rewrite Hpt1.
                 destruct (path_cases dir q)
                   as [E | [-> | [[m ->] | (x & r & m & ->)]]].
                 --- rewrite relTo_none_cons, topName_none by assumption.
                     now rewrite decide_False.
                 --- rewrite relTo_cons_dir, topName_dir.
                     now rewrite decide_False.
                 --- rewrite relTo_cons_child, topName_child.
                     rewrite (decide_False (P := m = n)) by congruence.
                     rewrite decide_False; [reflexivity | congruence].
                 --- rewrite relTo_cons_deep, topName_deep.
                     destruct (decide (m = n)) as [-> | Hm].
                     +++ rewrite decide_True by reflexivity.
                         unfold keptEntry, inTestDirb. rewrite relTo_deep.
                         rewrite Htest; [reflexivity |].
                         change (x :: r ++ [n]) with ((x :: r) ++ [n]).
                         apply last_snoc.
                     +++ rewrite decide_False; [reflexivity | congruence].
        -- (* another directory is traversed in its turn *)
           cbn [bind].
           assert (existsSync cur (n :: dir) = true) as ->.
           { apply existsSync_true. eauto. }
           destruct (IH (n :: dir) cur Hwfc He) as (st1 & Hrun1 & Hwf1 & Hpt1).
           { apply fitsDepth_step. now apply (fitsDepth_sub dir (S k) st). }
           { apply fitsDepth_cons. now apply (fitsDepth_sub dir fuel0 st). }
           exists st1. split; [exact Hrun1 |].
           assert (Hsub1 : forall q, is_Some (st1 !! q) -> is_Some (cur !! q)).
           { intros q. rewrite Hpt1. unfold keptEntry.
             destruct (inTestDirb cur (n :: dir) q); auto.
             intros [? ?]; discriminate. }
           split.
           ++ split; [assumption |]. split.
              ** rewrite Hpt1. unfold keptEntry, inTestDirb.
                 now rewrite relTo_cons_dir.
              ** intros q Hq. apply Hsub, Hsub1, Hq.
           ++ intros q. rewrite Hpt1. unfold keptEntry, inTestDirb.
              destruct (path_cases dir q)
                as [E | [-> | [[m ->] | (x & r & m & ->)]]].
              ** rewrite relTo_none_cons, topName_none by assumption.
                 now rewrite decide_False.
              ** rewrite relTo_cons_dir, topName_dir.
                 now rewrite decide_False.
              ** rewrite relTo_cons_child, topName_child, relTo_child.
                 destruct (decide (m = n)) as [-> | Hm].
                 --- rewrite decide_True by reflexivity.
                     cbn [testAt]. rewrite Hn. reflexivity.
                 --- rewrite decide_False; [reflexivity | congruence].
              ** rewrite relTo_cons_deep, topName_deep, relTo_deep.
                 destruct (decide (m = n)) as [-> | Hm].
                 --- rewrite decide_True by reflexivity.
                     change (x :: r ++ [n]) with ((x :: r) ++ [n]).
                     rewrite testAt_snoc, Hn. cbn [andb].
                     now rewrite orb_false_r.
                 --- rewrite decide_False; [reflexivity | congruence].
    + apply NoDup_entries.
    + repeat split; auto.
    + intros n. apply elem_of_entries.
    + exists st'. split; [assumption |]. split; [assumption |].
      intros q. rewrite Hpt.
      destruct (topName dir q) as [g |] eqn:G.
      * case_decide as Hg; [reflexivity |].
        rewrite elem_of_entries in Hg. apply eq_None_not_Some in Hg.
        unfold keptEntry. rewrite (absent_top st dir q g) by assumption.
        now destruct (inTestDirb st dir q).
      * unfold keptEntry, inTestDirb. unfold topName in G.
        destruct (relTo dir q) as [r |]; [| reflexivity].
        cbn in G. destruct r as [| m r]; [reflexivity |].
        exfalso. revert G. clear.
        revert m. induction r as [| m' r IH]; intros m; [discriminate |].
        apply IH.
Qed.

End RemoveTestsPass.

(** The names that the directory callback looks for. *)
Lemma isTestDirName_spec (n : string) :
  isTestDirName n = true <-> n = "cypress" \/ n = "__tests__".
Proof.
  unfold isTestDirName. rewrite orb_true_iff, !String.eqb_eq. reflexivity.
Qed.

(** A path for which [inTestDirb] is [false] does not lie in a directory
    [cypress] or [__tests__], and is none. *)
Lemma outside_test_dirs (st : fs) (root q : path) :
  inTestDirb st root q = false ->
  forall (n : string) (d r : path),
    n = "cypress" \/ n = "__tests__" ->
    within root d -> q = r ++ n :: d -> st !! (n :: d) <> Some Dir.
Proof.
  intros Hb n d r Hn Hd Hq Hdir.
  assert (inTestDirb st root q = true) as Ht; [| congruence].
  apply inTestDirb_spec. exists r, n, d.
  repeat split; auto. now apply isTestDirName_spec.
Qed.

(** C9: when tests are not requested, the test-removal pass returns, on a
    well-formed tree and with enough recursion depth.  It removes every
    directory within the root that is named [cypress] or [__tests__], with
    all that lies in it at any depth: nothing is left at a path [r ++ n ::
    d] that is, or lies in, such a directory [n :: d].  Every other file
    and directory, a path that is no such directory and lies in none, is
    left as it was.  (The traversal is the one of the spec, section
    4.2.) *)
Theorem C9_test_removal (fuel : nat) (root : path) (st : fs) :
  wellFormed st -> st !! root = Some Dir -> fitsDepth root fuel st ->
  exists st' : fs,
    removeTests fuel root st = Ret st' /\
    (forall (n : string) (d r : path),
        n = "cypress" \/ n = "__tests__" ->
        within root d -> st !! (n :: d) = Some Dir ->
        st' !! (r ++ n :: d) = None) /\
    (forall q : path,
        (forall (n : string) (d r : path),
            n = "cypress" \/ n = "__tests__" ->
            within root d -> q = r ++ n :: d -> st !! (n :: d) <> Some Dir) ->
        st' !! q = st !! q).
Proof.
  intros Hwf Hroot Hfit.
  destruct (removeTests_spec fuel fuel root st Hwf Hroot Hfit Hfit)
    as (st' & Hrun & _ & Hpt).
  exists st'. split; [exact Hrun |].
  split.
  - intros n d r Hn Hd Hdir. rewrite Hpt. unfold keptEntry.
    assert (inTestDirb st root (r ++ n :: d) = true) as ->; [| reflexivity].
    apply inTestDirb_spec. exists r, n, d.
    repeat split; auto. now apply isTestDirName_spec.
  - intros q Hq. rewrite Hpt. unfold keptEntry.
    destruct (inTestDirb st root q) eqn:E; [| reflexivity].
    apply inTestDirb_spec in E as (r & n & d & Eq & Hd & Hn & Hdir).
    apply isTestDirName_spec in Hn.
    destruct (Hq n d r Hn Hd Eq Hdir).
Qed.

(** The pass on a small project: [cypress] and [src/__tests__] go, with
    what they hold; [index.html], [src] and [src/main.js] stay. *)
Example removeTests_example :
  (st' ← match
           removeTests 4 ["demo"]
             (list_to_map
                [([], Dir); (["demo"], Dir);
                 (["index.html"; "demo"], File "html");
                 (["cypress"; "demo"], Dir);
                 (["plugins"; "cypress"; "demo"], Dir);
                 (["index.js"; "plugins"; "cypress"; "demo"], File "plugin");
                 (["src"; "demo"], Dir);
                 (["main.js"; "src"; "demo"], File "main");
                 (["__tests__"; "src"; "demo"], Dir);
                 (["a.spec.js"; "__tests__"; "src"; "demo"], File "spec")])
         with
         | Ret st' => Some st'
         | _ => None
         end;
   Some (st' !! ["cypress"; "demo"],
         st' !! ["index.js"; "plugins"; "cypress"; "demo"],
         st' !! ["__tests__"; "src"; "demo"],
         st' !! ["a.spec.js"; "__tests__"; "src"; "demo"],
         st' !! ["main.js"; "src"; "demo"],
         st' !! ["index.html"; "demo"]))
  = Some (None, None, None, None, Some (File "main"), Some (File "html")).
Proof. vm_compute. reflexivity. Qed.

(** A project with [cypress/plugins/index.js], [src/__tests__/a.spec.js]
    and the siblings [src/main.js] and [index.html]. *)
Lemma C9_test_removal_witness :
  let st : fs :=
    list_to_map
      [([], Dir); (["demo"], Dir);
       (["index.html"; "demo"], File "html");
       (["cypress"; "demo"], Dir);
       (["plugins"; "cypress"; "demo"], Dir);
       (["index.js"; "plugins"; "cypress"; "demo"], File "plugin");
       (["src"; "demo"], Dir);
       (["main.js"; "src"; "demo"], File "main");
       (["__tests__"; "src"; "demo"], Dir);
       (["a.spec.js"; "__tests__"; "src"; "demo"], File "spec")] in
  exists st' : fs,
    removeTests 4 ["demo"] st = Ret st' /\
    st' !! ["cypress"; "demo"] = None /\
    st' !! ["plugins"; "cypress"; "demo"] = None /\
    st' !! ["index.js"; "plugins"; "cypress"; "demo"] = None /\
    st' !! ["__tests__"; "src"; "demo"] = None /\
    st' !! ["a.spec.js"; "__tests__"; "src"; "demo"] = None /\
    st' !! ["src"; "demo"] = Some Dir /\
    st' !! ["main.js"; "src"; "demo"] = Some (File "main") /\
    st' !! ["index.html"; "demo"] = Some (File "html") /\
    st' !! ["demo"] = Some Dir.
Proof.
  intros st.
  destruct (C9_test_removal 4 ["demo"] st) as (st' & Hrun & Hgone & Hkept).
  - apply wellFormedb_sound. vm_compute. reflexivity.
  - vm_compute. reflexivity.
  - apply fitsDepthb_sound. vm_compute. reflexivity.
  - exists st'. split; [exact Hrun |].
    assert (within ["demo"] ["demo"]) as Hroot by (now exists []).
    assert (within ["demo"] ["src"; "demo"]) as Hsrc by (now exists ["src"]).
    split.
    { apply (Hgone "cypress" ["demo"] []); [now left | exact Hroot |].
      vm_compute. reflexivity. }
    split.
    { apply (Hgone "cypress" ["demo"] ["plugins"]); [now left | exact Hroot |].
      vm_compute. reflexivity. }
    split.
    { apply (Hgone "cypress" ["demo"] ["index.js"; "plugins"]);
        [now left | exact Hroot |].
      vm_compute. reflexivity. }
    split.
    { apply (Hgone "__tests__" ["src"; "demo"] []); [now right | exact Hsrc |].
      vm_compute. reflexivity. }
    split.
    { apply (Hgone "__tests__" ["src"; "demo"] ["a.spec.js"]);
        [now right | exact Hsrc |].
      vm_compute. reflexivity. }
    repeat split;
      (rewrite Hkept;
       [vm_compute; reflexivity
       | apply outside_test_dirs; vm_compute; reflexivity]).
Defined.

(** ** File names and their endings *)

Section NameFacts.

Implicit Types (s t stem suffix n : string).

Lemma append_cons c s t : String c s +:+ t = String c (s +:+ t).
Proof. reflexivity. Qed.

Lemma length_append s t :
  String.length (s +:+ t) = String.length s + String.length t.
Proof.
  induction s as [| c s IH]; [reflexivity |].
  rewrite append_cons. cbn [String.length]. now rewrite IH.
Qed.

Lemma append_inj_tail s s' t t' :
  String.length t = String.length t' -> s +:+ t = s' +:+ t' ->
  s = s' /\ t = t'.
Proof.
  intros Hlen. revert s'. induction s as [| c s IH]; intros [| c' s'] E.
  - auto.
  - exfalso. change (t = String c' (s' +:+ t')) in E.
    apply (f_equal String.length) in E. cbn in E.
    rewrite length_append in E. lia.
  - exfalso. change (String c (s +:+ t) = t') in E.
    apply (f_equal String.length) in E. cbn in E.
    rewrite length_append in E. lia.
  - rewrite !append_cons in E. injection E as -> E.
    destruct (IH _ E) as [-> ->]. auto.
Qed.

Lemma eqb_append_false c stem suffix :
  String.eqb (String c stem +:+ suffix) suffix = false.
Proof.
  apply String.eqb_neq. intros E.
  apply (f_equal String.length) in E.
  rewrite append_cons in E. cbn in E. rewrite length_append in E. lia.
Qed.

Lemma endsWith_append stem suffix : endsWith (stem +:+ suffix) suffix = true.
Proof.
  induction stem as [| c stem IH].
  - change ("" +:+ suffix) with suffix.
    destruct suffix; cbn [endsWith]; now rewrite String.eqb_refl.
  - rewrite append_cons. cbn [endsWith]. rewrite <- append_cons.
    rewrite eqb_append_false. exact IH.
Qed.

Lemma replaceEnd_append stem suffix by_ :
  replaceEnd (stem +:+ suffix) suffix by_ = stem +:+ by_.
Proof.
  induction stem as [| c stem IH].
  - change ("" +:+ suffix) with suffix.
    destruct suffix; cbn [replaceEnd]; now rewrite String.eqb_refl.
  - rewrite append_cons. cbn [replaceEnd]. rewrite <- append_cons.
    rewrite eqb_append_false. now rewrite IH.
Qed.

Lemma endsWith_inv s suffix :
  endsWith s suffix = true -> exists stem, s = stem +:+ suffix.
Proof.
  induction s as [| c s IH]; cbn [endsWith].
  - destruct (String.eqb "" suffix) eqn:E; [| discriminate].
    apply String.eqb_eq in E. subst. now exists "".
  - destruct (String.eqb (String c s) suffix) eqn:E.
    + apply String.eqb_eq in E. rewrite <- E. now exists "".
    + intros H. destruct (IH H) as [stem ->]. now exists (String c stem).
Qed.

Lemma endsWith_other stem t suffix :
  String.length t = String.length suffix -> t <> suffix ->
  endsWith (stem +:+ t) suffix = false.
Proof.
  intros Hlen Hne. destruct (endsWith (stem +:+ t) suffix) eqn:E;
    [| reflexivity].
  apply endsWith_inv in E as [stem' E].
  apply append_inj_tail in E as [_ E]; [contradiction | assumption].
Qed.

Lemma name_cases n : nameClass n.
Proof.
  destruct (endsWith n ".js") eqn:Ejs.
  { apply endsWith_inv in Ejs as [stem ->]. now apply (IsJs _ stem). }
  destruct (String.eqb n "jsconfig.json") eqn:Ejc.
  { apply String.eqb_eq in Ejc. now apply IsJsconfig. }
  destruct (endsWith n ".ts") eqn:Ets.
  { apply endsWith_inv in Ets as [stem ->]. now apply (IsTs _ stem). }
  destruct (String.eqb n "tsconfig.json") eqn:Etc.
  { apply String.eqb_eq in Etc. now apply IsTsconfig. }
  apply IsOther; auto. unfold isSource. now rewrite Ejs, Ejc.
Qed.

Lemma js_isSource stem : isSource (stem +:+ ".js") = true.
Proof. unfold isSource. now rewrite endsWith_append. Qed.

Lemma js_not_ts stem : endsWith (stem +:+ ".js") ".ts" = false.
Proof. apply endsWith_other; [reflexivity | discriminate]. Qed.

Lemma ts_not_js stem : endsWith (stem +:+ ".ts") ".js" = false.
Proof. apply endsWith_other; [reflexivity | discriminate]. Qed.

Lemma ts_not_jsconfig stem : String.eqb (stem +:+ ".ts") "jsconfig.json" = false.
Proof.
  apply String.eqb_neq. change "jsconfig.json" with ("jsconfig.j" +:+ "son").
  intros E. apply append_inj_tail in E as [_ E]; [discriminate | reflexivity].
Qed.

Lemma ts_not_source stem : isSource (stem +:+ ".ts") = false.
Proof. unfold isSource. now rewrite ts_not_js, ts_not_jsconfig. Qed.

Lemma ts_ne_js stem stem' : stem +:+ ".ts" <> stem' +:+ ".js".
Proof.
  intros E. apply append_inj_tail in E as [_ E]; [discriminate | reflexivity].
Qed.

Lemma sourceName_js stem : sourceName (stem +:+ ".js") = stem +:+ ".js".
Proof. unfold sourceName. now rewrite js_isSource. Qed.

Lemma sourceName_ts stem : sourceName (stem +:+ ".ts") = stem +:+ ".js".
Proof.
  unfold sourceName.
  now rewrite ts_not_source, endsWith_append, replaceEnd_append.
Qed.

Lemma sourceName_source n : isSource n = true -> sourceName n = n.
Proof. unfold sourceName. now intros ->. Qed.

Lemma sourceName_other n :
  isSource n = false -> endsWith n ".ts" = false ->
  String.eqb n "tsconfig.json" = false -> sourceName n = n.
Proof. unfold sourceName. now intros -> -> ->. Qed.

(** The source of a name is a source, or the name itself. *)
Lemma sourceName_idem n : sourceName (sourceName n) = sourceName n.
Proof.
  destruct (name_cases n) as [stem -> | -> | stem -> | -> | H1 H2 H3].
  - now rewrite !sourceName_js.
  - reflexivity.
  - now rewrite sourceName_ts, sourceName_js.
  - reflexivity.
  - rewrite (sourceName_other n) by assumption.
    now apply sourceName_other.
Qed.

Lemma sourceName_isSource n :
  sourceName n <> n -> isSource (sourceName n) = true /\ isSource n = false.
Proof.
  destruct (name_cases n) as [stem -> | -> | stem -> | -> | H1 H2 H3].
  - rewrite sourceName_js. congruence.
  - intros H. now contradiction H.
  - intros _. rewrite sourceName_ts. split; [apply js_isSource | apply ts_not_source].
  - intros _. split; reflexivity.
  - rewrite sourceName_other by assumption. congruence.
Qed.

End NameFacts.

(** ** The conversion of one entry *)

Section ConvertedEntry.

Implicit Types (st cur : fs) (dir d q : path) (n m : string).

Lemma convertedEntry_no_source st m d :
  (forall c, st !! (sourceName m :: d) <> Some (File c)) ->
  convertedEntry st (m :: d) = st !! (m :: d).
Proof.
  intros H. unfold convertedEntry.
  destruct (name_cases m) as [stem -> | -> | stem -> | -> | H1 H2 H3].
  - rewrite js_isSource. rewrite sourceName_js in H.
    destruct (st !! ((stem +:+ ".js") :: d)) as [[c |] |]; auto.
    now contradiction (H c).
  - change (isSource "jsconfig.json") with true. cbv iota.
    change (sourceName "jsconfig.json") with "jsconfig.json" in H.
    destruct (st !! ("jsconfig.json" :: d)) as [[c |] |]; auto.
    now contradiction (H c).
  - rewrite ts_not_source, endsWith_append.
    destruct (st !! ((stem +:+ ".ts") :: d)) as [e |]; auto.
    destruct (st !! (sourceName (stem +:+ ".ts") :: d)) as [[c |] |] eqn:E;
      auto.
    now contradiction (H c).
  - change (isSource "tsconfig.json") with false.
    change (endsWith "tsconfig.json" ".ts") with false.
    change ("tsconfig.json" =? "tsconfig.json")%string with true. cbv iota.
    destruct (st !! (sourceName "tsconfig.json" :: d)) as [[c |] |] eqn:E;
      auto.
    now contradiction (H c).
  - now rewrite H1, H2, H3.
Qed.

Lemma convertedEntry_none st m d :
  st !! (m :: d) = None -> st !! (sourceName m :: d) = None ->
  convertedEntry st (m :: d) = None.
Proof.
  intros H1 H2. rewrite convertedEntry_no_source; [assumption |].
  intros c. rewrite H2. discriminate.
Qed.

Lemma convertedEntry_agree st st' m d :
  st !! (m :: d) = st' !! (m :: d) ->
  st !! (sourceName m :: d) = st' !! (sourceName m :: d) ->
  convertedEntry st (m :: d) = convertedEntry st' (m :: d).
Proof. intros H1 H2. unfold convertedEntry. now rewrite H1, H2. Qed.

(** What becomes of a source file, and of the name it is given. *)
Lemma convertedEntry_source st n d c :
  isSource n = true -> st !! (n :: d) = Some (File c) ->
  convertedEntry st (n :: d) = None.
Proof. intros Hs Hn. unfold convertedEntry. now rewrite Hs, Hn. Qed.

Lemma convertedEntry_ts st stem d c :
  st !! ((stem +:+ ".js") :: d) = Some (File c) ->
  convertedEntry st ((stem +:+ ".ts") :: d)
  = match st !! ((stem +:+ ".ts") :: d) with
    | Some e => Some e
    | None => Some (File c)
    end.
Proof.
  intros Hn. unfold convertedEntry.
  rewrite ts_not_source, endsWith_append, sourceName_ts, Hn.
  now destruct (st !! ((stem +:+ ".ts") :: d)).
Qed.

Lemma convertedEntry_tsconfig st d c :
  st !! ("jsconfig.json" :: d) = Some (File c) ->
  convertedEntry st ("tsconfig.json" :: d) = Some (File c).
Proof.
  intros Hn. unfold convertedEntry.
  change (isSource "tsconfig.json") with false.
  change (endsWith "tsconfig.json" ".ts") with false.
  change ("tsconfig.json" =? "tsconfig.json")%string with true. cbv iota.
  change (sourceName "tsconfig.json") with "jsconfig.json". now rewrite Hn.
Qed.

(** The names that come from a given source. *)
Lemma sourceName_js_inv m stem :
  sourceName m = stem +:+ ".js" -> m = stem +:+ ".js" \/ m = stem +:+ ".ts".
Proof.
  destruct (name_cases m) as [s -> | -> | s -> | -> | H1 H2 H3].
  - rewrite sourceName_js. auto.
  - change (sourceName "jsconfig.json") with "jsconfig.json". intros E.
    pose proof (js_isSource stem) as Hs. rewrite <- E in Hs.
    pose proof (endsWith_append stem ".js") as He. rewrite <- E in He.
    discriminate He.
  - rewrite sourceName_ts. intros E.
    apply append_inj_tail in E as [-> _]; auto.
  - change (sourceName "tsconfig.json") with "jsconfig.json". intros E.
    pose proof (endsWith_append stem ".js") as He. rewrite <- E in He.
    discriminate He.
  - rewrite sourceName_other by assumption. auto.
Qed.

Lemma sourceName_jsconfig_inv m :
  sourceName m = "jsconfig.json" -> m = "jsconfig.json" \/ m = "tsconfig.json".
Proof.
  destruct (name_cases m) as [s -> | -> | s -> | -> | H1 H2 H3]; auto.
  - rewrite sourceName_js. auto.
  - rewrite sourceName_ts. intros E.
    pose proof (endsWith_append s ".js") as He. rewrite E in He.
    discriminate He.
  - rewrite sourceName_other by assumption. auto.
Qed.

Lemma sourceName_nonsource_inv m n :
  isSource n = false -> sourceName m = n -> m = n.
Proof.
  intros Hn E. destruct (decide (sourceName m = m)) as [| Hne]; [congruence |].
  apply sourceName_isSource in Hne as [Hs _]. congruence.
Qed.

(** *** The group of a path *)

Lemma convertGroup_none dir q : relTo dir q = None -> convertGroup dir q = None.
Proof. unfold convertGroup. now intros ->. Qed.

Lemma convertGroup_dir dir : convertGroup dir dir = None.
Proof. unfold convertGroup. now rewrite relTo_self. Qed.

Lemma convertGroup_child dir m : convertGroup dir (m :: dir) = Some (sourceName m).
Proof. unfold convertGroup. now rewrite relTo_child. Qed.

Lemma convertGroup_deep dir x r m :
  convertGroup dir (x :: r ++ m :: dir) = Some m.
Proof.
  unfold convertGroup. rewrite relTo_deep.
  destruct r as [| y r]; [reflexivity |].
  change (x :: (y :: r) ++ [m]) with ((x :: y :: r) ++ [m]).
  apply last_snoc.
Qed.

(** Nothing lies below a file, before the conversion and after it. *)
Lemma below_file st dir n c x r :
  wellFormed st -> st !! (n :: dir) = Some (File c) ->
  st !! (x :: r ++ n :: dir) = None.
Proof.
  intros Hwf Hn.
  destruct (st !! (x :: r ++ n :: dir)) as [e |] eqn:E; [| reflexivity].
  rewrite (wellFormed_below st (n :: dir) (x :: r ++ n :: dir)) in Hn;
    [discriminate | assumption | apply below_deep | eauto].
Qed.

Lemma below_absent st dir n x r :
  wellFormed st -> st !! (n :: dir) = None ->
  st !! (x :: r ++ n :: dir) = None.
Proof.
  intros Hwf Hn.
  destruct (st !! (x :: r ++ n :: dir)) as [e |] eqn:E; [| reflexivity].
  rewrite (wellFormed_below st (n :: dir) (x :: r ++ n :: dir)) in Hn;
    [discriminate | assumption | apply below_deep | eauto].
Qed.

Lemma convertedEntry_below_nothing st dir n x r :
  (forall y, st !! (y :: r ++ n :: dir) = None) ->
  convertedEntry st (x :: r ++ n :: dir) = None.
Proof. intros H. apply convertedEntry_none; apply H. Qed.

End ConvertedEntry.

(** ** The language-conversion pass *)

Section ConvertPass.

Variable root0 : path.
Variable fuel0 : nat.

Implicit Types (st cur : fs) (dir d q : path) (n m : string).

Lemma converting_unlink cur q c :
  converting root0 fuel0 cur -> cur !! q = Some (File c) -> converting root0 fuel0 (delete q cur).
Proof.
  intros (Hwf & Hcl & Hfit & Hroot) Hq. repeat split.
  - now apply (wellFormed_delete_file cur q c).
  - intros d c' Hd Hjs Hts.
    apply lookup_delete_Some in Hjs as [_ Hjs].
    apply lookup_delete_Some in Hts as [_ Hts].
    exact (Hcl d c' Hd Hjs Hts).
  - intros q' Hq' [e He]. apply lookup_delete_Some in He as [_ He].
    apply Hfit; eauto.
  - rewrite lookup_delete_ne; [assumption | congruence].
Qed.

Lemma converting_rename cur n n' d c :
  converting root0 fuel0 cur -> cur !! (n :: d) = Some (File c) ->
  cur !! (n' :: d) <> Some Dir -> n' <> "jsconfig.json" ->
  converting root0 fuel0 (<[n' :: d := File c]> (delete (n :: d) cur)).
Proof.
  intros (Hwf & Hcl & Hfit & Hroot) Hn Hn' Hjs.
  assert (Hd : cur !! d = Some Dir) by (apply (Hwf n); eauto).
  repeat split.
  - apply wellFormed_insert_file.
    + now apply (wellFormed_delete_file cur (n :: d) c).
    + rewrite lookup_delete_ne; [assumption |].
      intros E. apply (f_equal length) in E. simpl in E. lia.
    + intros E. apply lookup_delete_Some in E as [_ E]. contradiction.
  - intros d' c' Hd' H1 H2.
    apply lookup_insert_Some in H1 as [[E _] | [_ H1]]; [congruence |].
    apply lookup_insert_Some in H2 as [[_ E] | [_ H2]]; [discriminate |].
    apply lookup_delete_Some in H1 as [_ H1].
    apply lookup_delete_Some in H2 as [_ H2].
    exact (Hcl d' c' Hd' H1 H2).
  - intros q Hq [e He].
    apply lookup_insert_Some in He as [[<- _] | [_ He]].
    + change (length (n' :: d)) with (length (n :: d)).
      apply Hfit; [| eauto].
      destruct Hq as [[| x r] E].
      * simpl in E. rewrite <- E in Hroot. contradiction.
      * injection E as _ ->. now exists (n :: r).
    + apply lookup_delete_Some in He as [_ He]. apply Hfit; eauto.
  - rewrite lookup_insert_ne by congruence.
    rewrite lookup_delete_ne; [assumption | congruence].
Qed.

(** The paths of the group of [n], the other paths, and the result of
    visiting [n]. *)
Lemma visit_pointwise dir n cur cur1 :
  (forall m, sourceName m = n ->
             cur1 !! (m :: dir) = convertedEntry cur (m :: dir)) ->
  (forall x r, cur1 !! (x :: r ++ n :: dir)
               = convertedEntry cur (x :: r ++ n :: dir)) ->
  (forall q, convertGroup dir q <> Some n -> cur1 !! q = cur !! q) ->
  forall q, cur1 !! q
            = if decide (convertGroup dir q = Some n)
              then convertedEntry cur q else cur !! q.
Proof.
  intros Hgroup Hdeep Hrest q. case_decide as G; [| now apply Hrest].
  destruct (path_cases dir q) as [E | [-> | [[m ->] | (x & r & m & ->)]]].
  - rewrite convertGroup_none in G by assumption. discriminate.
  - rewrite convertGroup_dir in G. discriminate.
  - rewrite convertGroup_child in G. injection G as G. now apply Hgroup.
  - rewrite convertGroup_deep in G. injection G as ->. apply Hdeep.
Qed.

(** A path outside the group of [n] is neither [n] nor a name that comes
    from it. *)
Lemma outside_group dir n m q :
  sourceName m = n -> convertGroup dir q <> Some n -> q <> m :: dir.
Proof. intros Hm G ->. rewrite convertGroup_child in G. congruence. Qed.

End ConvertPass.

Section ConvertTraversal.

Variable root0 : path.
Variable fuel0 : nat.

Implicit Types (st cur : fs) (dir d q : path) (n m : string).

(** Visiting a file that is not a source changes nothing. *)
Lemma visit_other dir n cur c :
  converting root0 fuel0 cur -> cur !! (n :: dir) = Some (File c) ->
  isSource n = false ->
  exists cur1 : fs,
    convertFile (n :: dir) cur = Ret cur1 /\ converting root0 fuel0 cur1 /\
    forall q, cur1 !! q
              = if decide (convertGroup dir q = Some n)
                then convertedEntry cur q else cur !! q.
Proof.
  intros Hinv He Hs. exists cur.
  assert (Hwf : wellFormed cur) by apply Hinv.
  unfold isSource in Hs. apply orb_false_iff in Hs as [Hjs Hjc].
  split; [| split; [assumption |]].
  { unfold convertFile. cbn [basename]. now rewrite Hjs, Hjc. }
  apply visit_pointwise.
  - intros m Hm.
    assert (m = n) as ->.
    { apply (sourceName_nonsource_inv m n); [| assumption].
      unfold isSource. now rewrite Hjs, Hjc. }
    destruct (name_cases n) as [s -> | -> | s -> | -> | H1 H2 H3].
    + rewrite endsWith_append in Hjs. discriminate.
    + discriminate Hjc.
    + rewrite sourceName_ts in Hm. symmetry in Hm.
      now apply ts_ne_js in Hm.
    + discriminate Hm.
    + unfold convertedEntry. now rewrite H1, H2, H3.
  - intros x r. rewrite (below_file cur dir n c) by assumption.
    symmetry. apply convertedEntry_below_nothing.
    intros y. now apply (below_file cur dir n c).
  - reflexivity.
Qed.

(** Visiting [x.js]: it is removed if [x.ts] exists, and renamed to [x.ts]
    otherwise. *)
Lemma visit_js dir stem cur c :
  converting root0 fuel0 cur ->
  cur !! ((stem +:+ ".js") :: dir) = Some (File c) ->
  exists cur1 : fs,
    convertFile ((stem +:+ ".js") :: dir) cur = Ret cur1 /\
    converting root0 fuel0 cur1 /\
    forall q, cur1 !! q
              = if decide (convertGroup dir q = Some (stem +:+ ".js"))
                then convertedEntry cur q else cur !! q.
Proof.
  intros Hinv He.
  assert (Hwf : wellFormed cur) by apply Hinv.
  assert (Hdir : cur !! dir = Some Dir) by (apply (Hwf (stem +:+ ".js")); eauto).
  assert (Hne : (stem +:+ ".ts") :: dir <> (stem +:+ ".js") :: dir).
  { intros [= E]. now apply ts_ne_js in E. }
  assert (Hlen : forall x r n, x :: r ++ n :: dir <> n :: dir).
  { intros x r n E. apply (f_equal length) in E. simpl in E.
    rewrite length_app in E. simpl in E. lia. }
  assert (Hlen' : forall x r n n', x :: r ++ n :: dir <> n' :: dir).
  { intros x r n n' E. apply (f_equal length) in E. simpl in E.
    rewrite length_app in E. simpl in E. lia. }
  unfold convertFile. cbn [basename]. rewrite endsWith_append.
  unfold withBasename. cbn [tail]. rewrite replaceEnd_append.
  destruct (existsSync cur ((stem +:+ ".ts") :: dir)) eqn:Ex.
  - (* [x.ts] exists *)
    apply existsSync_true in Ex as [e Hts].
    unfold unlinkSync. rewrite He.
    eexists. split; [reflexivity |].
    split; [now apply (converting_unlink root0 fuel0 cur _ c) |].
    apply visit_pointwise.
    + intros m Hm. apply sourceName_js_inv in Hm as [-> | ->].
      * rewrite lookup_delete_eq. symmetry.
        apply (convertedEntry_source cur _ dir c); [apply js_isSource | assumption].
      * rewrite lookup_delete_ne by congruence.
        now rewrite (convertedEntry_ts cur stem dir c), Hts.
    + intros x r. rewrite lookup_delete_ne by (apply not_eq_sym, Hlen).
      rewrite (below_file cur dir _ c) by assumption.
      symmetry. apply convertedEntry_below_nothing.
      intros y. now apply (below_file cur dir _ c).
    + intros q G. rewrite lookup_delete_ne; [reflexivity |].
      apply not_eq_sym.
      apply (outside_group dir (stem +:+ ".js")); [apply sourceName_js | exact G].
  - (* [x.ts] does not exist *)
    apply existsSync_false in Ex.
    unfold renameSync. rewrite He, Ex. unfold parentIsDir.
    rewrite bool_decide_eq_true_2 by assumption.
    eexists. split; [reflexivity |].
    split.
    { apply converting_rename; auto.
      - rewrite Ex. discriminate.
      - intros E. pose proof (ts_not_jsconfig stem) as H.
        rewrite E in H. discriminate H. }
    apply visit_pointwise.
    + intros m Hm. apply sourceName_js_inv in Hm as [-> | ->].
      * rewrite lookup_insert_ne by congruence. rewrite lookup_delete_eq.
        symmetry.
        apply (convertedEntry_source cur _ dir c); [apply js_isSource | assumption].
      * rewrite lookup_insert_eq.
        now rewrite (convertedEntry_ts cur stem dir c), Ex.
    + intros x r.
      rewrite lookup_insert_ne by (apply not_eq_sym, Hlen').
      rewrite lookup_delete_ne by (apply not_eq_sym, Hlen).
      rewrite (below_file cur dir _ c) by assumption.
      symmetry. apply convertedEntry_below_nothing.
      intros y. now apply (below_file cur dir _ c).
    + intros q G.
      rewrite lookup_insert_ne, lookup_delete_ne; [reflexivity | |];
        apply not_eq_sym.
      * apply (outside_group dir (stem +:+ ".js")); [apply sourceName_js | exact G].
      * apply (outside_group dir (stem +:+ ".js")); [apply sourceName_ts | exact G].
Qed.

(** Visiting [jsconfig.json]: it is renamed to [tsconfig.json]. *)
Lemma visit_jsconfig dir cur c :
  converting root0 fuel0 cur -> within root0 dir ->
  cur !! ("jsconfig.json" :: dir) = Some (File c) ->
  exists cur1 : fs,
    convertFile ("jsconfig.json" :: dir) cur = Ret cur1 /\
    converting root0 fuel0 cur1 /\
    forall q, cur1 !! q
              = if decide (convertGroup dir q = Some "jsconfig.json")
                then convertedEntry cur q else cur !! q.
Proof.
  intros Hinv Hin He.
  assert (Hwf : wellFormed cur) by apply Hinv.
  assert (Hcl : cur !! ("tsconfig.json" :: dir) <> Some Dir).
  { destruct Hinv as (_ & Hcl & _). now apply (Hcl dir c). }
  assert (Hdir : cur !! dir = Some Dir) by (apply (Hwf "jsconfig.json"); eauto).
  assert (Hlen : forall x r n n', x :: r ++ n :: dir <> n' :: dir).
  { intros x r n n' E. apply (f_equal length) in E. simpl in E.
    rewrite length_app in E. simpl in E. lia. }
  unfold convertFile. cbn [basename].
  change (endsWith "jsconfig.json" ".js") with false.
  change ("jsconfig.json" =? "jsconfig.json")%string with true. cbv iota.
  unfold withBasename. cbn [tail].
  change (replaceEnd "jsconfig.json" "jsconfig.json" "tsconfig.json")
    with "tsconfig.json".
  assert (Hrun : renameSync ("jsconfig.json" :: dir) ("tsconfig.json" :: dir) cur
                 = Ret (<["tsconfig.json" :: dir := File c]>
                          (delete ("jsconfig.json" :: dir) cur))).
  { unfold renameSync. rewrite He. unfold parentIsDir.
    rewrite bool_decide_eq_true_2 by assumption.
    destruct (cur !! ("tsconfig.json" :: dir)) as [[c' |] |];
      [reflexivity | contradiction | reflexivity]. }
  rewrite Hrun. eexists. split; [reflexivity |].
  split; [apply converting_rename; auto; discriminate |].
  apply visit_pointwise.
  - intros m Hm. apply sourceName_jsconfig_inv in Hm as [-> | ->].
    + rewrite lookup_insert_ne by discriminate. rewrite lookup_delete_eq.
      symmetry. now apply (convertedEntry_source cur _ dir c).
    + rewrite lookup_insert_eq. symmetry. now apply convertedEntry_tsconfig.
  - intros x r.
    rewrite lookup_insert_ne by (apply not_eq_sym, Hlen).
    rewrite lookup_delete_ne by (apply not_eq_sym, Hlen).
    rewrite (below_file cur dir _ c) by assumption.
    symmetry. apply convertedEntry_below_nothing.
    intros y. now apply (below_file cur dir _ c).
  - intros q G.
    rewrite lookup_insert_ne, lookup_delete_ne; [reflexivity | |];
      apply not_eq_sym.
    + now apply (outside_group dir "jsconfig.json" "jsconfig.json").
    + now apply (outside_group dir "jsconfig.json" "tsconfig.json").
Qed.

(** Visiting a file. *)
Lemma visit_file dir n cur c :
  converting root0 fuel0 cur -> within root0 dir ->
  cur !! (n :: dir) = Some (File c) ->
  exists cur1 : fs,
    convertFile (n :: dir) cur = Ret cur1 /\ converting root0 fuel0 cur1 /\
    forall q, cur1 !! q
              = if decide (convertGroup dir q = Some n)
                then convertedEntry cur q else cur !! q.
Proof.
  intros Hinv Hin He.
  destruct (name_cases n) as [s -> | -> | s -> | -> | H1 H2 H3].
  - now apply (visit_js dir s cur c).
  - now apply (visit_jsconfig dir cur c).
  - apply (visit_other dir _ cur c); auto. apply ts_not_source.
  - now apply (visit_other dir _ cur c).
  - now apply (visit_other dir _ cur c).
Qed.

End ConvertTraversal.

Section ConvertSpec.

Variable root0 : path.
Variable fuel0 : nat.

Implicit Types (st cur : fs) (dir d q : path) (n m : string).

(** The pre-order traversal with the callback of lines 298-309 converts
    what lies below the directory, entry by entry, and leaves the rest. *)
Lemma convertJsToTs_spec (fuel : nat) :
  forall dir st,
    converting root0 fuel0 st -> st !! dir = Some Dir -> within root0 dir ->
    length root0 + fuel0 <= length dir + fuel ->
    exists st' : fs,
      convertJsToTs fuel dir st = Ret st' /\ converting root0 fuel0 st' /\
      forall q, st' !! q
                = match relTo dir q with
                  | Some (_ :: _) => convertedEntry st q
                  | _ => st !! q
                  end.
Proof.
  induction fuel as [| k IH]; intros dir st Hinv Hdir Hin Hfuel.
  - exfalso. destruct Hinv as (_ & _ & Hfit & _).
    specialize (Hfit dir Hin). rewrite Hdir in Hfit.
    specialize (Hfit (mk_is_Some _ _ eq_refl)). lia.
  - unfold convertJsToTs. cbn [preOrderDirectoryTraverse].
    unfold readdirSync. rewrite Hdir. cbn [bind].
    match goal with |- context [forEach _ ?f _] => set (step := f) end.
    destruct (forEach_groups dir (convertGroup dir) convertedEntry step
                (converting root0 fuel0))
      with (ns := entries st dir) (cur := st)
      as (st' & Hrun & Hinv' & Hpt).
    + (* the rule reads the group only *)
      intros g cur cur' Hag q Hq.
      destruct (path_cases dir q) as [E | [-> | [[m ->] | (x & r & m & ->)]]].
      * rewrite convertGroup_none in Hq by assumption. discriminate.
      * rewrite convertGroup_dir in Hq. discriminate.
      * rewrite convertGroup_child in Hq. injection Hq as Hq.
        apply convertedEntry_agree; apply Hag; rewrite convertGroup_child;
          [| rewrite sourceName_idem]; congruence.
      * rewrite convertGroup_deep in Hq. injection Hq as ->.
        apply convertedEntry_agree; apply Hag; apply convertGroup_deep.
    + (* the rule keeps the other entries of the directory *)
      intros cur n n' Hne G [e He].
      rewrite convertGroup_child in G. injection G as G.
      assert (Hs : isSource n' = false).
      { apply sourceName_isSource. congruence. }
      unfold convertedEntry. rewrite Hs, He.
      destruct (endsWith n' ".ts"); [eauto |].
      destruct (String.eqb n' "tsconfig.json"); [| eauto].
      destruct (cur !! (sourceName n' :: dir)) as [[c |] |]; eauto.
    + (* one entry *)
      intros n cur Hinvc [e He]. subst step. cbn beta.
      unfold isDirectory. rewrite He. destruct e as [c |]; cbn [bind].
      * now apply (visit_file root0 fuel0 dir n cur c).
      * assert (existsSync cur (n :: dir) = true) as ->.
        { apply existsSync_true. eauto. }
        change (preOrderDirectoryTraverse k (n :: dir) (fun _ st => Ret st)
                  convertFile cur)
          with (convertJsToTs k (n :: dir) cur).
        destruct (IH (n :: dir) cur Hinvc He) as (st1 & Hrun1 & Hinv1 & Hpt1).
        { now apply within_cons. }
        { cbn [length]. lia. }
        exists st1. split; [exact Hrun1 |]. split; [exact Hinv1 |].
        apply visit_pointwise.
        -- intros m Hm. rewrite Hpt1, relTo_cons_child.
           rewrite convertedEntry_no_source.
           ++ now destruct (decide (m = n)).
           ++ intros c. rewrite Hm, He. discriminate.
        -- intros x r. rewrite Hpt1, relTo_cons_deep.
           now rewrite decide_True.
        -- intros q G. rewrite Hpt1.
           destruct (path_cases dir q)
             as [E | [-> | [[m ->] | (x & r & m & ->)]]].
           ++ now rewrite relTo_none_cons.
           ++ now rewrite relTo_cons_dir.
           ++ rewrite relTo_cons_child. now destruct (decide (m = n)).
           ++ rewrite relTo_cons_deep. rewrite convertGroup_deep in G.
              rewrite decide_False; [reflexivity | congruence].
    + apply NoDup_entries.
    + assumption.
    + intros n. apply elem_of_entries.
    + exists st'. split; [assumption |]. split; [assumption |].
      assert (Hwf : wellFormed st) by apply Hinv.
      intros q. rewrite Hpt.
      destruct (path_cases dir q) as [E | [-> | [[m ->] | (x & r & m & ->)]]].
      * now rewrite convertGroup_none, E.
      * now rewrite convertGroup_dir, relTo_self.
      * rewrite convertGroup_child, relTo_child.
        case_decide as Hm; [reflexivity |].
        rewrite elem_of_entries in Hm. apply eq_None_not_Some in Hm.
        symmetry. apply convertedEntry_no_source.
        intros c. rewrite Hm. discriminate.
      * rewrite convertGroup_deep, relTo_deep.
        case_decide as Hm; [reflexivity |].
        rewrite elem_of_entries in Hm. apply eq_None_not_Some in Hm.
        rewrite (below_absent st dir m) by assumption.
        symmetry. apply convertedEntry_below_nothing.
        intros y. now apply below_absent.
Qed.

End ConvertSpec.

Lemma noConfigClashb_sound (root : path) (st : fs) :
  noConfigClashb st = true -> noConfigClash root st.
Proof.
  unfold noConfigClashb. rewrite forallb_forall. intros H d c _ Hjs Hts.
  specialize (H ("jsconfig.json" :: d, File c)). cbn beta iota in H.
  rewrite bool_decide_eq_true_2 in H by assumption.
  discriminate H.
  apply list_elem_of_In. now apply elem_of_map_to_list.
Qed.

(** C8: when TypeScript is requested, the conversion takes every file
    [x.js] of the rendered tree: if [x.ts] exists next to it, [x.js] is
    removed and [x.ts] is as it was; otherwise [x.js] is renamed to [x.ts],
    with its content.  The pass runs to its end on a well-formed tree that
    holds [index.html] and in which no [jsconfig.json] lies next to a
    directory [tsconfig.json].  (The traversal is the one of the spec,
    section 4.2.) *)
Theorem C8_language_conversion (fuel : nat) (root : path) (st : fs) :
  wellFormed st -> st !! root = Some Dir -> fitsDepth root fuel st ->
  noConfigClash root st ->
  (exists html, st !! ("index.html" :: root) = Some (File html)) ->
  exists st' : fs,
    typescriptCleanup fuel root st = Ret st' /\
    forall (d : path) (stem c : string),
      within root d ->
      st !! ((stem +:+ ".js") :: d) = Some (File c) ->
      st' !! ((stem +:+ ".js") :: d) = None /\
      st' !! ((stem +:+ ".ts") :: d)
        = match st !! ((stem +:+ ".ts") :: d) with
          | Some e => Some e
          | None => Some (File c)
          end.
Proof.
  intros Hwf Hroot Hfit Hcl [html Hhtml].
  destruct (convertJsToTs_spec root fuel fuel root st)
    as (st1 & Hrun & Hinv1 & Hpt); auto using within_refl.
  { repeat split; auto. }
  unfold typescriptCleanup. rewrite Hrun. cbn [bind].
  assert (Hother : forall q, convertedEntry st ("index.html" :: q)
                             = st !! ("index.html" :: q)).
  { intros q. reflexivity. }
  unfold renameEntryInIndexHtml, readFileSync.
  rewrite Hpt, relTo_child, Hother, Hhtml. cbn [bind].
  unfold writeFileSync.
  rewrite Hpt, relTo_child, Hother, Hhtml.
  unfold parentIsDir. rewrite Hpt, relTo_self.
  rewrite bool_decide_eq_true_2 by assumption.
  eexists. split; [reflexivity |].
  intros d stem c [r ->] Hjs.
  assert (Hrel : forall x, relTo root (x :: r ++ root) = Some (x :: r)).
  { intros x. now apply relTo_spec. }
  split.
  - rewrite lookup_insert_ne.
    + rewrite Hpt, Hrel.
      apply (convertedEntry_source st _ _ c); [apply js_isSource | assumption].
    + intros [= E _]. pose proof (endsWith_append stem ".js") as H.
      rewrite <- E in H. discriminate H.
  - rewrite lookup_insert_ne.
    + rewrite Hpt, Hrel. now apply convertedEntry_ts.
    + intros [= E _]. pose proof (endsWith_append stem ".ts") as H.
      rewrite <- E in H. discriminate H.
Qed.

(** The pass on a small project: [a.js] becomes [a.ts], [b.js] goes and
    [b.ts] stays as it was, [jsconfig.json] becomes [tsconfig.json], and the
    entry in [index.html] is renamed. *)
Example typescriptCleanup_example :
  (st' ← match
           typescriptCleanup 3 ["demo"]
             (list_to_map
                [([], Dir); (["demo"], Dir);
                 (["index.html"; "demo"], File "<script src=/src/main.js>");
                 (["jsconfig.json"; "demo"], File "{}");
                 (["src"; "demo"], Dir);
                 (["a.js"; "src"; "demo"], File "a");
                 (["b.js"; "src"; "demo"], File "b");
                 (["b.ts"; "src"; "demo"], File "typed b")])
         with
         | Ret st' => Some st'
         | _ => None
         end;
   Some (st' !! ["a.js"; "src"; "demo"], st' !! ["a.ts"; "src"; "demo"],
         st' !! ["b.js"; "src"; "demo"], st' !! ["b.ts"; "src"; "demo"],
         st' !! ["jsconfig.json"; "demo"], st' !! ["tsconfig.json"; "demo"],
         st' !! ["index.html"; "demo"]))
  = Some (None, Some (File "a"), None, Some (File "typed b"),
          None, Some (File "{}"), Some (File "<script src=/src/main.ts>")).
Proof. vm_compute. reflexivity. Qed.

(** A project with [src/a.js] alone, with [src/b.js] next to [src/b.ts],
    and with [jsconfig.json] and [index.html]. *)
Lemma C8_language_conversion_witness :
  let st : fs :=
    list_to_map
      [([], Dir); (["demo"], Dir);
       (["index.html"; "demo"], File "<script src=/src/main.js>");
       (["jsconfig.json"; "demo"], File "{}");
       (["src"; "demo"], Dir);
       (["a.js"; "src"; "demo"], File "a");
       (["b.js"; "src"; "demo"], File "b");
       (["b.ts"; "src"; "demo"], File "typed b")] in
  exists st' : fs,
    typescriptCleanup 3 ["demo"] st = Ret st' /\
    forall (d : path) (stem c : string),
      within ["demo"] d ->
      st !! ((stem +:+ ".js") :: d) = Some (File c) ->
      st' !! ((stem +:+ ".js") :: d) = None /\
      st' !! ((stem +:+ ".ts") :: d)
        = match st !! ((stem +:+ ".ts") :: d) with
          | Some e => Some e
          | None => Some (File c)
          end.
Proof.
  intros st. apply (C8_language_conversion 3 ["demo"] st).
  - apply wellFormedb_sound. vm_compute. reflexivity.
  - vm_compute. reflexivity.
  - apply fitsDepthb_sound. vm_compute. reflexivity.
  - apply noConfigClashb_sound. vm_compute. reflexivity.
  - eexists. vm_compute. reflexivity.
Defined.

(** ** Which questions are asked *)

Section AskedFacts.

Context {S : Type}.
Implicit Types (qs : list (question S)) (user : string -> response).

(** A prompt is shown for a question whose [type] is not [null]. *)
Lemma prompts_asked qs cancelled user s answers n r :
  (n, r) ∈ fst (prompts qs cancelled user s answers) ->
  exists q s' answers' k,
    q ∈ qs /\ name q = n /\ type q s' answers' = Ret (Some k).
Proof.
  revert s answers. induction qs as [| q qs IH]; intros s answers.
  - intros H. inversion H.
  - rewrite prompts_cons.
    destruct (type q s answers) as [[k |] | e |] eqn:T.
    + assert (Hq : exists q' s' answers' k',
                 q' ∈ q :: qs /\ name q' = name q /\
                 type q' s' answers' = Ret (Some k')).
      { exists q, s, answers, k. repeat split; auto. left. }
      destruct (user (name q)) as [v |].
      * specialize (IH (onState q v s) (<[name q := v]> answers)).
        destruct (prompts qs cancelled user (onState q v s)
                    (<[name q := v]> answers)) as [t r']. cbn [fst] in *.
        intros H. apply elem_of_cons in H as [H | H].
        -- injection H as -> _. exact Hq.
        -- destruct (IH H) as (q' & s' & a' & k' & Hin & Hn & Ht).
           exists q', s', a', k'. repeat split; auto. now right.
      * cbn [fst]. intros H. apply elem_of_cons in H as [H | H].
        -- injection H as -> _. exact Hq.
        -- inversion H.
    + intros H. destruct (IH _ _ H) as (q' & s' & a' & k' & Hin & Hn & Ht).
      exists q', s', a', k'. repeat split; auto. now right.
    + intros H. inversion H.
    + intros H. inversion H.
Qed.

(** An answer was there before, or was submitted. *)
Lemma prompts_answers qs cancelled user s answers s' answers' n v :
  snd (prompts qs cancelled user s answers) = Ret (s', answers') ->
  answers' !! n = Some v ->
  answers !! n = Some v \/
  (n, Submit v) ∈ fst (prompts qs cancelled user s answers).
Proof.
  revert s answers. induction qs as [| q qs IH]; intros s answers.
  - cbn. intros [= <- <-]. auto.
  - rewrite prompts_cons.
    destruct (type q s answers) as [[k |] | e |] eqn:T;
      [| now apply IH | discriminate | discriminate].
    destruct (user (name q)) as [w |]; [| discriminate].
    specialize (IH (onState q w s) (<[name q := w]> answers)).
    destruct (prompts qs cancelled user (onState q w s)
                (<[name q := w]> answers)) as [t r']. cbn [fst snd] in *.
    intros Hr Hn. destruct (IH Hr Hn) as [H | H].
    + apply lookup_insert_Some in H as [[<- <-] | [_ H]]; [| now left].
      right. left.
    + right. now right.
Qed.

End AskedFacts.

Section FlagFacts.

Variable banner : string.
Variable red : string -> string.

Implicit Types (a : argv) (cwd : path) (st : fs) (user : string -> response).





End FlagFacts.

Section SkippedFacts.

Variable banner : string.
Variable red : string -> string.

Implicit Types (a : argv) (cwd : path) (st : fs) (user : string -> response).


(** With [--force] the confirmation is not asked. *)
Lemma force_skips_confirmation a cwd st user (r : response) :
  truthy (get a "force") = true ->
  ("shouldOverwrite", r) ∉ fst (fst (resolveInput banner red a cwd st user)).
Proof.
  intros Hforce Hin. rewrite resolveInput_transcript in Hin.
  apply prompts_asked in Hin as (q & s' & ans' & k & Hq & Hname & Htype).
  unfold questions, featureToggle in Hq.
  repeat (apply elem_of_cons in Hq as [-> | Hq];
          [cbn [name type] in *; try discriminate Hname |]).
  2: inversion Hq.
  destruct (canSafelyOverwriteValue cwd st s') as [safe | e |];
    cbn [bind] in Htype; try discriminate Htype.
  assert (truthy (or_ (VBool safe) (get a "force")) = true) as E.
  { unfold or_. destruct safe; cbn [truthy]; auto. }
  rewrite E in Htype. discriminate Htype.
Qed.

(** What was not asked is not among the answers. *)
Lemma unasked_unanswered a cwd st user (n : string) (res : resolved) :
  snd (resolveInput banner red a cwd st user) = Continue res ->
  (forall r, (n, r) ∉ fst (fst (resolveInput banner red a cwd st user))) ->
  result res !! n = None.
Proof.
  intros Hres Hno.
  destruct (result res !! n) as [v |] eqn:E; [| reflexivity].
  exfalso. apply (Hno (Submit v)). rewrite resolveInput_transcript.
  unfold resolveInput in Hres.
  set (s0 := match positional a with w :: _ => VString w | [] => VUndefined end)
    in *.
  pose proof (prompts_answers (questions red a cwd st) (operationCancelled red)
                user s0 ∅) as H.
  destruct (prompts (questions red a cwd st) (operationCancelled red) user s0 ∅)
    as [t [[s' ans'] | e |]]; cbn [snd] in Hres; try discriminate Hres.
  injection Hres as <-. cbn [result] in E. cbn [fst snd] in *.
  destruct (H s' ans' n v eq_refl E) as [H' | H']; [| exact H'].
  rewrite lookup_empty in H'. discriminate.
Qed.

(** With [--force], [shouldOverwrite] is undefined and an existing target
    directory is left as it is. *)
Lemma force_keeps_directory a cwd st user (fuel : nat) (res : resolved) :
  truthy (get a "force") = true ->
  snd (resolveInput banner red a cwd st user) = Continue res ->
  st !! pathJoin cwd (toString (targetDir res)) = Some Dir ->
  shouldOverwrite (config res) = VUndefined /\
  prepareRoot fuel cwd res st
  = Ret (pathJoin cwd (toString (targetDir res)), st).
Proof.
  intros Hforce Hres Hex.
  assert (Hnone : result res !! "shouldOverwrite" = None).
  { apply (unasked_unanswered a cwd st user); [assumption |].
    intros r. now apply force_skips_confirmation. }
  assert (Hso : shouldOverwrite (config res) = VUndefined).
  { unfold resolveInput in Hres.
    destruct (prompts _ _ _ _ _) as [t [[s' ans'] | e |]];
      cbn [snd] in Hres; try discriminate Hres.
    injection Hres as <-. cbn [config result destructure shouldOverwrite] in *.
    now rewrite Hnone. }
  split; [exact Hso |].
  unfold prepareRoot, existsSyncDir. rewrite Hso. cbn [truthy].
  now rewrite Hex.
Qed.

(** After a confirmation the target directory is emptied. *)
Lemma confirmed_empties_directory cwd st (fuel : nat) (res : resolved) :
  truthy (shouldOverwrite (config res)) = true ->
  wellFormed st ->
  st !! pathJoin cwd (toString (targetDir res)) = Some Dir ->
  fitsDepth (pathJoin cwd (toString (targetDir res))) fuel st ->
  exists st' : fs,
    prepareRoot fuel cwd res st
    = Ret (pathJoin cwd (toString (targetDir res)), st') /\
    forall q, below (pathJoin cwd (toString (targetDir res))) q ->
              st' !! q = None.
Proof.
  intros Hso Hwf Hroot Hfit. unfold prepareRoot. rewrite Hso.
  destruct (emptyDir_spec fuel _ st Hwf Hroot Hfit) as (st' & Hrun & _ & Hpt).
  rewrite Hrun. cbn [bind]. exists st'. split; [reflexivity |].
  intros q Hq. rewrite Hpt.
  apply below_relTo in Hq as (n & r & ->).
  now destruct r.
Qed.


End SkippedFacts.

(* ===================================================================== *)
(** * Part III: further properties of the code *)
(* ===================================================================== *)

Import NameShape Report Flags EntryNames.

(** ** Package names (index.js, lines 18-29) *)

Section NameShapeFacts.

Lemma append_assoc (s t u : string) : (s +:+ t) +:+ u = s +:+ t +:+ u.
Proof.
  induction s as [| c s IH]; [reflexivity |].
  rewrite !append_cons. by rewrite IH.
Qed.

Lemma lang_set_inv (C : ascii -> bool) (s : string) :
  lang (Set_ C) s -> exists c, s = String c "" /\ C c = true.
Proof. inversion 1; eauto. Qed.

Lemma lang_star_class_inv (C : ascii -> bool) (t : string) :
  lang (Star (Set_ C)) t -> allChars C t = true.
Proof.
  intros H. remember (Star (Set_ C)) as r eqn:E.
  induction H; try discriminate.
  - reflexivity.
  - injection E as ->. apply lang_set_inv in H as (c & -> & Hc).
    change (String c "" +:+ t) with (String c t). cbn.
    rewrite Hc. apply IHlang2. reflexivity.
Qed.

(** A character of the class [H], then characters of the class [T]. *)
Lemma lang_head_tail (H T : ascii -> bool) (s : string) :
  lang (Cat (Set_ H) (Star (Set_ T))) s
  <-> exists c t, s = String c t /\ H c = true /\ allChars T t = true.
Proof.
  split.
  - inversion 1 as [| | a b s1 s2 H1 H2 | | | |]; subst.
    apply lang_set_inv in H1 as (c & -> & Hc).
    exists c, s2. split; [reflexivity |].
    split; [exact Hc | by apply lang_star_class_inv].
  - intros (c & t & -> & Hc & Ht).
    change (String c t) with (String c "" +:+ t).
    constructor; [by constructor | by apply lang_star_class].
Qed.

Lemma unscoped_lang (s : string) :
  unscoped s = true <-> lang (Cat (Set_ nameHead) (Star (Set_ nameTail))) s.
Proof.
  rewrite lang_head_tail. split.
  - destruct s as [| c t]; [discriminate |].
    intros [Hc Ht]%andb_prop. by exists c, t.
  - intros (c & t & -> & Hc & Ht). cbn. by rewrite Hc, Ht.
Qed.

Lemma scope_lang (s : string) :
  scope s = true <-> lang (Cat (Set_ scopeHead) (Star (Set_ scopeTail))) s.
Proof.
  rewrite lang_head_tail. split.
  - destruct s as [| c t]; [discriminate |].
    intros [Hc Ht]%andb_prop. by exists c, t.
  - intros (c & t & -> & Hc & Ht). cbn. by rewrite Hc, Ht.
Qed.

Lemma lang_chr_inv (c : ascii) (s : string) :
  lang (Chr c) s -> s = String c "".
Proof.
  intros (d & -> & Hd)%lang_set_inv.
  apply Ascii.eqb_eq in Hd. by subst.
Qed.

Lemma lang_chr (c : ascii) : lang (Chr c) (String c "").
Proof. constructor. apply Ascii.eqb_refl. Qed.

(** The names that the pattern of [isValidPackageName] accepts. *)
Lemma valid_shape (s : string) :
  isValidPackageName s = true
  <-> unscoped s = true \/
      exists sc nm : string,
        s = "@" +:+ sc +:+ "/" +:+ nm /\ scope sc = true /\ unscoped nm = true.
Proof.
  unfold isValidPackageName. rewrite test_lang. split.
  - inversion 1 as [| | a b s1 s2 Hopt Hname | | | |]; subst.
    apply unscoped_lang in Hname.
    inversion Hopt as [| | | a b s Hscoped | a b s Hnone | |]; subst.
    + right. inversion Hscoped as [| | a b t1 t2 Hat Hrest | | | |]; subst.
      apply lang_chr_inv in Hat as ->.
      inversion Hrest as [| | a b u1 u2 Hh Hrest' | | | |]; subst.
      inversion Hrest' as [| | a b v1 v2 Ht Hslash | | | |]; subst.
      apply lang_chr_inv in Hslash as ->.
      exists (u1 +:+ v1), s2. split.
      * rewrite !append_assoc. reflexivity.
      * split; [| exact Hname]. apply scope_lang.
        by constructor.
    + left. inversion Hnone; subst. exact Hname.
  - intros [Hname | (sc & nm & -> & Hsc & Hnm)].
    + change s with ("" +:+ s). constructor.
      * apply lang_alt_r. constructor.
      * by apply unscoped_lang.
    + apply scope_lang in Hsc.
      inversion Hsc as [| | a b u1 u2 Hh Ht | | | |]; subst.
      replace ("@" +:+ (u1 +:+ u2) +:+ "/" +:+ nm)
        with (("@" +:+ u1 +:+ u2 +:+ "/") +:+ nm)
        by (rewrite !append_assoc; reflexivity).
      constructor; [| by apply unscoped_lang].
      apply lang_alt_l.
      constructor; [apply lang_chr |].
      constructor; [exact Hh |].
      constructor; [exact Ht | apply lang_chr].
Qed.

End NameShapeFacts.

(** X1: [isValidPackageName] accepts exactly the names without scope, a
    character of [[a-z0-9-~]] followed by characters of [[a-z0-9-._~]], and
    the names [@scope/name] whose scope is a character of [[a-z0-9-*~]]
    followed by characters of [[a-z0-9-*._~]] and whose name is a name
    without scope. *)
Theorem X1_valid_package_names (s : string) :
  isValidPackageName s = true
  <-> unscoped s = true \/
      exists sc nm : string,
        s = "@" +:+ sc +:+ "/" +:+ nm /\ scope sc = true /\ unscoped nm = true.
Proof. exact (valid_shape s). Qed.

(** X2: the result of [toValidPackageName] is made of characters of
    [[a-z0-9-~]] only, and the names it leaves as they are are exactly the
    names made of such characters. *)
Theorem X2_normalised_alphabet (s : string) :
  allChars nameHead (toValidPackageName s) = true /\
  (toValidPackageName s = s <-> allChars nameHead s = true).
Proof.
  split; [apply toValidPackageName_chars |].
  split; [| apply toValidPackageName_clean].
  intros <-. apply toValidPackageName_chars.
Qed.

Section EmptyName.

Lemma toLower_class (c : ascii) :
  isSpace (toLower c) = isSpace c /\
  (dotOrUnderscore (toLower c) = true -> c = "."%char \/ c = "_"%char).
Proof.
  destruct c as [[] [] [] [] [] [] [] []];
    (split; [reflexivity | vm_compute; intros; first [discriminate | tauto]]).
Qed.

Lemma dotOrUnderscore_char (c : ascii) :
  c = "."%char \/ c = "_"%char -> dotOrUnderscore (toLower c) = true.
Proof. by intros [-> | ->]. Qed.

Lemma trimStart_head (s : string) (c : ascii) (r : string) :
  trimStart s = String c r -> isSpace c = false.
Proof.
  induction s as [| d s IH]; [discriminate |].
  cbn. destruct (isSpace d) eqn:Ed; [exact IH |].
  by intros [= <- _].
Qed.

Lemma trimEnd_head (s : string) (c : ascii) (r : string) :
  trimEnd s = String c r -> exists r', s = String c r'.
Proof.
  destruct s as [| d s]; [discriminate |].
  cbn. destruct (trimEnd s); [destruct (isSpace d) |];
    intros [= <- _]; eauto.
Qed.

(** What [trim] leaves starts with a character that is no white space. *)
Lemma trim_head (s : string) (c : ascii) (r : string) :
  trim s = String c r -> isSpace c = false.
Proof.
  unfold trim. intros (r' & E)%trimEnd_head.
  by apply trimStart_head in E.
Qed.

Lemma replaceRuns_empty (C : ascii -> bool) (s : string) :
  replaceRuns C "-" false s = "" <-> s = "".
Proof.
  destruct s as [| c s]; [done |].
  cbn. destruct (C c); [rewrite append_cons |]; done.
Qed.

Lemma toLowerCase_empty (s : string) : toLowerCase s = "" <-> s = "".
Proof. by destruct s. Qed.

Lemma toValidPackageName_empty (s : string) :
  toValidPackageName s = ""
  <-> trim s = "" \/ trim s = "." \/ trim s = "_".
Proof.
  unfold toValidPackageName.
  destruct (trim s) as [| c r] eqn:E.
  { split; [by left | reflexivity]. }
  apply trim_head in E.
  destruct (toLower_class c) as [Hsp Hdot].
  cbn [toLowerCase replaceRuns]. rewrite Hsp, E.
  cbn [replaceFirstAtStart].
  destruct (dotOrUnderscore (toLower c)) eqn:Ed.
  - change ("" +:+ ?t) with t.
    rewrite replaceRuns_empty, replaceRuns_empty, toLowerCase_empty.
    split.
    + intros ->. destruct (Hdot eq_refl) as [-> | ->]; auto.
    + intros [? | [[= _ ->] | [= _ ->]]]; done.
  - rewrite replaceRuns_empty. split; [discriminate |].
    intros [? | [[= -> _] | [= -> _]]]; try discriminate;
      rewrite dotOrUnderscore_char in Ed by auto; discriminate.
Qed.

(** A valid name begins with a character of [[a-z0-9-~]] or with [@]. *)
Lemma valid_head (s : string) :
  isValidPackageName s = true ->
  exists c t, s = String c t /\ (nameHead c = true \/ c = "@"%char).
Proof.
  intros [Hs | (sc & nm & -> & _)]%valid_shape.
  - destruct s as [| c t]; [discriminate |].
    apply andb_prop in Hs as [Hc _]. eauto.
  - exists "@"%char, (sc +:+ "/" +:+ nm). auto.
Qed.

Lemma trimEnd_keeps_head (c : ascii) (t : string) :
  isSpace c = false -> exists t', trimEnd (String c t) = String c t'.
Proof.
  intros Hc. cbn. rewrite Hc. destruct (trimEnd t); eauto.
Qed.

Lemma valid_normalised (s : string) :
  isValidPackageName s = true ->
  toValidPackageName s <> "" /\
  isValidPackageName (toValidPackageName s) = true.
Proof.
  intros (c & t & -> & Hc)%valid_head.
  assert (isSpace c = false /\ dotOrUnderscore c = false) as [Hsp Hdot].
  { destruct Hc as [Hc | ->]; [| done].
    by destruct (nameHead_char c Hc) as (? & _ & ? & _). }
  assert (toValidPackageName (String c t) <> "") as Hne.
  { rewrite toValidPackageName_empty. unfold trim. cbn [trimStart].
    rewrite Hsp.
    destruct (trimEnd_keeps_head c t Hsp) as [t' ->].
    intros [? | [[= -> _] | [= -> _]]]; discriminate. }
  split; [exact Hne |].
  apply isValidPackageName_clean; [exact Hne |].
  apply toValidPackageName_chars.
Qed.

End EmptyName.

(** X3: [toValidPackageName] returns the empty string exactly for the
    names that [trim] turns into the empty string, a dot or an
    underscore. *)
Theorem X3_normalised_name_empty (s : string) :
  toValidPackageName s = ""
  <-> trim s = "" \/ trim s = "." \/ trim s = "_".
Proof. exact (toValidPackageName_empty s). Qed.

(** X4: the normalised form of a valid package name is not empty and is a
    valid package name. *)
Theorem X4_valid_stays_valid (s : string) :
  isValidPackageName s = true ->
  toValidPackageName s <> "" /\
  isValidPackageName (toValidPackageName s) = true.
Proof. intros Hs. by apply valid_normalised. Qed.

Lemma X4_valid_stays_valid_witness :
  isValidPackageName "@vue/cli.app" = true /\
  toValidPackageName "@vue/cli.app" = "-vue-cli-app" /\
  isValidPackageName (toValidPackageName "@vue/cli.app") = true.
Proof.
  split; [reflexivity |]. split; [reflexivity |].
  apply (X4_valid_stays_valid "@vue/cli.app"). reflexivity.
Defined.

(** ** The target directory (index.js, lines 31-41) *)

Section DirectoryFacts.

Implicit Types (st : fs) (dir q : path).

Lemma entries_empty st dir :
  entries st dir = [] <-> forall n, st !! (n :: dir) = None.
Proof.
  split; [| apply entries_nil].
  intros E n. destruct (st !! (n :: dir)) as [e |] eqn:En; [| reflexivity].
  assert (n ∈ entries st dir) as Hn by (apply elem_of_entries; eauto).
  rewrite E in Hn. by apply elem_of_nil in Hn.
Qed.

Lemma entries_nonempty st dir :
  entries st dir <> [] <-> exists n, is_Some (st !! (n :: dir)).
Proof.
  split.
  - destruct (entries st dir) as [| n ns] eqn:E; [done |].
    intros _. exists n. apply elem_of_entries. rewrite E. by left.
  - intros [n Hn] E. apply elem_of_entries in Hn.
    rewrite E in Hn. by apply elem_of_nil in Hn.
Qed.

Lemma length_eqb_0 {A : Type} (l : list A) :
  Nat.eqb (length l) 0 = bool_decide (l = []).
Proof. by destruct l. Qed.

(** Whether [q] lies below [dir], read off [relTo]. *)
Lemma below_case dir q :
  match relTo dir q with
  | Some (_ :: _) => below dir q
  | _ => ~ below dir q
  end.
Proof.
  destruct (relTo dir q) as [[| x r] |] eqn:E.
  - intros (n & r & Hq)%below_relTo.
    rewrite E in Hq. injection Hq as Hq. by destruct r.
  - apply below_relTo. rewrite E.
    destruct (@exists_last _ (x :: r)) as (r' & n & ->); [done |].
    eauto.
  - intros (n & r & Hq)%below_relTo. by rewrite E in Hq.
Qed.

Lemma segments_plain (n : string) :
  existsb (Ascii.eqb "/") (list_ascii_of_string n) = false -> segments n = [n].
Proof.
  induction n as [| c n IH]; [reflexivity |].
  cbn [list_ascii_of_string existsb segments].
  intros [Hc Hn]%orb_false_iff. rewrite Ascii.eqb_sym, Hc.
  by rewrite (IH Hn).
Qed.

(** The name of an entry is followed from the working directory to that
    entry. *)
Lemma locate_plain (cwd : path) st (n : string) :
  plainName n = true -> st !! cwd = Some Dir ->
  locate cwd st n = Ret (n :: cwd).
Proof.
  unfold plainName. rewrite negb_true_iff, !orb_false_iff.
  intros [[[E1 E2] E3] E4] Hcwd. unfold locate.
  rewrite E1, (segments_plain n E4).
  assert (String.prefix "/" n = false) as ->.
  { destruct n as [| c n]; [reflexivity |].
    cbn [list_ascii_of_string existsb] in E4.
    apply orb_false_iff in E4 as [Hc _].
    cbn [String.prefix].
    destruct (ascii_dec "/" c) as [<- | _]; [discriminate | reflexivity]. }
  cbn [foldl bind]. unfold descend. by rewrite Hcwd, E1, E2, E3.
Qed.

End DirectoryFacts.

(** X5: [canSafelyOverwrite] is [true] for a path string that names
    nothing, because nothing is stored where it leads or because it cannot
    be followed (it is empty, or leads through a missing directory or a
    regular file), and for a directory without entries; it is [false] for a
    directory with an entry; and it throws what [readdirSync] throws,
    ENOTDIR, for a regular file.  The name of an entry is followed from
    the working directory to that entry. *)
Theorem X5_canSafelyOverwrite_cases (cwd : path) (st : fs) (dir : string) :
  (canSafelyOverwrite cwd st dir = Ret true
   <-> forall p, locate cwd st dir = Ret p ->
                 st !! p = None \/
                 (st !! p = Some Dir /\ forall n, st !! (n :: p) = None)) /\
  (canSafelyOverwrite cwd st dir = Ret false
   <-> exists p, locate cwd st dir = Ret p /\ st !! p = Some Dir /\
                 exists n, is_Some (st !! (n :: p))) /\
  (forall e, canSafelyOverwrite cwd st dir = Throw e
             <-> e = enotdir /\
                 exists p c, locate cwd st dir = Ret p /\
                             st !! p = Some (File c)) /\
  canSafelyOverwrite cwd st dir <> OutOfFuel /\
  (forall n, plainName n = true -> st !! cwd = Some Dir ->
             locate cwd st n = Ret (n :: cwd)).
Proof.
  split; [| split; [| split; [| split]]]; [| | | | apply locate_plain];
    unfold canSafelyOverwrite, existsSyncAt, readdirSyncAt, readdirSync;
    destruct (locate cwd st dir) as [p | e0 |] eqn:El; cbn [negb bind].
  - destruct (st !! p) as [[c |] |] eqn:E.
    + assert (existsSync st p = true) as -> by (apply existsSync_true; eauto).
      cbn. split; [discriminate |].
      intros H. destruct (H p eq_refl) as [? | [? _]]; congruence.
    + assert (existsSync st p = true) as -> by (apply existsSync_true; eauto).
      cbn. rewrite length_eqb_0. split.
      * intros [= Hb] p' [= <-]. right. split; [done |].
        apply entries_empty. by apply bool_decide_eq_true in Hb.
      * intros H. destruct (H p eq_refl) as [? | [_ Hn]]; [congruence |].
        f_equal. apply bool_decide_eq_true. by apply entries_empty.
    + assert (existsSync st p = false) as -> by by apply existsSync_false.
      cbn. split; [| done]. intros _ p' [= <-]. by left.
  - split; [| done]. intros _ p' Hp. discriminate.
  - split; [| done]. intros _ p' Hp. discriminate.
  - destruct (st !! p) as [[c |] |] eqn:E.
    + assert (existsSync st p = true) as -> by (apply existsSync_true; eauto).
      cbn. split; [discriminate |].
      intros (p' & [= <-] & ? & _). congruence.
    + assert (existsSync st p = true) as -> by (apply existsSync_true; eauto).
      cbn. rewrite length_eqb_0. split.
      * intros [= Hb]. exists p. split; [done |]. split; [done |].
        apply entries_nonempty. by apply bool_decide_eq_false in Hb.
      * intros (p' & [= <-] & _ & Hn). f_equal.
        apply bool_decide_eq_false. by apply entries_nonempty.
    + assert (existsSync st p = false) as -> by by apply existsSync_false.
      cbn. split; [discriminate |].
      intros (p' & [= <-] & ? & _). congruence.
  - split; [discriminate |]. intros (p' & ? & _). discriminate.
  - split; [discriminate |]. intros (p' & ? & _). discriminate.
  - intros e. destruct (st !! p) as [[c |] |] eqn:E.
    + assert (existsSync st p = true) as -> by (apply existsSync_true; eauto).
      cbn. split; [intros [= <-]; eauto | by intros [-> _]].
    + assert (existsSync st p = true) as -> by (apply existsSync_true; eauto).
      cbn. split; [discriminate |].
      intros (_ & p' & c & [= <-] & ?). congruence.
    + assert (existsSync st p = false) as -> by by apply existsSync_false.
      cbn. split; [discriminate |].
      intros (_ & p' & c & [= <-] & ?). congruence.
  - intros e. split; [discriminate |]. intros (_ & p' & c & ? & _). discriminate.
  - intros e. split; [discriminate |]. intros (_ & p' & c & ? & _). discriminate.
  - destruct (st !! p) as [[c |] |];
      destruct (existsSync st p); cbn; discriminate.
  - discriminate.
  - discriminate.
Qed.

(** X6: on a directory of a well-formed tree, with a recursion depth that
    reaches all that the directory holds, [emptyDir] (over the post-order
    traversal as the specification describes it) returns; it removes
    everything below the directory and nothing else, the directory itself
    stays, and [canSafelyOverwrite] is [true] of it afterwards. *)
Theorem X6_emptyDir_empties (fuel : nat) (dir : path) (st : fs) :
  wellFormed st -> st !! dir = Some Dir -> fitsDepth dir fuel st ->
  exists st' : fs,
    emptyDir fuel dir st = Ret st' /\
    wellFormed st' /\
    (forall q, below dir q -> st' !! q = None) /\
    (forall q, ~ below dir q -> st' !! q = st !! q) /\
    readdirSync st' dir = Ret [] /\
    (forall (cwd : path) (s : string),
        locate cwd st' s = Ret dir -> canSafelyOverwrite cwd st' s = Ret true).
Proof.
  intros Hwf Hdir Hfit.
  destruct (emptyDir_spec fuel dir st Hwf Hdir Hfit) as (st' & Hrun & Hwf' & Hst').
  assert (forall q, below dir q -> st' !! q = None) as Hbelow.
  { intros q Hq. rewrite Hst'. pose proof (below_case dir q) as Hc.
    destruct (relTo dir q) as [[| x r] |]; done. }
  assert (forall q, ~ below dir q -> st' !! q = st !! q) as Hrest.
  { intros q Hq. rewrite Hst'. pose proof (below_case dir q) as Hc.
    destruct (relTo dir q) as [[| x r] |]; done. }
  assert (st' !! dir = Some Dir) as Hdir'.
  { rewrite Hrest; [done |].
    intros Hq. pose proof (below_case dir dir) as Hc.
    rewrite relTo_self in Hc. done. }
  assert (entries st' dir = []) as Hnone.
  { apply entries_nil. intros n. apply Hbelow. by exists n, []. }
  exists st'. repeat split; try done.
  - unfold readdirSync. by rewrite Hdir', Hnone.
  - intros cwd s Hs.
    unfold canSafelyOverwrite, existsSyncAt, readdirSyncAt, readdirSync.
    rewrite Hs. cbn [bind]. rewrite Hdir', Hnone.
    by destruct (existsSync st' dir).
Qed.

Lemma X6_emptyDir_empties_witness :
  let st : fs :=
    list_to_map
      [([], Dir); (["work"], Dir); (["demo"; "work"], Dir);
       (["old.txt"; "demo"; "work"], File "x");
       (["src"; "demo"; "work"], Dir);
       (["main.js"; "src"; "demo"; "work"], File "main");
       (["notes.txt"; "work"], File "n")] in
  exists st' : fs,
    emptyDir 3 ["demo"; "work"] st = Ret st' /\
    wellFormed st' /\
    (forall q, below ["demo"; "work"] q -> st' !! q = None) /\
    (forall q, ~ below ["demo"; "work"] q -> st' !! q = st !! q) /\
    readdirSync st' ["demo"; "work"] = Ret [] /\
    (forall (cwd : path) (s : string),
        locate cwd st' s = Ret ["demo"; "work"] ->
        canSafelyOverwrite cwd st' s = Ret true).
Proof.
  intros st. apply (X6_emptyDir_empties 3 ["demo"; "work"] st).
  - apply wellFormedb_sound. vm_compute. reflexivity.
  - vm_compute. reflexivity.
  - apply fitsDepthb_sound. vm_compute. reflexivity.
Defined.

(** ** The feature flags (index.js, lines 57-78) *)

Section FlagCases.

Lemma typeof_or_keys (a : argv) (ks : list string) (w : value) :
  (forall k, k ∈ ks -> forall s, get a k <> VString s) ->
  String.eqb (typeof (foldr (fun k v => or_ (get a k) v) w ks)) "boolean" = true
  <-> (exists k, k ∈ ks /\ get a k = VBool true) \/
      String.eqb (typeof w) "boolean" = true.
Proof.
  induction ks as [| k ks IH]; intros Hks.
  - cbn [foldr]. split; [by right |].
    intros [(k & Hk & _) | H]; [| exact H]. by apply elem_of_nil in Hk.
  - cbn [foldr].
    assert (forall k', k' ∈ ks -> forall s, get a k' <> VString s) as Hks'.
    { intros k' Hk'. apply Hks. by right. }
    specialize (IH Hks').
    pose proof (Hks k (list_elem_of_here _ _)) as Hk.
    destruct (get a k) as [| [] | s] eqn:E.
    + change (or_ VUndefined ?v) with v. rewrite IH. split.
      * intros [(k' & Hk' & E') | H]; [left | by right].
        exists k'. split; [by right | exact E'].
      * intros [(k' & Hk' & E') | H]; [| by right].
        apply elem_of_cons in Hk' as [-> | Hk']; [congruence |].
        left. eauto.
    + split; [| reflexivity].
      intros _. left. exists k. split; [by left | exact E].
    + change (or_ (VBool false) ?v) with v. rewrite IH. split.
      * intros [(k' & Hk' & E') | H]; [left | by right].
        exists k'. split; [by right | exact E'].
      * intros [(k' & Hk' & E') | H]; [| by right].
        apply elem_of_cons in Hk' as [-> | Hk']; [congruence |].
        left. eauto.
    + by destruct (Hk s).
Qed.

Lemma booleanFlags_spec (a : argv) (k : string) :
  booleanFlags a = true -> k ∈ checkedFlags -> forall s, get a k <> VString s.
Proof.
  unfold booleanFlags. rewrite forallb_forall.
  intros Hb Hk s E. apply list_elem_of_In in Hk.
  specialize (Hb k Hk). by rewrite E in Hb.
Qed.

End FlagCases.

(** X7: when the seven options that [isFeatureFlagsUsed] reads are booleans
    or missing, it is [true] exactly when one of them is [true] or the
    last of them, [eslint], is [false]: a negated [eslint] counts as a
    feature flag, a negated other option does not. *)
Theorem X7_isFeatureFlagsUsed_cases (a : argv) :
  booleanFlags a = true ->
  (isFeatureFlagsUsed a = true
   <-> (exists k, k ∈ checkedFlags /\ get a k = VBool true) \/
       get a "eslint" = VBool false).
Proof.
  intros Hb.
  change (isFeatureFlagsUsed a)
    with (String.eqb
            (typeof (foldr (fun k v => or_ (get a k) v) (get a "eslint")
                       ["default"; "ts"; "jsx"; "router"; "pinia"; "tests"]))
            "boolean").
  rewrite typeof_or_keys.
  - pose proof (booleanFlags_spec a "eslint" Hb ltac:(in_list)) as He.
    split.
    + intros [(k & Hk & E) | H].
      * left. exists k. split; [| exact E].
        apply list_elem_of_In in Hk. apply list_elem_of_In.
        simpl in *. tauto.
      * destruct (get a "eslint") as [| [] | s] eqn:E;
          [discriminate | | by right | by destruct (He s)].
        left. exists "eslint". split; [in_list | exact E].
    + intros [(k & Hk & E) | H].
      * apply list_elem_of_In in Hk. simpl in Hk.
        destruct (decide (k = "eslint")) as [-> | Hne].
        -- right. by rewrite E.
        -- left. exists k. split; [| exact E].
           apply list_elem_of_In. simpl.
           repeat (destruct Hk as [Hk | Hk]; [first [tauto | congruence] |]).
           tauto.
      * right. by rewrite H.
  - intros k Hk. apply (booleanFlags_spec a k Hb).
    apply list_elem_of_In in Hk. apply list_elem_of_In.
    simpl in *. tauto.
Qed.

Lemma X7_isFeatureFlagsUsed_cases_witness :
  let a := Argv [] {[ "eslint" := VBool false; "ts" := VBool false ]} in
  booleanFlags a = true /\
  (isFeatureFlagsUsed a = true
   <-> (exists k, k ∈ checkedFlags /\ get a k = VBool true) \/
       get a "eslint" = VBool false).
Proof.
  intros a. split; [reflexivity |].
  apply (X7_isFeatureFlagsUsed_cases a). reflexivity.
Defined.

(** ** The questions (index.js, lines 80-219) *)

Section QuietQuestions.

Context {S : Type}.
Implicit Types (qs : list (question S)) (user : string -> response).

(** Questions that do not assign the variables leave them as they are; an
    answer is stored under the name of its question. *)
Lemma prompts_quiet qs cancelled user s answers s' answers' :
  (forall q, q ∈ qs -> forall v s0, onState q v s0 = s0) ->
  snd (prompts qs cancelled user s answers) = Ret (s', answers') ->
  s' = s /\
  forall n, n ∉ List.map name qs -> answers' !! n = answers !! n.
Proof.
  revert s answers. induction qs as [| q qs IH]; intros s answers Hq.
  - cbn. by intros [= -> ->].
  - rewrite prompts_cons.
    assert (forall q', q' ∈ qs -> forall v s0, onState q' v s0 = s0) as Hqs.
    { intros q' Hq'. apply Hq. by right. }
    destruct (type q s answers) as [[k |] | e |]; cbn [snd];
      try discriminate.
    + destruct (user (name q)) as [v |]; [| discriminate].
      rewrite (Hq q (list_elem_of_here _ _)).
      destruct (prompts qs cancelled user s (<[name q := v]> answers))
        as [t r] eqn:E.
      cbn [snd]. intros ->.
      specialize (IH s (<[name q := v]> answers) Hqs).
      rewrite E in IH. destruct (IH eq_refl) as [-> Hans].
      split; [done |]. intros n Hn. cbn [List.map] in Hn.
      apply not_elem_of_cons in Hn as [Hne Hn].
      rewrite Hans by done. by rewrite lookup_insert_ne.
    + intros H. destruct (IH s answers Hqs H) as [-> Hans].
      split; [done |]. intros n Hn. apply Hans. cbn [List.map] in Hn.
      by apply not_elem_of_cons in Hn as [_ ?].
Qed.

End QuietQuestions.

Section Through.

Variable red : string -> string.

Implicit Types (a : argv) (cwd : path) (st : fs) (user : string -> response).
Implicit Types (s : value) (ans : gmap string value).

(** The questions about features. *)
Lemma features_through a cwd st user s ans s' ans' :
  snd (prompts (drop 4 (questions red a cwd st)) (operationCancelled red)
         user s ans) = Ret (s', ans') ->
  s' = s /\ forall n, n ∉ featureQuestions -> ans' !! n = ans !! n.
Proof.
  intros H.
  assert (forall q, q ∈ drop 4 (questions red a cwd st) ->
                    forall v s0, onState q v s0 = s0) as Hq.
  { intros q Hq. unfold questions in Hq. cbn [drop] in Hq.
    repeat (apply elem_of_cons in Hq as [-> | Hq]; [reflexivity |]).
    by apply elem_of_nil in Hq. }
  destruct (prompts_quiet _ _ _ _ _ _ _ Hq H) as [-> Hans].
  split; [done |]. intros n Hn. apply Hans. exact Hn.
Qed.

(** The question for the package name, and what follows it. *)
Lemma packageName_through a cwd st user s ans s' ans' :
  ans !! "packageName" = None ->
  snd (prompts (drop 3 (questions red a cwd st)) (operationCancelled red)
         user s ans) = Ret (s', ans') ->
  s' = s /\
  (forall n, n ∉ "packageName" :: featureQuestions -> ans' !! n = ans !! n) /\
  (isValidPackageName (toString s) = true /\ ans' !! "packageName" = None \/
   isValidPackageName (toString s) = false /\
   exists v, user "packageName" = Submit v /\ ans' !! "packageName" = Some v).
Proof.
  intros Hpn. erewrite drop_S by reflexivity.
  rewrite prompts_cons. cbn [type name onState].
  destruct (isValidPackageName (toString s)) eqn:Ev.
  - intros H. apply features_through in H as [-> Hans].
    split; [done |]. split.
    + intros n Hn. apply Hans. by apply not_elem_of_cons in Hn as [_ ?].
    + left. split; [done |]. rewrite Hans; [done | not_in_list].
  - destruct (user "packageName") as [v |] eqn:Eu; [| discriminate].
    destruct (prompts _ _ _ _ _) as [t r] eqn:E. cbn [snd]. intros ->.
    assert (snd (prompts (drop 4 (questions red a cwd st))
                   (operationCancelled red) user s
                   (<["packageName" := v]> ans)) = Ret (s', ans')) as H
      by (by rewrite E).
    apply features_through in H as [-> Hans].
    split; [done |]. split.
    + intros n Hn. apply not_elem_of_cons in Hn as [Hne Hn].
      rewrite Hans by done. by rewrite lookup_insert_ne.
    + right. split; [done |]. exists v. split; [done |].
      rewrite Hans; [by rewrite lookup_insert_eq | not_in_list].
Qed.

(** The check of the answer to the confirmation, and what follows it. *)
Lemma overwriteChecker_through a cwd st user s ans s' ans' :
  ans !! "packageName" = None ->
  snd (prompts (drop 2 (questions red a cwd st)) (operationCancelled red)
         user s ans) = Ret (s', ans') ->
  default VUndefined (ans !! "shouldOverwrite") <> VBool false /\
  snd (prompts (drop 3 (questions red a cwd st)) (operationCancelled red)
         user s ans) = Ret (s', ans').
Proof.
  intros Hpn. erewrite drop_S by reflexivity.
  rewrite prompts_cons. cbn [type name onState].
  destruct (decide (default VUndefined (ans !! "shouldOverwrite") = VBool false));
    [discriminate | done].
Qed.

(** The confirmation, and what follows it. *)
Lemma shouldOverwrite_through a cwd st user s ans s' ans' :
  ans !! "shouldOverwrite" = None -> ans !! "packageName" = None ->
  snd (prompts (drop 1 (questions red a cwd st)) (operationCancelled red)
         user s ans) = Ret (s', ans') ->
  s' = s /\
  ans' !! "projectName" = ans !! "projectName" /\
  (exists safe : bool,
      canSafelyOverwriteValue cwd st s = Ret safe /\
      (truthy (or_ (VBool safe) (get a "force")) = true /\
       ans' !! "shouldOverwrite" = None \/
       truthy (or_ (VBool safe) (get a "force")) = false /\
       exists v, user "shouldOverwrite" = Submit v /\ v <> VBool false /\
                 ans' !! "shouldOverwrite" = Some v)) /\
  (isValidPackageName (toString s) = true /\ ans' !! "packageName" = None \/
   isValidPackageName (toString s) = false /\
   exists v, user "packageName" = Submit v /\ ans' !! "packageName" = Some v).
Proof.
  intros Hso Hpn. erewrite drop_S by reflexivity.
  rewrite prompts_cons. cbn [type name onState].
  destruct (canSafelyOverwriteValue cwd st s) as [safe | e |] eqn:Esafe;
    cbn [bind]; try discriminate.
  destruct (truthy (or_ (VBool safe) (get a "force"))) eqn:Et.
  - intros H. apply overwriteChecker_through in H as [_ H]; [| done].
    apply packageName_through in H as (-> & Hans & Hname); [| done].
    split; [done |]. split; [apply Hans; not_in_list |].
    split; [| done]. exists safe. split; [done |]. left.
    split; [done |]. rewrite Hans; [done | not_in_list].
  - destruct (user "shouldOverwrite") as [v |] eqn:Eu; [| discriminate].
    destruct (prompts _ _ _ _ _) as [t r] eqn:E. cbn [snd]. intros ->.
    assert (snd (prompts (drop 2 (questions red a cwd st))
                   (operationCancelled red) user s
                   (<["shouldOverwrite" := v]> ans)) = Ret (s', ans')) as H
      by (by rewrite E).
    apply overwriteChecker_through in H as [Hv H];
      [| by rewrite lookup_insert_ne].
    rewrite lookup_insert_eq in Hv. cbn [default] in Hv.
    apply packageName_through in H as (-> & Hans & Hname);
      [| by rewrite lookup_insert_ne].
    split; [done |]. split.
    { rewrite Hans; [by rewrite lookup_insert_ne | not_in_list]. }
    split; [| done]. exists safe. split; [done |]. right.
    split; [done |]. exists v. split; [done |]. split; [done |].
    rewrite Hans; [by rewrite lookup_insert_eq | not_in_list].
Qed.

(** What the questions leave behind when they are through: the target
    directory, and the answers about it. *)
Lemma questions_through a cwd st user s' ans' :
  let targetDir0 :=
    match positional a with w :: _ => VString w | [] => VUndefined end in
  snd (prompts (questions red a cwd st) (operationCancelled red) user
         targetDir0 ∅) = Ret (s', ans') ->
  (truthy targetDir0 = true /\ s' = targetDir0 /\
   ans' !! "projectName" = None \/
   truthy targetDir0 = false /\
   exists v, user "projectName" = Submit v /\
             s' = or_ (VString (trim (toString v))) (VString "vue-project") /\
             ans' !! "projectName" = Some v) /\
  (exists safe : bool,
      canSafelyOverwriteValue cwd st s' = Ret safe /\
      (truthy (or_ (VBool safe) (get a "force")) = true /\
       ans' !! "shouldOverwrite" = None \/
       truthy (or_ (VBool safe) (get a "force")) = false /\
       exists v, user "shouldOverwrite" = Submit v /\ v <> VBool false /\
                 ans' !! "shouldOverwrite" = Some v)) /\
  (isValidPackageName (toString s') = true /\ ans' !! "packageName" = None \/
   isValidPackageName (toString s') = false /\
   exists v, user "packageName" = Submit v /\ ans' !! "packageName" = Some v).
Proof.
  intros targetDir0.
  replace (questions red a cwd st)
    with (Question "projectName"
            (fun (_ : value) (_ : gmap string value) =>
               Ret (if truthy targetDir0 then None else Some Text))
            (fun v _ =>
               or_ (VString (trim (toString v)))
                   (VString (defaultProjectName targetDir0)))
            (fun _ => true)
          :: drop 1 (questions red a cwd st)) by reflexivity.
  rewrite prompts_cons. cbn [type name onState].
  destruct (truthy targetDir0) eqn:Et.
  - intros H.
    apply shouldOverwrite_through in H as (-> & Hp & Hso & Hpn);
      [| done | done].
    split; [| done]. left. by rewrite Hp.
  - destruct (user "projectName") as [v |] eqn:Eu; [| discriminate].
    destruct (prompts _ _ _ _ _) as [t r] eqn:E. cbn [snd]. intros ->.
    assert (snd (prompts (drop 1 (questions red a cwd st))
                   (operationCancelled red) user
                   (or_ (VString (trim (toString v)))
                        (VString (defaultProjectName targetDir0)))
                   (<["projectName" := v]> ∅)) = Ret (s', ans')) as H
      by (by rewrite E).
    apply shouldOverwrite_through in H as (-> & Hp & Hso & Hpn);
      [| done | done].
    unfold defaultProjectName in *. rewrite Et in *. cbn [negb] in *.
    split; [| done]. right. split; [done |]. exists v.
    split; [done |]. split; [done |]. by rewrite Hp, lookup_insert_eq.
Qed.

End Through.

Section Resolved.

Variable banner : string.
Variable red : string -> string.

Implicit Types (a : argv) (cwd : path) (st : fs) (user : string -> response).

(** When [resolveInput] continues, the questions are through. *)
Lemma resolveInput_continue a cwd st user (res : resolved) :
  snd (resolveInput banner red a cwd st user) = Continue res ->
  snd (prompts (questions red a cwd st) (operationCancelled red) user
         (match positional a with w :: _ => VString w | [] => VUndefined end) ∅)
    = Ret (targetDir res, result res) /\
  config res = destructure a (result res) /\
  snd (fst (resolveInput banner red a cwd st user))
    = [Log (String "010" banner +:+ String "010" "")].
Proof.
  unfold resolveInput.
  destruct (prompts _ _ _ _ _) as [t [[s ans] | e |]]; cbn [snd fst];
    try discriminate.
  by intros [= <-].
Qed.

(** The target directory is a string that is not empty. *)
Lemma targetDir_string a cwd st user (res : resolved) :
  snd (resolveInput banner red a cwd st user) = Continue res ->
  exists s, targetDir res = VString s /\ s <> "".
Proof.
  intros (H & _)%resolveInput_continue.
  apply questions_through in H as (Ht & _).
  destruct Ht as [(Htr & -> & _) | (_ & v & _ & -> & _)].
  - destruct (positional a) as [| w ws]; [discriminate |].
    exists w. split; [done |]. intros ->. discriminate.
  - unfold or_. cbn [truthy].
    destruct (String.eqb_spec (trim (toString v)) "") as [E | E]; cbn [negb].
    + by exists "vue-project".
    + by exists (trim (toString v)).
Qed.

Lemma orDefault_None (r : gmap string value) (k : string) (d : value) :
  r !! k = None -> orDefault r k d = d.
Proof. unfold orDefault. by intros ->. Qed.

Lemma orDefault_Some (r : gmap string value) (k : string) (d v : value) :
  r !! k = Some v -> v <> VUndefined -> orDefault r k d = v.
Proof. unfold orDefault. intros ->. by destruct v. Qed.

End Resolved.







(** X11: the package name of the configuration is a valid package name,
    given that the prompt for the package name, when it is shown, returns a
    string that its [validate] accepts. *)
Theorem X11_package_name_is_valid (banner : string) (red : string -> string)
    (a : argv) (cwd : path) (st : fs) (user : string -> response)
    (res : resolved) :
  snd (resolveInput banner red a cwd st user) = Continue res ->
  (forall v, user "packageName" = Submit v ->
             exists s, v = VString s /\ isValidPackageName s = true) ->
  isValidPackageName (packageName (config res)) = true.
Proof.
  intros Hres Huser.
  apply resolveInput_continue in Hres as (H & -> & _).
  apply questions_through in H as (Ht & _ & Hpn).
  unfold destructure. cbn [packageName].
  destruct Hpn as [(Hv & Hn) | (_ & v & Hu & Hn)].
  - rewrite (orDefault_None _ _ _ Hn). cbn [toString].
    destruct Ht as [(Htr & Es & _) | (Htr & _)].
    + rewrite Es in Hv. unfold defaultProjectName. rewrite Htr. cbn [negb].
      by apply valid_normalised.
    + unfold defaultProjectName. rewrite Htr. reflexivity.
  - destruct (Huser v Hu) as (s & -> & Hs).
    by rewrite (orDefault_Some _ _ _ _ Hn).
Qed.

Lemma X11_package_name_is_valid_witness :
  let user := fun q : string =>
                if String.eqb q "packageName" then Submit (VString "my-app")
                else Submit (VBool false) in
  let run :=
    resolveInput "create-vue" (fun s => s) (Argv ["My App"] ∅) ["work"]
      (list_to_map [([], Dir); (["work"], Dir)]) user in
  exists res : resolved,
    snd run = Continue res /\
    packageName (config res) = "my-app" /\
    isValidPackageName (packageName (config res)) = true.
Proof.
  intros user run. eexists. split; [vm_compute; reflexivity |].
  split; [vm_compute; reflexivity |].
  match goal with
  | |- isValidPackageName (packageName (config ?res)) = true =>
      apply (X11_package_name_is_valid "create-vue" (fun s => s)
               (Argv ["My App"] ∅) ["work"]
               (list_to_map [([], Dir); (["work"], Dir)]) user res)
  end.
  - vm_compute. reflexivity.
  - intros v. unfold user. cbn. intros [= <-]. by exists "my-app".
Defined.

(** X12: when the project name is asked and the name entered is, trimmed,
    a valid package name, the target directory is that name, the package
    name is not asked, and the package name of the configuration is the
    default [vue-project], whatever the name entered. *)
Theorem X12_entered_name_not_package_name (banner : string)
    (red : string -> string) (a : argv) (cwd : path) (st : fs)
    (user : string -> response) (res : resolved) (n : string) :
  positional a = [] ->
  user "projectName" = Submit (VString n) ->
  isValidPackageName (trim n) = true ->
  snd (resolveInput banner red a cwd st user) = Continue res ->
  targetDir res = VString (trim n) /\
  result res !! "packageName" = None /\
  packageName (config res) = "vue-project".
Proof.
  intros Hpos Hu Hn Hres.
  apply resolveInput_continue in Hres as (H & -> & _).
  apply questions_through in H as (Ht & _ & Hpn).
  rewrite Hpos in Ht.
  destruct Ht as [(Htr & _) | (_ & v & Hv & Es & _)]; [discriminate |].
  rewrite Hu in Hv. injection Hv as <-. cbn [toString] in Es.
  assert (trim n <> "") as Hne by (intros E; by rewrite E in Hn).
  assert (targetDir res = VString (trim n)) as Et.
  { rewrite Es. unfold or_. cbn [truthy].
    by destruct (String.eqb_spec (trim n) ""). }
  rewrite Et in Hpn. cbn [toString] in Hpn.
  destruct Hpn as [(_ & Hnone) | (Hv & _)]; [| congruence].
  split; [done |]. split; [done |].
  unfold destructure. cbn [packageName].
  rewrite (orDefault_None _ _ _ Hnone), Hpos. reflexivity.
Qed.

Lemma X12_entered_name_not_package_name_witness :
  let user := fun q : string =>
                if String.eqb q "projectName" then Submit (VString "my-app")
                else Submit (VBool false) in
  let run :=
    resolveInput "create-vue" (fun s => s) (Argv [] ∅) ["work"]
      (list_to_map [([], Dir); (["work"], Dir)]) user in
  exists res : resolved,
    snd run = Continue res /\
    targetDir res = VString "my-app" /\
    result res !! "packageName" = None /\
    packageName (config res) = "vue-project".
Proof.
  intros user run. eexists. split; [vm_compute; reflexivity |].
  match goal with
  | |- targetDir ?res = _ /\ _ =>
      apply (X12_entered_name_not_package_name "create-vue" (fun s => s)
               (Argv [] ∅) ["work"]
               (list_to_map [([], Dir); (["work"], Dir)]) user res "my-app")
  end.
  - reflexivity.
  - reflexivity.
  - reflexivity.
  - vm_compute. reflexivity.
Defined.

(** X13: the questions are through only if the target directory can be
    overwritten safely (nothing is stored there, or a directory without
    entries), or [force] is set, or the confirmation was asked and was
    answered with something other than [false], which is then the
    [shouldOverwrite] of the configuration. *)
Theorem X13_overwrite_guard (banner : string) (red : string -> string)
    (a : argv) (cwd : path) (st : fs) (user : string -> response)
    (res : resolved) :
  snd (resolveInput banner red a cwd st user) = Continue res ->
  exists s : string,
    targetDir res = VString s /\
    (canSafelyOverwrite cwd st s = Ret true /\
     shouldOverwrite (config res) = VUndefined \/
     truthy (get a "force") = true /\
     shouldOverwrite (config res) = VUndefined \/
     exists v, user "shouldOverwrite" = Submit v /\ v <> VBool false /\
               shouldOverwrite (config res) = v).
Proof.
  intros Hres.
  destruct (targetDir_string banner red a cwd st user res Hres) as (s & Es & _).
  apply resolveInput_continue in Hres as (H & -> & _).
  apply questions_through in H as (_ & (safe & Hsafe & Hso) & _).
  exists s. split; [done |]. rewrite Es in Hsafe. cbn in Hsafe.
  unfold destructure. cbn [shouldOverwrite].
  destruct Hso as [(Htr & ->) | (_ & v & Hu & Hv & ->)].
  - destruct safe; [left | right; left]; done.
  - right. right. by exists v.
Qed.

Lemma X13_overwrite_guard_witness :
  let run :=
    resolveInput "create-vue" (fun s => s) (Argv ["demo"] ∅) ["work"]
      (list_to_map [([], Dir); (["work"], Dir); (["demo"; "work"], Dir);
                    (["old.txt"; "demo"; "work"], File "x")])
      (fun _ => Submit (VBool true)) in
  exists res : resolved,
    snd run = Continue res /\
    exists s : string,
      targetDir res = VString s /\
      (canSafelyOverwrite ["work"]
         (list_to_map [([], Dir); (["work"], Dir); (["demo"; "work"], Dir);
                       (["old.txt"; "demo"; "work"], File "x")]) s = Ret true /\
       shouldOverwrite (config res) = VUndefined \/
       truthy (get (Argv ["demo"] ∅) "force") = true /\
       shouldOverwrite (config res) = VUndefined \/
       exists v, Submit (VBool true) = Submit v /\ v <> VBool false /\
                 shouldOverwrite (config res) = v).
Proof.
  intros run. eexists. split; [vm_compute; reflexivity |].
  match goal with
  | |- exists s, targetDir ?res = _ /\ _ =>
      apply (X13_overwrite_guard "create-vue" (fun s => s) (Argv ["demo"] ∅)
               ["work"]
               (list_to_map [([], Dir); (["work"], Dir); (["demo"; "work"], Dir);
                             (["old.txt"; "demo"; "work"], File "x")])
               (fun _ => Submit (VBool true)) res)
  end.
  vm_compute. reflexivity.
Defined.

(** ** The root of the project (index.js, lines 220-231) *)

Section Root.

Variable banner : string.
Variable red : string -> string.

Implicit Types (a : argv) (cwd : path) (st : fs) (user : string -> response).

Lemma cons_ne_self {A : Type} (x : A) (l : list A) : x :: l <> l.
Proof.
  intros E. apply (f_equal length) in E. cbn in E. lia.
Qed.

(** [emptyDir] returns on directories only. *)
Lemma emptyDir_returns fuel dir st st' :
  emptyDir fuel dir st = Ret st' -> st !! dir = Some Dir.
Proof.
  unfold emptyDir. destruct fuel as [| fuel]; [discriminate |].
  cbn [postOrderDirectoryTraverse]. unfold readdirSync.
  by destruct (st !! dir) as [[c |] |].
Qed.

(** What [prepareRoot] returns. *)
Lemma prepareRoot_returns fuel cwd (r : resolved) st (root : path) st' :
  wellFormed st -> fitsDepth (pathJoin cwd (toString (targetDir r))) fuel st ->
  prepareRoot fuel cwd r st = Ret (root, st') ->
  root = pathJoin cwd (toString (targetDir r)) /\
  forall q,
    st' !! q
    = if truthy (shouldOverwrite (config r))
      then match relTo root q with
           | Some (_ :: _) => None
           | _ => st !! q
           end
      else if decide (q = root)
           then match st !! root with
                | None => Some Dir
                | e => e
                end
           else st !! q.
Proof.
  intros Hwf Hfit. unfold prepareRoot.
  set (p := pathJoin cwd (toString (targetDir r))) in *.
  destruct (truthy (shouldOverwrite (config r))).
  - destruct (emptyDir fuel p st) as [st1 | e |] eqn:E; cbn [bind];
      try discriminate.
    intros [= <- <-]. split; [done |].
    pose proof (emptyDir_returns _ _ _ _ E) as Hdir.
    destruct (emptyDir_spec fuel p st Hwf Hdir Hfit) as (st2 & E2 & _ & Hst2).
    rewrite E in E2. injection E2 as <-. exact Hst2.
  - unfold existsSyncDir, mkdirSync.
    destruct (st !! p) as [[c |] |] eqn:Ep.
    + destruct (trailingSeparator _); cbn [negb bind].
      * assert (existsSync st p = true) as ->
          by (apply existsSync_true; eauto).
        discriminate.
      * intros [= <- <-]. split; [done |].
        intros q. case_decide as Eq; [| done]. subst q. by rewrite Ep.
    + cbn [negb bind]. intros [= <- <-]. split; [done |].
      intros q. case_decide as Eq; [| done]. subst q. by rewrite Ep.
    + cbn [negb].
      assert (existsSync st p = false) as -> by by apply existsSync_false.
      destruct (parentIsDir st p); cbn [bind]; [| discriminate].
      intros [= <- <-]. split; [done |].
      intros q. case_decide as Eq.
      * subst q. by rewrite lookup_insert_eq, Ep.
      * by rewrite lookup_insert_ne.
Qed.

Lemma initUntilRender_continue fuel a cwd st user
    (t : transcript) (out : list output) (sc : scaffold) :
  initUntilRender banner red fuel a cwd st user = (t, out, Continue sc) ->
  snd (resolveInput banner red a cwd st user) = Continue (answers sc) /\
  exists st1,
    prepareRoot fuel cwd (answers sc) st = Ret (root sc, st1) /\
    writeFileSync ("package.json" :: root sc)
      (packageJson (packageName (config (answers sc)))) st1
    = Ret (files sc) /\
    out = [Log (String "010" banner +:+ String "010" "");
           Log (String "010" "Scaffolding project in "
                +:+ pathJoinString cwd (toString (targetDir (answers sc)))
                +:+ "...")].
Proof.
  unfold initUntilRender.
  destruct (resolveInput banner red a cwd st user) as [[t0 out0] s] eqn:E.
  pose proof (resolveInput_continue banner red a cwd st user) as Hc.
  rewrite E in Hc. cbn [fst snd] in Hc.
  destruct s as [code | e | | r]; try discriminate.
  destruct (Hc r eq_refl) as (_ & _ & ->).
  destruct (prepareRoot fuel cwd r st) as [[rt st1] | e |] eqn:Ep;
    try discriminate.
  destruct (writeFileSync _ _ st1) as [st2 | e |] eqn:Ew; try discriminate.
  intros [= <- <- <-]. cbn [answers root files snd].
  split; [done |]. exists st1. by rewrite Ep, Ew.
Qed.

Lemma writeFileSync_returns (p : path) (content : string) st st' :
  writeFileSync p content st = Ret st' ->
  st' = <[p := File content]> st /\
  exists n d, p = n :: d /\ st !! d = Some Dir.
Proof.
  unfold writeFileSync.
  assert (parentIsDir st p = true ->
          exists n d, p = n :: d /\ st !! d = Some Dir) as Hp.
  { destruct p as [| n d]; [discriminate |]. cbn.
    intros H%bool_decide_eq_true. eauto. }
  destruct (st !! p) as [[c |] |]; try discriminate;
    destruct (parentIsDir st p); try discriminate;
    intros [= <-]; auto.
Qed.

End Root.

(** X14: when [init] comes to the first template, the root is the target
    directory joined to the working directory, it is a directory, the
    file [package.json] in it holds the package name of the configuration
    and the version 0.0.0, and the banner and the line on scaffolding are
    all that has been logged. *)
Theorem X14_root_prepared (banner : string) (red : string -> string)
    (fuel : nat) (a : argv) (cwd : path) (st : fs) (user : string -> response)
    (t : transcript) (out : list output) (sc : scaffold) :
  initUntilRender banner red fuel a cwd st user = (t, out, Continue sc) ->
  root sc = pathJoin cwd (toString (targetDir (answers sc))) /\
  files sc !! root sc = Some Dir /\
  files sc !! ("package.json" :: root sc)
    = Some (File (packageJson (packageName (config (answers sc))))) /\
  out = [Log (String "010" banner +:+ String "010" "");
         Log (String "010" "Scaffolding project in "
              +:+ pathJoinString cwd (toString (targetDir (answers sc)))
                +:+ "...")].
Proof.
  intros (_ & st1 & Hp & Hw & Hout)%initUntilRender_continue.
  apply writeFileSync_returns in Hw as (-> & n & d & [= <- <-] & Hd).
  split.
  { unfold prepareRoot in Hp.
    destruct (if truthy _ then _ else _) as [st2 | e |]; cbn [bind] in Hp;
      try discriminate.
    by injection Hp as <- _. }
  split; [by rewrite lookup_insert_ne by apply cons_ne_self |].
  split; [by rewrite lookup_insert_eq | exact Hout].
Qed.

Lemma X14_root_prepared_witness :
  let run :=
    initUntilRender "create-vue" (fun s => s) 4
      (Argv ["demo/"] {[ "default" := VBool true ]}) ["work"]
      (list_to_map [([], Dir); (["work"], Dir)])
      (fun q => if String.eqb q "packageName" then Submit (VString "demo")
                else Submit (VBool true)) in
  let sc :=
    Scaffold
      (Resolved (VString "demo/") {[ "packageName" := VString "demo" ]}
         (Configuration "demo" VUndefined VUndefined VUndefined VUndefined
            VUndefined VUndefined VUndefined VUndefined))
      ["demo"; "work"]
      (list_to_map [([], Dir); (["work"], Dir); (["demo"; "work"], Dir);
                    (["package.json"; "demo"; "work"],
                     File (packageJson "demo"))]) in
  snd run = Continue sc /\
  root sc = ["demo"; "work"] /\
  files sc !! ["demo"; "work"] = Some Dir /\
  files sc !! ["package.json"; "demo"; "work"]
    = Some (File (packageJson "demo")) /\
  snd (fst run)
    = [Log (String "010" "create-vue" +:+ String "010" "");
       Log (String "010" "Scaffolding project in /work/demo/...")].
Proof.
  intros run sc. split; [vm_compute; reflexivity |].
  destruct (X14_root_prepared "create-vue" (fun s => s) 4
              (Argv ["demo/"] {[ "default" := VBool true ]}) ["work"]
              (list_to_map [([], Dir); (["work"], Dir)])
              (fun q => if String.eqb q "packageName"
                        then Submit (VString "demo")
                        else Submit (VBool true))
              (fst (fst run)) (snd (fst run)) sc) as (Hr & Hd & Hp & Ho).
  - vm_compute. reflexivity.
  - split; [reflexivity |]. split; [exact Hd |]. split; [exact Hp |].
    rewrite Ho. reflexivity.
Defined.

(** X15: what [init] has done to a well-formed tree when it comes to the
    first template.  Outside the root nothing has changed.  After a
    confirmed overwrite nothing is left below the root but
    [package.json]; otherwise everything below the root is as it was, but
    for [package.json]. *)
Theorem X15_root_frame (banner : string) (red : string -> string)
    (fuel : nat) (a : argv) (cwd : path) (st : fs) (user : string -> response)
    (t : transcript) (out : list output) (sc : scaffold) :
  wellFormed st -> fitsDepth (root sc) fuel st ->
  initUntilRender banner red fuel a cwd st user = (t, out, Continue sc) ->
  (forall q, ~ within (root sc) q -> files sc !! q = st !! q) /\
  (forall q, below (root sc) q -> q <> "package.json" :: root sc ->
             files sc !! q
             = if truthy (shouldOverwrite (config (answers sc))) then None
               else st !! q).
Proof.
  intros Hwf Hfit (_ & st1 & Hp & Hw & _)%initUntilRender_continue.
  assert (root sc = pathJoin cwd (toString (targetDir (answers sc)))) as Er.
  { unfold prepareRoot in Hp.
    destruct (if truthy _ then _ else _) as [st2 | e |]; cbn [bind] in Hp;
      try discriminate.
    by injection Hp as <- _. }
  rewrite Er in Hfit.
  apply prepareRoot_returns in Hp as (_ & Hst1); [| done | done].
  apply writeFileSync_returns in Hw as (-> & _).
  split.
  - intros q Hq.
    assert (q <> "package.json" :: root sc) as Hne.
    { intros ->. apply Hq. by exists ["package.json"]. }
    rewrite lookup_insert_ne by done. rewrite Hst1.
    assert (relTo (root sc) q = None) as ->.
    { destruct (relTo (root sc) q) eqn:E; [| done].
      destruct Hq. apply within_relTo. eauto. }
    destruct (truthy _); [done |].
    case_decide as Eq; [| done]. subst q. destruct Hq. apply within_refl.
  - intros q Hq Hne. rewrite lookup_insert_ne by done. rewrite Hst1.
    pose proof (below_case (root sc) q) as Hc.
    destruct (truthy _).
    + destruct (relTo (root sc) q) as [[| x r] |]; done.
    + case_decide as Eq; [| done]. subst q.
      rewrite relTo_self in Hc. done.
Qed.

Lemma X15_root_frame_witness :
  let st : fs :=
    list_to_map [([], Dir); (["work"], Dir); (["demo"; "work"], Dir);
                 (["old.txt"; "demo"; "work"], File "x");
                 (["notes.txt"; "work"], File "n")] in
  let run :=
    initUntilRender "create-vue" (fun s => s) 4
      (Argv ["demo"] {[ "default" := VBool true ]}) ["work"] st
      (fun _ => Submit (VBool true)) in
  let sc :=
    Scaffold
      (Resolved (VString "demo") {[ "shouldOverwrite" := VBool true ]}
         (Configuration "demo" (VBool true) VUndefined VUndefined VUndefined
            VUndefined VUndefined VUndefined VUndefined))
      ["demo"; "work"]
      (list_to_map [([], Dir); (["work"], Dir); (["demo"; "work"], Dir);
                    (["package.json"; "demo"; "work"], File (packageJson "demo"));
                    (["notes.txt"; "work"], File "n")]) in
  snd run = Continue sc /\
  files sc !! ["notes.txt"; "work"] = Some (File "n") /\
  files sc !! ["old.txt"; "demo"; "work"] = None.
Proof.
  intros st run sc. split; [vm_compute; reflexivity |].
  destruct (X15_root_frame "create-vue" (fun s => s) 4
              (Argv ["demo"] {[ "default" := VBool true ]}) ["work"] st
              (fun _ => Submit (VBool true))
              (fst (fst run)) (snd (fst run)) sc) as (Hout & Hin).
  - apply wellFormedb_sound. vm_compute. reflexivity.
  - apply fitsDepthb_sound. vm_compute. reflexivity.
  - vm_compute. reflexivity.
  - split.
    + rewrite Hout; [vm_compute; reflexivity |].
      intros H%within_relTo. vm_compute in H. by destruct H.
    + rewrite Hin; [reflexivity | by exists "old.txt", [] | discriminate].
Defined.

(** ** The package manager (index.js, lines 336-344) *)

Section ReportFacts.

Lemma prefix_spec (pattern s : string) :
  String.prefix pattern s = true <-> exists post, s = pattern +:+ post.
Proof.
  revert s. induction pattern as [| a pattern IH]; intros s.
  - split; [intros _; by exists s | intros _; by destruct s].
  - destruct s as [| b s]; cbn [String.prefix].
    + split; [discriminate | intros [post ?]; discriminate].
    + destruct (ascii_dec a b) as [<- | Hne].
      * rewrite IH. split; intros [post E]; exists post.
        -- by rewrite E.
        -- rewrite append_cons in E. by injection E.
      * split; [discriminate |]. intros [post E].
        rewrite append_cons in E. injection E as E _. by destruct Hne.
Qed.

(** [includes] finds the pattern exactly when it occurs. *)
Lemma includes_spec (s pattern : string) :
  includes s pattern = true <-> occurs pattern s.
Proof.
  unfold occurs. split.
  - induction s as [| c s IH]; cbn [includes].
    + destruct (String.prefix pattern "") eqn:E; [| discriminate].
      intros _. apply prefix_spec in E as [post E]. by exists "", post.
    + destruct (String.prefix pattern (String c s)) eqn:E.
      * intros _. apply prefix_spec in E as [post E]. by exists "", post.
      * intros (pre & post & ->)%IH. by exists (String c pre), post.
  - intros (pre & post & ->).
    induction pre as [| c pre IH].
    + assert (String.prefix pattern ("" +:+ pattern +:+ post) = true) as E
        by (apply prefix_spec; by exists post).
      destruct ("" +:+ pattern +:+ post); cbn [includes]; by rewrite E.
    + rewrite append_cons. cbn [includes].
      by destruct (String.prefix pattern _).
Qed.

Lemma includes_false (s pattern : string) :
  includes s pattern = false <-> ~ occurs pattern s.
Proof.
  rewrite <- includes_spec. by destruct (includes s pattern).
Qed.

End ReportFacts.

(** X16: the package manager is [pnpm] when [pnpm] occurs in
    [npm_execpath], [yarn] when [yarn] occurs there and [pnpm] does not,
    and [npm] otherwise, in particular when [npm_execpath] is not set. *)
Theorem X16_package_manager (npm_execpath : value) :
  let s := toString npm_execpath in
  (packageManager npm_execpath = "pnpm" <-> occurs "pnpm" s) /\
  (packageManager npm_execpath = "yarn"
   <-> occurs "yarn" s /\ ~ occurs "pnpm" s) /\
  (packageManager npm_execpath = "npm"
   <-> ~ occurs "pnpm" s /\ ~ occurs "yarn" s) /\
  packageManager VUndefined = "npm".
Proof.
  intros s. split; [| split; [| split]]; [| | | reflexivity];
    unfold packageManager; fold s;
    (destruct (includes s "pnpm") eqn:Ep;
     [apply includes_spec in Ep | apply includes_false in Ep]);
    (destruct (includes s "yarn") eqn:Ey;
     [apply includes_spec in Ey | apply includes_false in Ey]);
    (split; intros H; first [reflexivity | discriminate | tauto]).
Qed.

(** ** The rendering steps (index.js, lines 243-283) *)

(** X17: the rendering steps begin with the template [base] and end with
    the code variant and, last, the entry variant; what lies between is
    taken, in this order, from [config/jsx], [config/router],
    [config/pinia], [config/cypress], [config/typescript] and the ESLint
    step; and no step is taken twice. *)
Theorem X17_plan_order (c : configuration) :
  exists middle : list step,
    renderPlan c
    = Render "base" :: middle
      ++ [Render ("code/" +:+ codeTemplate c);
          Render ("entry/" +:+ entryTemplate c)] /\
    sublist middle
      [Render "config/jsx"; Render "config/router"; Render "config/pinia";
       Render "config/cypress"; Render "config/typescript"; RenderEslint] /\
    NoDup (renderPlan c).
Proof.
  exists (when (needsJsx c) (Render "config/jsx") ++
          when (needsRouter c) (Render "config/router") ++
          when (needsPinia c) (Render "config/pinia") ++
          when (needsTests c) (Render "config/cypress") ++
          when (needsTypeScript c) (Render "config/typescript") ++
          when (needsEslint c) RenderEslint).
  split.
  { unfold renderPlan. cbn [app]. by rewrite <- !app_assoc. }
  unfold renderPlan, when, codeTemplate, entryTemplate.
  destruct (truthy (needsJsx c)), (truthy (needsRouter c)),
    (truthy (needsPinia c)), (truthy (needsTests c)),
    (truthy (needsTypeScript c)), (truthy (needsEslint c));
    (split;
     [ cbn [app];
       repeat first [ apply sublist_nil | apply sublist_skip
                    | apply sublist_cons ]
     | apply (bool_decide_unpack _); vm_compute; exact I ]).
Qed.

(** X18: a configuration template is rendered exactly for the features
    that are on, the ESLint step exactly when ESLint is on, and the code
    and the entry variant are those of the features rendered: the code
    variant is a [typescript-] one exactly when [config/typescript] is
    rendered and a router one exactly when [config/router] is, the entry
    variant names the router exactly when [config/router] is rendered and
    Pinia exactly when [config/pinia] is. *)
Theorem X18_plan_features (c : configuration) :
  (Render "config/jsx" ∈ renderPlan c <-> truthy (needsJsx c) = true) /\
  (Render "config/router" ∈ renderPlan c <-> truthy (needsRouter c) = true) /\
  (Render "config/pinia" ∈ renderPlan c <-> truthy (needsPinia c) = true) /\
  (Render "config/cypress" ∈ renderPlan c <-> truthy (needsTests c) = true) /\
  (Render "config/typescript" ∈ renderPlan c
   <-> truthy (needsTypeScript c) = true) /\
  (RenderEslint ∈ renderPlan c <-> truthy (needsEslint c) = true) /\
  (Render "config/typescript" ∈ renderPlan c
   <-> String.prefix "typescript-" (codeTemplate c) = true) /\
  (Render "config/router" ∈ renderPlan c
   <-> codeTemplate c ∈ ["router"; "typescript-router"]) /\
  (Render "config/router" ∈ renderPlan c
   <-> entryTemplate c ∈ ["router"; "router-and-pinia"]) /\
  (Render "config/pinia" ∈ renderPlan c
   <-> entryTemplate c ∈ ["pinia"; "router-and-pinia"]).
Proof.
  unfold renderPlan, when, codeTemplate, entryTemplate.
  destruct (truthy (needsJsx c)), (truthy (needsRouter c)),
    (truthy (needsPinia c)), (truthy (needsTests c)),
    (truthy (needsTypeScript c)), (truthy (needsEslint c));
    repeat match goal with |- _ /\ _ => split end; plan_iff.
Qed.

(** ** The passes over the rendered tree (index.js, lines 285-334) *)

Section CleanupFacts.

Implicit Types (st cur : fs) (root d q : path) (n : string).

(** The language-conversion pass with the step for [index.html], entry by
    entry. *)
Lemma typescriptCleanup_spec (fuel : nat) root st (html : string) :
  wellFormed st -> st !! root = Some Dir -> fitsDepth root fuel st ->
  noConfigClash root st ->
  st !! ("index.html" :: root) = Some (File html) ->
  exists st' : fs,
    typescriptCleanup fuel root st = Ret st' /\
    converting root fuel st' /\
    forall q,
      st' !! q
      = if decide (q = "index.html" :: root)
        then Some (File (replaceFirst html "src/main.js" "src/main.ts"))
        else match relTo root q with
             | Some (_ :: _) => convertedEntry st q
             | _ => st !! q
             end.
Proof.
  intros Hwf Hroot Hfit Hcl Hhtml.
  destruct (convertJsToTs_spec root fuel fuel root st)
    as (st1 & Hrun & Hinv1 & Hpt); auto using within_refl.
  { repeat split; auto. }
  assert (st1 !! ("index.html" :: root) = Some (File html)) as Hidx.
  { by rewrite Hpt, relTo_child. }
  destruct Hinv1 as (Hwf1 & Hcl1 & Hfit1 & Hroot1).
  unfold typescriptCleanup. rewrite Hrun. cbn [bind].
  unfold renameEntryInIndexHtml, readFileSync. rewrite Hidx. cbn [bind].
  unfold writeFileSync, parentIsDir. rewrite Hidx.
  rewrite bool_decide_eq_true_2 by assumption.
  eexists. split; [reflexivity |]. split.
  - repeat split.
    + apply wellFormed_insert_file; [done | done | by rewrite Hidx].
    + intros d c Hd Hjs Hts.
      rewrite lookup_insert_ne in Hjs by (intros [= ? ?]; discriminate).
      rewrite lookup_insert_ne in Hts by (intros [= ? ?]; discriminate).
      by apply (Hcl1 d c).
    + intros q Hq Hs. apply Hfit1; [done |].
      destruct (decide (q = "index.html" :: root)) as [-> | Hne].
      * by rewrite Hidx.
      * by rewrite lookup_insert_ne in Hs.
    + rewrite lookup_insert_ne by apply cons_ne_self. exact Hroot1.
  - intros q. case_decide as Eq.
    + subst q. by rewrite lookup_insert_eq.
    + rewrite lookup_insert_ne by done. apply Hpt.
Qed.

(** The conversion leaves no file that it acts on. *)
Lemma convertedEntry_not_source st n d (c : string) :
  isSource n = true -> convertedEntry st (n :: d) <> Some (File c).
Proof.
  intros Hn. cbn [convertedEntry]. rewrite Hn.
  by destruct (st !! (n :: d)) as [[c' |] |].
Qed.

(** The conversion makes no directory and removes none. *)
Lemma convertedEntry_dir root st n d :
  noConfigClash root st -> within root d ->
  convertedEntry st (n :: d) = Some Dir <-> st !! (n :: d) = Some Dir.
Proof.
  intros Hcl Hd. cbn [convertedEntry].
  destruct (isSource n).
  { by destruct (st !! (n :: d)) as [[c' |] |]. }
  destruct (endsWith n ".ts").
  { destruct (st !! (n :: d)) as [[c' |] |]; [done | done |].
    by destruct (st !! (sourceName n :: d)) as [[c' |] |]. }
  destruct (String.eqb_spec n "tsconfig.json") as [-> | Hne]; [| done].
  change (sourceName "tsconfig.json") with "jsconfig.json".
  destruct (st !! ("jsconfig.json" :: d)) as [[c' |] |] eqn:Ejs; [| done | done].
  split; [discriminate |]. intros Hts. by destruct (Hcl d c' Hd Ejs).
Qed.

Lemma relTo_within root d n r :
  d = r ++ root -> relTo root (n :: d) = Some (n :: r).
Proof. intros ->. by apply relTo_spec. Qed.

End CleanupFacts.

(** X19: after the language conversion no file of the tree is named
    [x.js] or [jsconfig.json]: within the root the conversion leaves no
    file of a name that it acts on.  (The traversal is the one of the
    spec, section 4.2.) *)
Theorem X19_no_source_left (fuel : nat) (root : path) (st : fs) :
  wellFormed st -> st !! root = Some Dir -> fitsDepth root fuel st ->
  noConfigClash root st ->
  (exists html, st !! ("index.html" :: root) = Some (File html)) ->
  exists st' : fs,
    typescriptCleanup fuel root st = Ret st' /\
    forall (d : path) (n c : string),
      within root d ->
      endsWith n ".js" = true \/ n = "jsconfig.json" ->
      st' !! (n :: d) <> Some (File c).
Proof.
  intros Hwf Hroot Hfit Hcl [html Hhtml].
  destruct (typescriptCleanup_spec fuel root st html Hwf Hroot Hfit Hcl Hhtml)
    as (st' & Hrun & _ & Hpt).
  exists st'. split; [exact Hrun |].
  intros d n c [r Hd] Hn.
  assert (isSource n = true) as Hsrc.
  { unfold isSource. destruct Hn as [-> | ->]; [reflexivity |].
    by rewrite orb_true_r. }
  rewrite Hpt, (relTo_within root d n r Hd).
  case_decide as Eq.
  - injection Eq as -> _. discriminate.
  - by apply convertedEntry_not_source.
Qed.

Lemma X19_no_source_left_witness :
  let st : fs :=
    list_to_map
      [([], Dir); (["demo"], Dir);
       (["index.html"; "demo"], File "<script src=/src/main.js>");
       (["jsconfig.json"; "demo"], File "{}");
       (["src"; "demo"], Dir);
       (["a.js"; "src"; "demo"], File "a");
       (["b.js"; "src"; "demo"], File "b");
       (["b.ts"; "src"; "demo"], File "typed b")] in
  exists st' : fs,
    typescriptCleanup 3 ["demo"] st = Ret st' /\
    forall (d : path) (n c : string),
      within ["demo"] d ->
      endsWith n ".js" = true \/ n = "jsconfig.json" ->
      st' !! (n :: d) <> Some (File c).
Proof.
  intros st. apply (X19_no_source_left 3 ["demo"] st).
  - apply wellFormedb_sound. vm_compute. reflexivity.
  - vm_compute. reflexivity.
  - apply fitsDepthb_sound. vm_compute. reflexivity.
  - apply noConfigClashb_sound. vm_compute. reflexivity.
  - eexists. vm_compute. reflexivity.
Defined.

(** X20: the conversion renames every file [jsconfig.json] of the tree to
    [tsconfig.json], with its content, also over a file [tsconfig.json]
    that is there already, and it leaves the directories, the files of
    other names than [x.js], [x.ts], [jsconfig.json] and [tsconfig.json],
    and everything outside the root as they were, but for [index.html] in
    the root, in which the first [src/main.js] has become [src/main.ts]. *)
Theorem X20_conversion_frame (fuel : nat) (root : path) (st : fs)
    (html : string) :
  wellFormed st -> st !! root = Some Dir -> fitsDepth root fuel st ->
  noConfigClash root st ->
  st !! ("index.html" :: root) = Some (File html) ->
  exists st' : fs,
    typescriptCleanup fuel root st = Ret st' /\
    (forall (d : path) (c : string),
        within root d -> st !! ("jsconfig.json" :: d) = Some (File c) ->
        st' !! ("jsconfig.json" :: d) = None /\
        st' !! ("tsconfig.json" :: d) = Some (File c)) /\
    (forall q, st' !! q = Some Dir <-> st !! q = Some Dir) /\
    (forall (d : path) (n : string),
        endsWith n ".js" = false -> endsWith n ".ts" = false ->
        n <> "jsconfig.json" -> n <> "tsconfig.json" ->
        n :: d <> "index.html" :: root ->
        st' !! (n :: d) = st !! (n :: d)) /\
    (forall q, ~ within root q -> st' !! q = st !! q) /\
    st' !! ("index.html" :: root)
    = Some (File (replaceFirst html "src/main.js" "src/main.ts")).
Proof.
  intros Hwf Hroot Hfit Hcl Hhtml.
  destruct (typescriptCleanup_spec fuel root st html Hwf Hroot Hfit Hcl Hhtml)
    as (st' & Hrun & _ & Hpt).
  exists st'. split; [exact Hrun |].
  split; [| split; [| split; [| split]]].
  - intros d c [r Hd] Hjs. split.
    + rewrite Hpt, (relTo_within root d _ r Hd).
      case_decide as Eq; [discriminate |].
      by apply (convertedEntry_source st _ _ c).
    + rewrite Hpt, (relTo_within root d _ r Hd).
      case_decide as Eq; [discriminate |].
      by apply convertedEntry_tsconfig.
  - intros q. rewrite Hpt. case_decide as Eq.
    + subst q. rewrite Hhtml. split; discriminate.
    + destruct (relTo root q) as [[| n r] |] eqn:E; [done | | done].
      apply relTo_spec in E. subst q. cbn [app].
      apply (convertedEntry_dir root); [done | by exists r].
  - intros d n Hjs Hts Hnj Hnt Hni. rewrite Hpt.
    case_decide as Eq; [done |].
    destruct (relTo root (n :: d)) as [[| m r] |] eqn:E; [done | | done].
    cbn [convertedEntry]. unfold isSource. rewrite Hjs, Hts.
    destruct (String.eqb_spec n "jsconfig.json"); [done |].
    destruct (String.eqb_spec n "tsconfig.json"); done.
  - intros q Hq. rewrite Hpt.
    case_decide as Eq.
    { subst q. destruct Hq. by exists ["index.html"]. }
    destruct (relTo root q) as [[| n r] |] eqn:E; [done | | done].
    destruct Hq. apply within_relTo. eauto.
  - rewrite Hpt. by case_decide.
Qed.

Lemma X20_conversion_frame_witness :
  let st : fs :=
    list_to_map
      [([], Dir); (["demo"], Dir);
       (["index.html"; "demo"], File "<script src=/src/main.js>");
       (["jsconfig.json"; "demo"], File "{}");
       (["tsconfig.json"; "demo"], File "old");
       (["src"; "demo"], Dir);
       (["App.vue"; "src"; "demo"], File "vue")] in
  exists st' : fs,
    typescriptCleanup 3 ["demo"] st = Ret st' /\
    st' !! ["jsconfig.json"; "demo"] = None /\
    st' !! ["tsconfig.json"; "demo"] = Some (File "{}") /\
    st' !! ["src"; "demo"] = Some Dir /\
    st' !! ["App.vue"; "src"; "demo"] = Some (File "vue") /\
    st' !! ["index.html"; "demo"] = Some (File "<script src=/src/main.ts>").
Proof.
  intros st.
  destruct (X20_conversion_frame 3 ["demo"] st "<script src=/src/main.js>")
    as (st' & Hrun & Hcfg & Hdir & Hother & _ & Hidx).
  - apply wellFormedb_sound. vm_compute. reflexivity.
  - vm_compute. reflexivity.
  - apply fitsDepthb_sound. vm_compute. reflexivity.
  - apply noConfigClashb_sound. vm_compute. reflexivity.
  - vm_compute. reflexivity.
  - exists st'. split; [exact Hrun |].
    destruct (Hcfg ["demo"] "{}") as [Hjs Hts];
      [by exists [] | vm_compute; reflexivity |].
    split; [exact Hjs |]. split; [exact Hts |].
    split; [apply Hdir; vm_compute; reflexivity |].
    split; [| exact Hidx].
    rewrite Hother; [vm_compute; reflexivity | | | | | ];
      first [reflexivity | discriminate].
Defined.

(** X21: the renaming pass of the conversion, run a second time, finds
    nothing to do: it returns the tree that it has returned. *)
Theorem X21_conversion_idempotent (fuel : nat) (root : path) (st : fs) :
  wellFormed st -> st !! root = Some Dir -> fitsDepth root fuel st ->
  noConfigClash root st ->
  exists st' : fs,
    convertJsToTs fuel root st = Ret st' /\
    convertJsToTs fuel root st' = Ret st'.
Proof.
  intros Hwf Hroot Hfit Hcl.
  destruct (convertJsToTs_spec root fuel fuel root st)
    as (st1 & Hrun & Hinv1 & Hpt); auto using within_refl.
  { repeat split; auto. }
  exists st1. split; [exact Hrun |].
  destruct (convertJsToTs_spec root fuel fuel root st1)
    as (st2 & Hrun2 & _ & Hpt2); auto using within_refl.
  { by destruct Hinv1 as (_ & _ & _ & ?). }
  rewrite Hrun2. f_equal. apply map_eq. intros q. rewrite Hpt2.
  destruct (relTo root q) as [[| n r] |] eqn:E; [done | | done].
  apply relTo_spec in E. subst q. cbn [app].
  assert (forall m, st1 !! (m :: r ++ root) = convertedEntry st (m :: r ++ root))
    as Hst1.
  { intros m. by rewrite Hpt, (relTo_within root (r ++ root) m r). }
  destruct (name_cases n) as [stem -> | -> | stem -> | -> | Hs Ht Hc].
  - cbn [convertedEntry]. rewrite js_isSource.
    rewrite Hst1. cbn [convertedEntry]. rewrite js_isSource.
    by destruct (st !! ((stem +:+ ".js") :: r ++ root)) as [[c |] |].
  - cbn [convertedEntry]. change (isSource "jsconfig.json") with true.
    rewrite Hst1. cbn [convertedEntry].
    change (isSource "jsconfig.json") with true.
    by destruct (st !! ("jsconfig.json" :: r ++ root)) as [[c |] |].
  - apply convertedEntry_no_source. intros c. rewrite sourceName_ts, Hst1.
    apply convertedEntry_not_source, js_isSource.
  - apply convertedEntry_no_source. intros c.
    change (sourceName "tsconfig.json") with "jsconfig.json".
    rewrite Hst1. by apply convertedEntry_not_source.
  - cbn [convertedEntry]. by rewrite Hs, Ht, Hc.
Qed.

Lemma X21_conversion_idempotent_witness :
  let st : fs :=
    list_to_map
      [([], Dir); (["demo"], Dir);
       (["jsconfig.json"; "demo"], File "{}");
       (["src"; "demo"], Dir);
       (["a.js"; "src"; "demo"], File "a");
       (["b.js"; "src"; "demo"], File "b");
       (["b.ts"; "src"; "demo"], File "typed b")] in
  exists st' : fs,
    convertJsToTs 3 ["demo"] st = Ret st' /\
    convertJsToTs 3 ["demo"] st' = Ret st'.
Proof.
  intros st. apply (X21_conversion_idempotent 3 ["demo"] st).
  - apply wellFormedb_sound. vm_compute. reflexivity.
  - vm_compute. reflexivity.
  - apply fitsDepthb_sound. vm_compute. reflexivity.
  - apply noConfigClashb_sound. vm_compute. reflexivity.
Defined.

Section RemovalFacts.

Implicit Types (st cur : fs) (root d q : path) (n : string).

(** The removal pass leaves no directory [cypress] or [__tests__]. *)
Lemma keptEntry_no_test_dir root cur d n :
  within root d -> n = "cypress" \/ n = "__tests__" ->
  keptEntry root cur (n :: d) <> Some Dir.
Proof.
  intros Hd Hn. unfold keptEntry.
  destruct (inTestDirb cur root (n :: d)) eqn:E; [discriminate |].
  intros Hdir.
  assert (inTestDirb cur root (n :: d) = true) as E'; [| congruence].
  apply inTestDirb_spec. exists [], n, d.
  repeat split; auto. by apply isTestDirName_spec.
Qed.

(** The removal pass makes no file. *)
Lemma keptEntry_not_file root cur q :
  (forall c, cur !! q <> Some (File c)) ->
  forall c, keptEntry root cur q <> Some (File c).
Proof.
  intros H c. unfold keptEntry.
  destruct (inTestDirb cur root q); [discriminate | apply H].
Qed.

(** The removal pass acts within the root. *)
Lemma keptEntry_outside root cur q :
  ~ within root q -> keptEntry root cur q = cur !! q.
Proof.
  intros Hq. unfold keptEntry, inTestDirb.
  destruct (relTo root q) eqn:E; [| reflexivity].
  destruct Hq. apply within_relTo. eauto.
Qed.

Lemma keptEntry_root root cur : keptEntry root cur root = cur !! root.
Proof. unfold keptEntry, inTestDirb. by rewrite relTo_self. Qed.

(** Where no directory [cypress] or [__tests__] is left, the removal pass
    keeps every entry. *)
Lemma keptEntry_clean root cur q :
  (forall d n, within root d -> n = "cypress" \/ n = "__tests__" ->
               cur !! (n :: d) <> Some Dir) ->
  keptEntry root cur q = cur !! q.
Proof.
  intros Hclean. unfold keptEntry.
  destruct (inTestDirb cur root q) eqn:E; [| reflexivity].
  apply inTestDirb_spec in E as (r & n & d & _ & Hd & Hn & Hdir).
  apply isTestDirName_spec in Hn. by destruct (Hclean d n Hd Hn).
Qed.

End RemovalFacts.

(** X22: after the test-removal pass no directory within the root is named
    [cypress] or [__tests__], the tree is well formed and the root is
    still a directory; and the pass, run a second time, returns the tree
    that it has returned.  (The traversal is the one of the spec, section
    4.2.) *)
Theorem X22_tests_removed_for_good (fuel : nat) (root : path) (st : fs) :
  wellFormed st -> st !! root = Some Dir -> fitsDepth root fuel st ->
  exists st' : fs,
    removeTests fuel root st = Ret st' /\
    (forall (d : path) (n : string),
        within root d -> n = "cypress" \/ n = "__tests__" ->
        st' !! (n :: d) <> Some Dir) /\
    wellFormed st' /\ st' !! root = Some Dir /\
    removeTests fuel root st' = Ret st'.
Proof.
  intros Hwf Hroot Hfit.
  destruct (removeTests_spec fuel fuel root st Hwf Hroot Hfit Hfit)
    as (st1 & Hrun & Hwf1 & Hpt).
  assert (forall d n, within root d -> n = "cypress" \/ n = "__tests__" ->
                      st1 !! (n :: d) <> Some Dir) as Hclean.
  { intros d n Hd Hn. rewrite Hpt. by apply keptEntry_no_test_dir. }
  assert (st1 !! root = Some Dir) as Hroot1.
  { by rewrite Hpt, keptEntry_root. }
  assert (fitsDepth root fuel st1) as Hfit1.
  { apply (fitsDepth_sub root fuel st); [| done].
    intros q. rewrite Hpt. unfold keptEntry.
    destruct (inTestDirb st root q); [by intros [? ?] | done]. }
  exists st1. split; [exact Hrun |].
  split; [exact Hclean |]. split; [exact Hwf1 |]. split; [exact Hroot1 |].
  destruct (removeTests_spec fuel fuel root st1 Hwf1 Hroot1 Hfit1 Hfit1)
    as (st2 & Hrun2 & _ & Hpt2).
  unfold removeTests. rewrite Hrun2. f_equal. apply map_eq. intros q.
  rewrite Hpt2. by apply keptEntry_clean.
Qed.

Lemma X22_tests_removed_for_good_witness :
  let st : fs :=
    list_to_map
      [([], Dir); (["demo"], Dir);
       (["cypress"; "demo"], Dir);
       (["plugins"; "cypress"; "demo"], Dir);
       (["index.js"; "plugins"; "cypress"; "demo"], File "plugin");
       (["src"; "demo"], Dir);
       (["__tests__"; "src"; "demo"], Dir);
       (["a.spec.js"; "__tests__"; "src"; "demo"], File "spec")] in
  exists st' : fs,
    removeTests 4 ["demo"] st = Ret st' /\
    (forall (d : path) (n : string),
        within ["demo"] d -> n = "cypress" \/ n = "__tests__" ->
        st' !! (n :: d) <> Some Dir) /\
    wellFormed st' /\ st' !! ["demo"] = Some Dir /\
    removeTests 4 ["demo"] st' = Ret st'.
Proof.
  intros st. apply (X22_tests_removed_for_good 4 ["demo"] st).
  - apply wellFormedb_sound. vm_compute. reflexivity.
  - vm_compute. reflexivity.
  - apply fitsDepthb_sound. vm_compute. reflexivity.
Defined.

(** X23: the two passes together, as [init] runs them.  On a well-formed
    tree, which for TypeScript holds [index.html] and has no
    [jsconfig.json] next to a directory [tsconfig.json], the cleanup
    returns.  With TypeScript no file [x.js] or [jsconfig.json] is left
    within the root, without tests no directory [cypress] or [__tests__],
    and outside the root nothing has changed. *)
Theorem X23_cleanup (c : configuration) (fuel : nat) (root : path) (st : fs) :
  wellFormed st -> st !! root = Some Dir -> fitsDepth root fuel st ->
  (truthy (needsTypeScript c) = true ->
   noConfigClash root st /\
   exists html, st !! ("index.html" :: root) = Some (File html)) ->
  exists st' : fs,
    cleanup c fuel root st = Ret st' /\
    (truthy (needsTypeScript c) = true ->
     forall (d : path) (n c0 : string),
       within root d ->
       endsWith n ".js" = true \/ n = "jsconfig.json" ->
       st' !! (n :: d) <> Some (File c0)) /\
    (truthy (needsTests c) = false ->
     forall (d : path) (n : string),
       within root d -> n = "cypress" \/ n = "__tests__" ->
       st' !! (n :: d) <> Some Dir) /\
    (forall q, ~ within root q -> st' !! q = st !! q).
Proof.
  intros Hwf Hroot Hfit Hts. unfold cleanup.
  assert (exists st1 : fs,
             (if truthy (needsTypeScript c)
              then typescriptCleanup fuel root st else Ret st) = Ret st1 /\
             wellFormed st1 /\ st1 !! root = Some Dir /\
             fitsDepth root fuel st1 /\
             (truthy (needsTypeScript c) = true ->
              forall d n c0, within root d ->
                             endsWith n ".js" = true \/ n = "jsconfig.json" ->
                             st1 !! (n :: d) <> Some (File c0)) /\
             (forall q, ~ within root q -> st1 !! q = st !! q))
    as (st1 & -> & Hwf1 & Hroot1 & Hfit1 & Hsrc1 & Hout1).
  { destruct (truthy (needsTypeScript c)).
    - destruct (Hts eq_refl) as [Hcl [html Hhtml]].
      destruct (typescriptCleanup_spec fuel root st html Hwf Hroot Hfit Hcl
                  Hhtml) as (st1 & Hrun & (Hwf1 & _ & Hfit1 & Hroot1) & Hpt).
      exists st1. repeat split; try done.
      + intros _ d n c0 [r Hd] Hn.
        assert (isSource n = true) as Hsrc.
        { unfold isSource. destruct Hn as [-> | ->]; [reflexivity |].
          by rewrite orb_true_r. }
        rewrite Hpt, (relTo_within root d n r Hd).
        case_decide as Eq.
        * injection Eq as -> _. discriminate.
        * by apply convertedEntry_not_source.
      + intros q Hq. rewrite Hpt. case_decide as Eq.
        { subst q. destruct Hq. by exists ["index.html"]. }
        destruct (relTo root q) as [[| n r] |] eqn:E; [done | | done].
        destruct Hq. apply within_relTo. eauto.
    - exists st. repeat split; try done. }
  cbn [bind].
  destruct (truthy (needsTests c)); cbn [negb].
  - exists st1. repeat split; try done.
  - destruct (removeTests_spec fuel fuel root st1 Hwf1 Hroot1 Hfit1 Hfit1)
      as (st2 & Hrun & _ & Hpt).
    exists st2. split; [exact Hrun |]. split; [| split].
    + intros Ht d n c0 Hd Hn. rewrite Hpt.
      apply keptEntry_not_file. intros c1. by apply Hsrc1.
    + intros _ d n Hd Hn. rewrite Hpt. by apply keptEntry_no_test_dir.
    + intros q Hq. rewrite Hpt, keptEntry_outside by done. by apply Hout1.
Qed.

Lemma X23_cleanup_witness :
  let st : fs :=
    list_to_map
      [([], Dir); (["demo"], Dir);
       (["index.html"; "demo"], File "<script src=/src/main.js>");
       (["jsconfig.json"; "demo"], File "{}");
       (["cypress"; "demo"], Dir);
       (["index.js"; "cypress"; "demo"], File "plugin");
       (["src"; "demo"], Dir);
       (["main.js"; "src"; "demo"], File "main");
       (["__tests__"; "src"; "demo"], Dir);
       (["a.spec.js"; "__tests__"; "src"; "demo"], File "spec")] in
  let c := withFlags true false false false false false false in
  exists st' : fs,
    cleanup c 4 ["demo"] st = Ret st' /\
    st' !! ["main.js"; "src"; "demo"] <> Some (File "main") /\
    st' !! ["jsconfig.json"; "demo"] <> Some (File "{}") /\
    st' !! ["cypress"; "demo"] <> Some Dir /\
    st' !! ["__tests__"; "src"; "demo"] <> Some Dir /\
    st' !! [] = Some Dir.
Proof.
  intros st c.
  destruct (X23_cleanup c 4 ["demo"] st) as (st' & Hrun & Hsrc & Htest & Hout).
  - apply wellFormedb_sound. vm_compute. reflexivity.
  - vm_compute. reflexivity.
  - apply fitsDepthb_sound. vm_compute. reflexivity.
  - intros _. split.
    + apply noConfigClashb_sound. vm_compute. reflexivity.
    + eexists. vm_compute. reflexivity.
  - exists st'. split; [exact Hrun |].
    assert (within ["demo"] ["demo"]) as Hroot by (by exists []).
    assert (within ["demo"] ["src"; "demo"]) as Hsrcdir by (by exists ["src"]).
    split; [apply (Hsrc eq_refl); [exact Hsrcdir | by left] |].
    split; [apply (Hsrc eq_refl); [exact Hroot | by right] |].
    split; [apply (Htest eq_refl); [exact Hroot | by left] |].
    split; [apply (Htest eq_refl); [exact Hsrcdir | by right] |].
    rewrite Hout; [vm_compute; reflexivity |].
    intros H%within_relTo. vm_compute in H. by destruct H.
Defined.

(** ** The entry in [index.html] (index.js, lines 312-315) *)

Section ReplaceFacts.

Implicit Types (s pattern pre post : string).






End ReplaceFacts.


(** ** The order of the prompts (index.js, lines 99-201) *)

Section PromptOrder.

Context {S : Type}.
Implicit Types (qs : list (question S)) (user : string -> response).

(** The prompts are shown in the order of the questions, one for a
    question at most, and none for a question whose [type] is never a
    prompt. *)
Lemma prompts_order (P : question S -> bool) qs cancelled user s answers :
  (forall q s0 ans0 k,
      q ∈ qs -> P q = false -> type q s0 ans0 <> Ret (Some k)) ->
  sublist (List.map fst (fst (prompts qs cancelled user s answers)))
          (List.map name (List.filter P qs)).
Proof.
  revert s answers. induction qs as [| q qs IH]; intros s answers Hq.
  - cbn. constructor.
  - assert (forall q' s0 ans0 k,
               q' ∈ qs -> P q' = false -> type q' s0 ans0 <> Ret (Some k))
      as Hqs.
    { intros q' s0 ans0 k Hin. apply Hq. by right. }
    rewrite prompts_cons. cbn [List.filter].
    destruct (type q s answers) as [[k |] | e |] eqn:T.
    + destruct (P q) eqn:Pq.
      2: { by destruct (Hq q s answers k (list_elem_of_here _ _) Pq). }
      cbn [List.map].
      destruct (user (name q)) as [v |].
      * specialize (IH (onState q v s) (<[name q := v]> answers) Hqs).
        destruct (prompts qs cancelled user (onState q v s)
                    (<[name q := v]> answers)) as [t r].
        cbn [fst List.map] in *. by apply sublist_skip.
      * cbn [fst List.map]. apply sublist_skip, sublist_nil_l.
    + specialize (IH s answers Hqs).
      destruct (P q); [cbn [List.map]; by apply sublist_cons | exact IH].
    + cbn [fst List.map]. apply sublist_nil_l.
    + cbn [fst List.map]. apply sublist_nil_l.
Qed.

(** A prompt is shown for a question whose [type] is not [null] at the
    answers given so far. *)
Lemma prompts_asked_at qs cancelled user s answers n r :
  (n, r) ∈ fst (prompts qs cancelled user s answers) ->
  exists q s' answers' k,
    q ∈ qs /\ name q = n /\ type q s' answers' = Ret (Some k) /\
    forall m v,
      answers' !! m = Some v ->
      answers !! m = Some v \/
      (m, Submit v) ∈ fst (prompts qs cancelled user s answers).
Proof.
  revert s answers. induction qs as [| q qs IH]; intros s answers.
  - intros H. inversion H.
  - rewrite prompts_cons.
    destruct (type q s answers) as [[k |] | e |] eqn:T.
    + destruct (user (name q)) as [v |].
      * specialize (IH (onState q v s) (<[name q := v]> answers)).
        destruct (prompts qs cancelled user (onState q v s)
                    (<[name q := v]> answers)) as [t r']. cbn [fst] in *.
        intros H. apply elem_of_cons in H as [H | H].
        -- injection H as -> _. exists q, s, answers, k.
           repeat split; auto. left.
        -- destruct (IH H) as (q' & s' & a' & k' & Hin & Hn & Ht & Ha).
           exists q', s', a', k'. repeat split; auto; [by right |].
           intros m w Hm. destruct (Ha m w Hm) as [Hm' | Hm'].
           ++ apply lookup_insert_Some in Hm' as [[<- <-] | [_ Hm']];
                [right; left | by left].
           ++ right. by right.
      * cbn [fst]. intros H. apply elem_of_cons in H as [H | H].
        -- injection H as -> _. exists q, s, answers, k.
           repeat split; auto. left.
        -- inversion H.
    + intros H. destruct (IH _ _ H) as (q' & s' & a' & k' & Hin & Hn & Ht & Ha).
      exists q', s', a', k'. repeat split; auto. by right.
    + intros H. inversion H.
    + intros H. inversion H.
Qed.

End PromptOrder.

(** X25: the prompts of a session come in the order project name,
    overwrite confirmation, package name, TypeScript, JSX, router, Pinia,
    tests, ESLint, Prettier, each at most once; the check of the
    confirmation never shows a prompt; and the transcript holds what the
    user has done at each. *)
Theorem X25_prompt_order (banner : string) (red : string -> string)
    (a : argv) (cwd : path) (st : fs) (user : string -> response) :
  let t := fst (fst (resolveInput banner red a cwd st user)) in
  sublist (List.map fst t)
    [ "projectName"; "shouldOverwrite"; "packageName"; "needsTypeScript";
      "needsJsx"; "needsRouter"; "needsPinia"; "needsTests"; "needsEslint";
      "needsPrettier" ] /\
  NoDup (List.map fst t) /\
  (forall n r, (n, r) ∈ t -> r = user n).
Proof.
  intros t. subst t. rewrite resolveInput_transcript.
  assert (sublist
            (List.map fst
               (fst (prompts (questions red a cwd st) (operationCancelled red)
                       user
                       (match positional a with
                        | w :: _ => VString w | [] => VUndefined end) ∅)))
            [ "projectName"; "shouldOverwrite"; "packageName";
              "needsTypeScript"; "needsJsx"; "needsRouter"; "needsPinia";
              "needsTests"; "needsEslint"; "needsPrettier" ]) as Hsub.
  { apply (prompts_order
             (fun q => negb (String.eqb (name q) "overwriteChecker"))).
    intros q s0 ans0 k Hq HP.
    unfold questions, featureToggle in Hq.
    repeat (apply elem_of_cons in Hq as [-> | Hq];
            [cbn [name type] in *; try discriminate HP |]).
    2: inversion Hq.
    by destruct (decide _). }
  split; [exact Hsub |]. split.
  - eapply sublist_NoDup; [| exact Hsub].
    apply (bool_decide_unpack _). vm_compute. exact I.
  - intros n r H. by apply prompts_transcript in H as [-> _].
Qed.

(** X26: the question about Prettier is asked only when no feature flag
    is used and the question about ESLint, asked before, was answered
    with a value that is not falsy. *)
Theorem X26_prettier_after_eslint (banner : string) (red : string -> string)
    (a : argv) (cwd : path) (st : fs) (user : string -> response)
    (r : response) :
  ("needsPrettier", r) ∈ fst (fst (resolveInput banner red a cwd st user)) ->
  isFeatureFlagsUsed a = false /\
  exists v,
    user "needsEslint" = Submit v /\ truthy v = true /\
    ("needsEslint", Submit v)
      ∈ fst (fst (resolveInput banner red a cwd st user)).
Proof.
  rewrite resolveInput_transcript. intros H.
  destruct (prompts_asked_at _ _ _ _ _ _ _ H)
    as (q & s' & ans' & k & Hq & Hname & Htype & Hans).
  unfold questions, featureToggle in Hq.
  repeat (apply elem_of_cons in Hq as [-> | Hq];
          [cbn [name type] in *; try discriminate Hname |]).
  2: inversion Hq.
  destruct (isFeatureFlagsUsed a); [discriminate |].
  split; [reflexivity |]. cbn [orb] in Htype.
  destruct (ans' !! "needsEslint") as [v |] eqn:E; [| discriminate].
  cbn in Htype.
  destruct (truthy v) eqn:Ev; [| discriminate].
  exists v. destruct (Hans _ _ E) as [Hm | Hm].
  - by rewrite lookup_empty in Hm.
  - split; [| done].
    by apply prompts_transcript in Hm as [-> _].
Qed.

Lemma X26_prettier_after_eslint_witness :
  let user := fun q : string =>
                if String.eqb q "needsEslint" then Submit (VBool true)
                else Submit (VBool false) in
  let t :=
    fst (fst (resolveInput "create-vue" (fun s => s) (Argv ["demo"] ∅)
                ["work"] (list_to_map [([], Dir); (["work"], Dir)]) user)) in
  ("needsPrettier", Submit (VBool false)) ∈ t /\
  isFeatureFlagsUsed (Argv ["demo"] ∅) = false /\
  exists v,
    user "needsEslint" = Submit v /\ truthy v = true /\
    ("needsEslint", Submit v) ∈ t.
Proof.
  intros user t.
  assert (("needsPrettier", Submit (VBool false)) ∈ t) as H by in_list.
  split; [exact H |].
  exact (X26_prettier_after_eslint "create-vue" (fun s => s) (Argv ["demo"] ∅)
           ["work"] (list_to_map [([], Dir); (["work"], Dir)]) user
           (Submit (VBool false)) H).
Defined.
